(** * CommiTect: the classification-and-caching pipeline

    A shallow embedding of [src/utils/cache.ts] (the [CommitCache] class),
    of [services/llm.ts] and of [commands/clear-cache.ts], followed by the
    properties of the specification that were checked against them.

    The repository holds several revisions of [services/llm.ts].  Module
    [Llm] embeds the one the specification describes, with the heuristic
    classifier: [generateCommitMessage], [parseResponse], [analyzeDiff],
    [determineIntent], [generateMessage], [generateFallbackCommit].  Module
    [LlmThrowing] embeds the retry loop of the revision that has no
    fallback.

    Conventions.  A JavaScript string is a [string] of bytes, its UTF-8
    encoding, with lengths counted in UTF-16 code units (module [Js]).
    The counts of a [ChangeSummary] are binary64 [number]s; array lengths,
    HTTP status codes and epoch milliseconds are [Z].  The process
    state the code mutates (the in-memory [Map], the cache file, the clock,
    the console) is threaded explicitly as a [World]. *)

From Stdlib Require Import ZArith List String Ascii Bool Lia Arith.
From Stdlib Require Import Permutation Sorted.
From Stdlib Require SpecFloat.
Import ListNotations.

Local Open Scope string_scope.
Local Open Scope Z_scope.

(* ------------------------------------------------------------------ *)
(** ** JavaScript strings and numbers, as the sources use them *)

Module Js.

(** *** Strings

    A string is held as the bytes of its UTF-8 encoding; a surrogate that
    has no partner has the three bytes of its own code point.  Searching,
    splitting and comparing act on the bytes.  [length] and [substring]
    count UTF-16 code units, and white space is what ECMAScript calls
    WhiteSpace and LineTerminator. *)

Definition byte (n : N) : ascii := ascii_of_N n.

(** The UTF-8 bytes of a code point below 65536. *)
Definition utf8 (point : N) : string :=
  (if point <? 128 then String (byte point) EmptyString
   else if point <? 2048
   then String (byte (192 + point / 64))
          (String (byte (128 + point mod 64)) EmptyString)
   else String (byte (224 + point / 4096))
          (String (byte (128 + (point / 64) mod 64))
             (String (byte (128 + point mod 64)) EmptyString)))%N.

Definition LF : ascii := byte 10.
Definition CR : ascii := byte 13.

(** LineTerminator: LF, CR, U+2028, U+2029. *)
Definition lineTerminators : list string :=
  map utf8 [10; 13; 8232; 8233]%N.

(** What [trim] strips and [\s] matches: TAB, VT, FF, SP, U+00A0, the
    other space separators (U+1680, U+2000 to U+200A, U+202F, U+205F,
    U+3000), U+FEFF, and the line terminators. *)
Definition whiteSpaces : list string :=
  (map utf8 [9; 11; 12; 32; 160; 5760;
             8192; 8193; 8194; 8195; 8196; 8197; 8198; 8199; 8200; 8201; 8202;
             8239; 8287; 12288; 65279]%N
   ++ lineTerminators)%list.

(** [s.startsWith(p)] *)
Fixpoint startsWith (p s : string) : bool :=
  match p, s with
  | EmptyString, _ => true
  | String a p', String b s' => Ascii.eqb a b && startsWith p' s'
  | String _ _, EmptyString => false
  end.

(** The number of bytes of the white space [s] starts with, 0 when it
    starts with none. *)
Definition whiteSpaceAt (s : string) : nat :=
  match find (fun w => startsWith w s) whiteSpaces with
  | Some w => String.length w
  | None => 0
  end.

(** [skip] is the number of bytes still to be passed of the white space
    that was found. *)
Fixpoint trimStartFrom (skip : nat) (s : string) : string :=
  match s with
  | EmptyString => EmptyString
  | String _ r =>
      match skip with
      | S k => trimStartFrom k r
      | O =>
          match whiteSpaceAt s with
          | O => s
          | S k => trimStartFrom k r
          end
      end
  end.

Definition trimStart (s : string) : string := trimStartFrom 0 s.

(** Nothing but white space. *)
Definition isBlank (s : string) : bool :=
  match trimStart s with EmptyString => true | String _ _ => false end.

Fixpoint trimEnd (s : string) : string :=
  match s with
  | EmptyString => EmptyString
  | String c r => if isBlank s then EmptyString else String c (trimEnd r)
  end.

(** [s.trim()] *)
Definition trim (s : string) : string := trimEnd (trimStart s).

Fixpoint drop (n : nat) (s : string) : string :=
  match n, s with
  | O, _ => s
  | S n', String _ r => drop n' r
  | S _, EmptyString => EmptyString
  end.

Fixpoint take (n : nat) (s : string) : string :=
  match n, s with
  | O, _ => EmptyString
  | S n', String c r => String c (take n' r)
  | S _, EmptyString => EmptyString
  end.

(** The UTF-16 code units of the character a byte begins: none for a
    continuation byte, two (a surrogate pair) for the first of four
    bytes, else one. *)
Definition units (c : ascii) : nat :=
  let n := N_of_ascii c in
  (if n <? 128 then 1%nat else if n <? 192 then 0%nat
   else if n <? 240 then 1%nat else 2%nat)%N.

(** [s.length] *)
Fixpoint length (s : string) : nat :=
  match s with
  | EmptyString => 0%nat
  | String c r => (units c + length r)%nat
  end.

(** The first half of the surrogate pair of the four-byte character
    [c], [r]. *)
Definition highSurrogate (c : ascii) (r : string) : string :=
  match r with
  | String b1 (String b2 (String b3 _)) =>
      let point :=
        ((N_of_ascii c mod 8) * 262144 + (N_of_ascii b1 mod 64) * 4096
         + (N_of_ascii b2 mod 64) * 64 + N_of_ascii b3 mod 64)%N in
      utf8 (55296 + (point - 65536) / 1024)%N
  | _ => EmptyString
  end.

(** [s.substring(0, n)]: the first [n] code units.  A cut between the
    two halves of a surrogate pair keeps the first half. *)
Fixpoint substring0 (n : nat) (s : string) : string :=
  match s with
  | EmptyString => EmptyString
  | String c r =>
      match units c, n with
      | O, _ => String c (substring0 n r)
      | _, O => EmptyString
      | S O, S n' => String c (substring0 n' r)
      | _, S O => highSurrogate c r
      | _, S (S n') => String c (substring0 n' r)
      end
  end.

(** [s.replace(pat, rep)] with a string pattern: the first occurrence
    only. *)
Fixpoint replace (pat rep s : string) : string :=
  if startsWith pat s then rep ++ drop (String.length pat) s
  else match s with
       | String c r => String c (replace pat rep r)
       | EmptyString => EmptyString
       end.

(** [s.split(sep)] for a one-character separator; the empty string
    splits into one empty piece. *)
Fixpoint split (sep : ascii) (s : string) : list string :=
  match s with
  | EmptyString => [EmptyString]
  | String c r =>
      if Ascii.eqb c sep then EmptyString :: split sep r
      else match split sep r with
           | h :: t => String c h :: t
           | [] => [String c EmptyString]
           end
  end.

(** Truthiness of a string: [!s] holds exactly for the empty string. *)
Definition truthy (s : string) : bool :=
  match s with EmptyString => false | _ => true end.

(** *** Integers

    The decimal digits of an integer [n >= 0]. *)
Definition digitChar (d : Z) : ascii := ascii_of_nat (48 + Z.to_nat d).

Fixpoint digitsFuel (fuel : nat) (n : Z) (acc : string) : string :=
  match fuel with
  | O => acc
  | S f =>
      let acc' := String (digitChar (n mod 10)) acc in
      if n <? 10 then acc' else digitsFuel f (n / 10) acc'
  end.

Definition decimal (n : Z) : string :=
  digitsFuel (S (Z.to_nat (Z.log2 n))) n EmptyString.

(** *** Numbers

    A [number] is a binary64 value: the sign, and for a finite value
    other than zero the mantissa [m] and the exponent [e] of
    [m * 2^e], with [m] below 2^53 and [e] from -1074 to 971
    ([isNumber]). *)
Definition number : Type := SpecFloat.spec_float.

Definition isNumber (x : number) : bool := SpecFloat.valid_binary 53 1024 x.

Definition zero : number := SpecFloat.S754_zero false.
Definition one : number := SpecFloat.S754_finite false 4503599627370496 (-52).

(** The number nearest to an integer. *)
Definition ofZ (z : Z) : number := SpecFloat.binary_normalize 53 1024 z 0 false.

(** [x > 0] *)
Definition gt0 (x : number) : bool := SpecFloat.SFltb zero x.

(** [x === 1] *)
Definition is1 (x : number) : bool := SpecFloat.SFeqb x one.

(** [Number::toString] (ECMA-262, 6.1.6.1.20).  The value [m * 2^e] is
    the decimal [M * 10^(min e 0)], where [M] is [m * 2^e] for [e >= 0]
    and [m * 5^(-e)] otherwise, so that one unit of [m] is [unit e] units
    of [M]. *)
Definition unit (e : Z) : Z := if 0 <=? e then 2 ^ e else 5 ^ (- e).

Definition digitsOf (z : Z) : Z := Z.of_nat (String.length (decimal z)).

(** Whether the decimal [v * 10^(min e 0)] is read back as [m * 2^e]: it
    lies between the midpoints to the two neighbouring numbers, and may
    be a midpoint when [m] is even.  The lower neighbour is half as far
    when [m] is the least mantissa of its exponent.  All sides are
    multiplied by 4. *)
Definition readsBack (m : positive) (e : Z) (v : Z) : bool :=
  let U := unit e in
  let M := Z.pos m * U in
  let below := if (Z.pos m =? 2 ^ 52) && (-1074 <? e) then U else 2 * U in
  if Z.even (Z.pos m)
  then (4 * M - below <=? 4 * v) && (4 * v <=? 4 * M + 2 * U)
  else (4 * M - below <? 4 * v) && (4 * v <? 4 * M + 2 * U).

(** The digits [s] with the least count [k] among [ks] such that [s],
    at the place of the first [k] digits of [M], is read back as the
    number; of two such [s] the one nearer to [M], the even one when they
    are as near.  Seventeen digits determine a binary64 value, so the
    search ends before [ks] is used up ([shortest_reads_back]). *)
Fixpoint firstDigits (m : positive) (e M D : Z) (ks : list Z) : Z * Z :=
  match ks with
  | [] => (M / 10 ^ (D - 17), 17)
  | k :: rest =>
      let p := 10 ^ Z.max (D - k) 0 in
      let lo := M / p in
      let hi := lo + 1 in
      match readsBack m e (lo * p), readsBack m e (hi * p) with
      | true, true =>
          if (M - lo * p <? hi * p - M)
             || ((M - lo * p =? hi * p - M) && Z.even lo)
          then (lo, k) else (hi, k)
      | true, false => (lo, k)
      | false, true => (hi, k)
      | false, false => firstDigits m e M D rest
      end
  end.

(** The integers [s] and [n] of the standard: the value is
    [0.s * 10^n]. *)
Definition shortest (m : positive) (e : Z) : Z * Z :=
  let M := Z.pos m * unit e in
  let D := digitsOf M in
  let '(s, k) := firstDigits m e M D (map Z.of_nat (seq 1 17)) in
  if s =? 10 ^ k then (1, D + Z.min e 0 + 1) else (s, D + Z.min e 0).

Fixpoint zeros (n : nat) : string :=
  match n with
  | O => EmptyString
  | S n' => String "0" (zeros n')
  end.

Definition finiteToString (m : positive) (e : Z) : string :=
  let '(s, n) := shortest m e in
  let digits := decimal s in
  let k := Z.of_nat (String.length digits) in
  if (k <=? n) && (n <=? 21) then digits ++ zeros (Z.to_nat (n - k))
  else if (0 <? n) && (n <=? 21)
  then take (Z.to_nat n) digits ++ "." ++ drop (Z.to_nat n) digits
  else if (-6 <? n) && (n <=? 0) then "0." ++ zeros (Z.to_nat (- n)) ++ digits
  else
    let exponent :=
      (if n - 1 <? 0 then "-" else "+") ++ decimal (Z.abs (n - 1)) in
    if k =? 1 then digits ++ "e" ++ exponent
    else take 1 digits ++ "." ++ drop 1 digits ++ "e" ++ exponent.

(** [String(x)], [`${x}`] *)
Definition numberToString (x : number) : string :=
  match x with
  | SpecFloat.S754_nan => "NaN"
  | SpecFloat.S754_zero _ => "0"
  | SpecFloat.S754_infinity negative =>
      if negative then "-Infinity" else "Infinity"
  | SpecFloat.S754_finite negative m e =>
      (if negative then "-" else EmptyString) ++ finiteToString m e
  end.

End Js.

(* ------------------------------------------------------------------ *)
(** ** The two digests of Node's [crypto.createHash]

    Modelled from FIPS 180-4 (the library is not part of the repository):
    [createHash('sha1')] and [createHash('sha256')], [update] with a
    string, [digest('hex')]. *)

Module Crypto.

Definition w32 (x : Z) : Z := x mod 2 ^ 32.
Definition add32 (x y : Z) : Z := w32 (x + y).
Definition not32 (x : Z) : Z := Z.lxor x 0xFFFFFFFF.
Definition rotl (n x : Z) : Z :=
  w32 (Z.lor (Z.shiftl x n) (Z.shiftr x (32 - n))).
Definition rotr (n x : Z) : Z := rotl (32 - n) x.

(** [update(s)] takes the UTF-8 encoding of the string, in which a
    surrogate without partner (here the three bytes ED, A0 to BF, and one
    more) is replaced by U+FFFD. *)
Fixpoint wellFormed (s : string) : string :=
  match s with
  | EmptyString => EmptyString
  | String a r =>
      match r with
      | String b (String _ r') =>
          if Ascii.eqb a (Js.byte 237) && (160 <=? N_of_ascii b)%N
          then Js.utf8 65533 ++ wellFormed r'
          else String a (wellFormed r)
      | _ => String a (wellFormed r)
      end
  end.

Definition bytesOf (s : string) : list Z :=
  map (fun c => Z.of_nat (nat_of_ascii c)) (list_ascii_of_string (wellFormed s)).

(** Big-endian bytes of [x], [n] of them. *)
Fixpoint beBytes (n : nat) (x : Z) : list Z :=
  match n with
  | O => []
  | S n' => Z.shiftr x (8 * Z.of_nat n') mod 256 :: beBytes n' x
  end.

(** Padding of 5.1.1: a one bit, zeros up to 56 mod 64, the bit length on
    64 bits. *)
Definition pad (msg : list Z) : list Z :=
  let len := Z.of_nat (List.length msg) in
  let zeros := Z.to_nat ((55 - len) mod 64) in
  msg ++ [0x80] ++ repeat 0 zeros ++ beBytes 8 (8 * len).

Fixpoint words (bs : list Z) : list Z :=
  match bs with
  | a :: b :: c :: d :: r =>
      (Z.shiftl a 24 + Z.shiftl b 16 + Z.shiftl c 8 + d) :: words r
  | _ => []
  end.

Fixpoint blocks (fuel : nat) (ws : list Z) : list (list Z) :=
  match fuel, ws with
  | S f, _ :: _ => firstn 16 ws :: blocks f (skipn 16 ws)
  | _, _ => []
  end.

Definition parse (s : string) : list (list Z) :=
  let ws := words (pad (bytesOf s)) in
  blocks (List.length ws) ws.

Definition W (l : list Z) (t back : nat) : Z := nth (t - back) l 0.

Definition hexDigit (d : Z) : ascii :=
  if d <? 10 then ascii_of_nat (48 + Z.to_nat d)
  else ascii_of_nat (87 + Z.to_nat d).

Definition nibble (x : Z) (i : Z) : ascii :=
  hexDigit (Z.shiftr x (4 * i) mod 16).

(** Eight lower-case hexadecimal digits of a 32-bit word. *)
Definition hex8 (x : Z) (rest : string) : string :=
  String (nibble x 7) (String (nibble x 6) (String (nibble x 5)
  (String (nibble x 4) (String (nibble x 3) (String (nibble x 2)
  (String (nibble x 1) (String (nibble x 0) rest))))))).

Fixpoint hexWords (ws : list Z) : string :=
  match ws with
  | [] => EmptyString
  | x :: r => hex8 x (hexWords r)
  end.

(** *** SHA-1 *)

Fixpoint schedule1 (n : nat) (l : list Z) : list Z :=
  match n with
  | O => l
  | S n' =>
      let t := List.length l in
      let x := Z.lxor (Z.lxor (W l t 3) (W l t 8))
                      (Z.lxor (W l t 14) (W l t 16)) in
      schedule1 n' (l ++ [rotl 1 x])
  end.

Definition f1 (t : nat) (b c d : Z) : Z :=
  if (t <? 20)%nat then Z.lor (Z.land b c) (Z.land (not32 b) d)
  else if (t <? 40)%nat then Z.lxor (Z.lxor b c) d
  else if (t <? 60)%nat then
    Z.lor (Z.lor (Z.land b c) (Z.land b d)) (Z.land c d)
  else Z.lxor (Z.lxor b c) d.

Definition k1 (t : nat) : Z :=
  if (t <? 20)%nat then 0x5A827999
  else if (t <? 40)%nat then 0x6ED9EBA1
  else if (t <? 60)%nat then 0x8F1BBCDC
  else 0xCA62C1D6.

Definition round1 (st : Z * Z * Z * Z * Z) (tw : nat * Z) :=
  let '(a, b, c, d, e) := st in
  let '(t, w) := tw in
  let tmp := add32 (add32 (add32 (add32 (rotl 5 a) (f1 t b c d)) e) (k1 t)) w in
  (tmp, a, rotl 30 b, c, d).

Definition compress1 (h : Z * Z * Z * Z * Z) (blk : list Z) :=
  let ws := schedule1 64 blk in
  let '(a, b, c, d, e) := fold_left round1 (combine (seq 0 80) ws) h in
  let '(h0, h1, h2, h3, h4) := h in
  (add32 h0 a, add32 h1 b, add32 h2 c, add32 h3 d, add32 h4 e).

Definition sha1_state (s : string) :=
  fold_left compress1 (parse s)
    (0x67452301, 0xEFCDAB89, 0x98BADCFE, 0x10325476, 0xC3D2E1F0).

(** [crypto.createHash('sha1').update(s).digest('hex')] *)
Definition sha1_hex (s : string) : string :=
  let '(a, b, c, d, e) := sha1_state s in hexWords [a; b; c; d; e].

(** *** SHA-256 *)

Definition ssig0 (x : Z) := Z.lxor (Z.lxor (rotr 7 x) (rotr 18 x)) (Z.shiftr x 3).
Definition ssig1 (x : Z) := Z.lxor (Z.lxor (rotr 17 x) (rotr 19 x)) (Z.shiftr x 10).
Definition bsig0 (x : Z) := Z.lxor (Z.lxor (rotr 2 x) (rotr 13 x)) (rotr 22 x).
Definition bsig1 (x : Z) := Z.lxor (Z.lxor (rotr 6 x) (rotr 11 x)) (rotr 25 x).
Definition ch (x y z : Z) := Z.lxor (Z.land x y) (Z.land (not32 x) z).
Definition maj (x y z : Z) :=
  Z.lxor (Z.lxor (Z.land x y) (Z.land x z)) (Z.land y z).

Fixpoint schedule256 (n : nat) (l : list Z) : list Z :=
  match n with
  | O => l
  | S n' =>
      let t := List.length l in
      let x := add32 (add32 (ssig1 (W l t 2)) (W l t 7))
                     (add32 (ssig0 (W l t 15)) (W l t 16)) in
      schedule256 n' (l ++ [x])
  end.

(** The first 64 primes. *)
Definition primes : list Z :=
  [2; 3; 5; 7; 11; 13; 17; 19; 23; 29; 31; 37; 41; 43; 47; 53; 59; 61; 67;
   71; 73; 79; 83; 89; 97; 101; 103; 107; 109; 113; 127; 131; 137; 139; 149;
   151; 157; 163; 167; 173; 179; 181; 191; 193; 197; 199; 211; 223; 227;
   229; 233; 239; 241; 251; 257; 263; 269; 271; 277; 281; 283; 293; 307;
   311].

(** The largest [r] with [power r <= n], found bit by bit below [2^bits]. *)
Fixpoint integerRoot (power : Z -> Z) (bits : nat) (n r : Z) : Z :=
  match bits with
  | O => r
  | S b =>
      let candidate := r + 2 ^ Z.of_nat b in
      integerRoot power b n (if power candidate <=? n then candidate else r)
  end.

(** The first 32 bits of the fractional part of a root of [p]: of the
    square root for [degree] 2, of the cube root for 3. *)
Definition fractionOfRoot (degree : nat) (p : Z) : Z :=
  let power x := Z.pow x (Z.of_nat degree) in
  w32 (integerRoot power 36 (Z.shiftl p (32 * Z.of_nat degree)) 0).

(** The constants of 4.2.2: cube roots of the first 64 primes. *)
Definition k256 : list Z :=
  Eval vm_compute in map (fractionOfRoot 3) primes.

Definition round256 (st : list Z) (kw : Z * Z) : list Z :=
  match st with
  | [a; b; c; d; e; f; g; h] =>
      let t1 := add32 (add32 (add32 (add32 h (bsig1 e)) (ch e f g)) (fst kw)) (snd kw) in
      let t2 := add32 (bsig0 a) (maj a b c) in
      [add32 t1 t2; a; b; c; add32 d t1; e; f; g]
  | _ => st
  end.

Fixpoint addWords (xs ys : list Z) : list Z :=
  match xs, ys with
  | x :: xs', y :: ys' => add32 x y :: addWords xs' ys'
  | _, _ => xs
  end.

Definition compress256 (h : list Z) (blk : list Z) : list Z :=
  addWords h (fold_left round256 (combine k256 (schedule256 48 blk)) h).

(** The initial hash value of 5.3.3: square roots of the first 8 primes. *)
Definition iv256 : list Z :=
  Eval vm_compute in map (fractionOfRoot 2) (firstn 8 primes).

Definition sha256_state (s : string) : list Z :=
  fold_left compress256 (parse s) iv256.

(** [createHash('sha256').update(s).digest('hex')] *)
Definition sha256_hex (s : string) : string := hexWords (sha256_state s).

End Crypto.

(* ------------------------------------------------------------------ *)
(** ** Regular expressions

    The patterns of [analyzeDiff] are kept as data and run by a small
    backtracking matcher with the priorities of ECMAScript (alternatives
    left to right, greedy or lazy repetition, an iteration that consumes
    nothing is rejected).  A configuration is the input before the
    current position, needed by [^] and [\b], and the rest of the input.
    Positions are counted in bytes. *)

Module Regex.

Inductive regex : Type :=
| Eps
| Chr (p : ascii -> bool)
| Cat (a b : regex)
| Alt (a b : regex)
| Star (a : regex)
| LazyStar (a : regex)
| Bol (multiline : bool)
| Eol (multiline : bool)
| WordB
| NotAt (l : list string).     (* the input does not go on with one of [l] *)

(** The input before the position, its last byte first, and the rest of
    the input. *)
Definition Cfg : Type := string * string.

Fixpoint reverseOnto (s acc : string) : string :=
  match s with
  | EmptyString => acc
  | String c r => reverseOnto r (String c acc)
  end.

Definition reverse (s : string) : string := reverseOnto s EmptyString.

Definition startsWithAny (l : list string) (s : string) : bool :=
  existsb (fun t => Js.startsWith t s) l.

(** A line terminator begins here. *)
Definition atTerminator (s : string) : bool :=
  startsWithAny Js.lineTerminators s.

(** A line terminator has just ended. *)
Definition afterTerminator (before : string) : bool :=
  startsWithAny (map reverse Js.lineTerminators) before.

Definition between (lo hi : nat) (c : ascii) : bool :=
  let n := nat_of_ascii c in ((lo <=? n) && (n <=? hi))%nat.

Definition isUpper : ascii -> bool := between 65 90.
Definition isLower : ascii -> bool := between 97 122.
Definition isDigit : ascii -> bool := between 48 57.

(** [\w] *)
Definition isWord (c : ascii) : bool :=
  isUpper c || isLower c || isDigit c || Ascii.eqb c "_"%char.

(** The letters A to Z are the only characters the [i] flag relates to
    the letters of the patterns. *)
Definition toLower (c : ascii) : ascii :=
  if isUpper c then ascii_of_nat (nat_of_ascii c + 32) else c.

(** The byte next to the position, on either side, is a word
    character. *)
Definition atWord (s : string) : bool :=
  match s with String c _ => isWord c | EmptyString => false end.

Definition isEmpty (s : string) : bool :=
  match s with String _ _ => false | EmptyString => true end.

Fixpoint run (r : regex) (prev : string) (s : string) : list Cfg :=
  match r with
  | Eps => [(prev, s)]
  | Chr p =>
      match s with
      | String c s' => if p c then [(String c prev, s')] else []
      | EmptyString => []
      end
  | Cat a b => flat_map (fun c : Cfg => run b (fst c) (snd c)) (run a prev s)
  | Alt a b => (run a prev s ++ run b prev s)%list
  | Star a =>
      (fix loop (n : nat) (prev : string) (s : string) : list Cfg :=
         match n with
         | O => [(prev, s)]
         | S n' =>
             (flat_map
                (fun c : Cfg =>
                   if (String.length (snd c) <? String.length s)%nat
                   then loop n' (fst c) (snd c) else [])
                (run a prev s)
              ++ [(prev, s)])%list
         end) (String.length s) prev s
  | LazyStar a =>
      (fix loop (n : nat) (prev : string) (s : string) : list Cfg :=
         match n with
         | O => [(prev, s)]
         | S n' =>
             (prev, s) ::
             flat_map
               (fun c : Cfg =>
                  if (String.length (snd c) <? String.length s)%nat
                  then loop n' (fst c) (snd c) else [])
               (run a prev s)
         end) (String.length s) prev s
  | Bol m =>
      if isEmpty prev || (m && afterTerminator prev) then [(prev, s)] else []
  | Eol m =>
      if isEmpty s || (m && atTerminator s) then [(prev, s)] else []
  | WordB =>
      if xorb (atWord prev) (atWord s) then [(prev, s)] else []
  | NotAt l =>
      if startsWithAny l s then [] else [(prev, s)]
  end.

Definition matchesAt (r : regex) (prev : string) (s : string) : bool :=
  match run r prev s with [] => false | _ :: _ => true end.

Fixpoint search (r : regex) (prev : string) (s : string) : bool :=
  matchesAt r prev s ||
  match s with
  | String c s' => search r (String c prev) s'
  | EmptyString => false
  end.

(** [r.test(s)] for a pattern without the [g] flag. *)
Definition test (r : regex) (s : string) : bool := search r EmptyString s.

(** *** Pattern syntax *)

Fixpoint lit (s : string) : regex :=
  match s with
  | EmptyString => Eps
  | String c s' => Cat (Chr (Ascii.eqb c)) (lit s')
  end.

(** A literal under the [i] flag. *)
Fixpoint litI (s : string) : regex :=
  match s with
  | EmptyString => Eps
  | String c s' =>
      Cat (Chr (fun x => Ascii.eqb (toLower x) (toLower c))) (litI s')
  end.

Fixpoint seqs (rs : list regex) : regex :=
  match rs with
  | [] => Eps
  | [r] => r
  | r :: rs' => Cat r (seqs rs')
  end.

Fixpoint alts (rs : list regex) : regex :=
  match rs with
  | [] => Chr (fun _ => false)
  | [r] => r
  | r :: rs' => Alt r (alts rs')
  end.

Definition opt (r : regex) : regex := Alt r Eps.
Definition plus (r : regex) : regex := Cat r (Star r).
Definition lazyPlus (r : regex) : regex := Cat r (LazyStar r).

(** [.]: one byte of a character that is not a line terminator.  In the
    patterns of the sources every [.] is repeated without a bound and is
    followed by a letter, a blank or the end of a line, so that going
    through a character byte by byte ends where going through it by code
    units does. *)
Definition dot : regex := Cat (NotAt Js.lineTerminators) (Chr (fun _ => true)).
(** [\s] *)
Definition ws : regex := alts (map lit Js.whiteSpaces).
(** [\w] *)
Definition word : regex := Chr isWord.

Fixpoint mem (c : ascii) (s : string) : bool :=
  match s with
  | EmptyString => false
  | String d s' => Ascii.eqb c d || mem c s'
  end.

(** A character class [[...]] listing its members. *)
Definition oneOf (s : string) : regex := Chr (fun c => mem c s).
Definition oneOfI (s : string) : regex := Chr (fun c => mem (toLower c) s).

End Regex.

(* ------------------------------------------------------------------ *)
(** ** Process state *)

(** [interface CacheEntry] of [utils/cache.ts]. *)
Module Entry.
Record t : Type := mk {
  hash : string;
  intent : string;
  message : string;
  timestamp : Z;
  folder : string
}.
End Entry.

(** The objects the pipeline returns.  [interface CommitSuggestion]
    declares [intent] and [message]; the object built by
    [CommitCache.get] has a third property, [folder].  An absent property
    is [None]. *)
Module Suggestion.
Record t : Type := mk {
  intent : string;
  message : string;
  folder : option string
}.
End Suggestion.

(** A [Map<string, CacheEntry>]: keys in insertion order; setting a key
    that is present replaces its value in place. *)
Module JsMap.

Definition t : Type := list (string * Entry.t).

Definition empty : t := [].

Fixpoint get (k : string) (m : t) : option Entry.t :=
  match m with
  | [] => None
  | (k', v) :: r => if String.eqb k k' then Some v else get k r
  end.

Fixpoint set (k : string) (v : Entry.t) (m : t) : t :=
  match m with
  | [] => [(k, v)]
  | (k', v') :: r =>
      if String.eqb k k' then (k', v) :: r else (k', v') :: set k v r
  end.

Definition delete (k : string) (m : t) : t :=
  filter (fun kv => negb (String.eqb k (fst kv))) m.

Definition values (m : t) : list Entry.t := map snd m.

Definition size (m : t) : nat := List.length m.

End JsMap.

Module Sys.

(** The cache file [~/.commitect/cache.json]: absent, present but not
    readable as a JSON array of entries, or holding entries. *)
Inductive FileState : Type :=
| Missing
| Unreadable
| Entries (es : list Entry.t).

Record World : Type := mkWorld {
  cache : JsMap.t;          (* CommitCache.cache of the singleton *)
  file : FileState;         (* CACHE_FILE *)
  writable : bool;          (* whether mkdirSync/writeFileSync succeed *)
  clock : Z;                (* what Date.now() reads *)
  cwd : string;             (* basename(process.cwd()) *)
  posts : nat;              (* requests sent to API_ENDPOINT so far *)
  delays : list Z;          (* arguments of the sleep calls, latest first *)
  console : list string     (* console.warn lines, latest first *)
}.

Definition withCache (m : JsMap.t) (w : World) : World :=
  mkWorld m (file w) (writable w) (clock w) (cwd w) (posts w) (delays w) (console w).

Definition withFile (f : FileState) (w : World) : World :=
  mkWorld (cache w) f (writable w) (clock w) (cwd w) (posts w) (delays w) (console w).

Definition withClock (t : Z) (w : World) : World :=
  mkWorld (cache w) (file w) (writable w) t (cwd w) (posts w) (delays w) (console w).

(** [console.warn(line)] *)
Definition warn (line : string) (w : World) : World :=
  mkWorld (cache w) (file w) (writable w) (clock w) (cwd w) (posts w) (delays w)
          (line :: console w).

(** [await sleep(ms)]: the clock moves on by [ms]. *)
Definition sleep (ms : Z) (w : World) : World :=
  mkWorld (cache w) (file w) (writable w) (clock w + ms) (cwd w) (posts w)
          (ms :: delays w) (console w).

(** What one request to the endpoint comes back with. *)
Inductive Failure : Type :=
| AxiosError (status : option Z) (code : option string)
    (* error.response?.status, error.code *)
| OtherError (msg : string).

Inductive Reply : Type :=
| Response (data : option (option string))
    (* response.data, and its property intent *)
| Rejected (e : Failure).

(** The remote service: the reply to the [n]-th request (counted from 0
    over the life of the process) for a given body, and the time it
    took. *)
Definition Remote : Type := nat -> string -> Reply * Z.

(** [await axios.post(API_ENDPOINT, { diff }, ...)] *)
Definition axiosPost (remote : Remote) (diff : string) (w : World) : Reply * World :=
  let '(reply, elapsed) := remote (posts w) diff in
  (reply,
   mkWorld (cache w) (file w) (writable w) (clock w + elapsed) (cwd w)
           (S (posts w)) (delays w) (console w)).

End Sys.

(* ------------------------------------------------------------------ *)
(** ** [class CommitCache] ([utils/cache.ts]) *)

Module CommitCache.
Import Sys.

Definition CACHE_MAX_AGE : Z := 30 * 24 * 60 * 60 * 1000.

Definition hashDiff (diff : string) : string :=
  Crypto.sha256_hex (Js.trim diff).

Definition getCurrentFolder (w : World) : string := cwd w.

(** The body of [entries.forEach] in [loadCache]. *)
Definition loadEntry (now : Z) (m : JsMap.t) (entry : Entry.t) : JsMap.t :=
  if now - Entry.timestamp entry <? CACHE_MAX_AGE
  then JsMap.set (Entry.hash entry) entry m
  else m.

(** [loadCache], run by the constructor on an empty map.  Any exception
    (unreadable file, bad JSON) ends in [this.cache.clear()]. *)
Definition loadCache (w : World) : World :=
  match file w with
  | Entries es => withCache (fold_left (loadEntry (clock w)) es JsMap.empty) w
  | Missing => withCache JsMap.empty w
  | Unreadable => withCache JsMap.empty w
  end.

(** [saveCache]: the whole map is written; a failing write is caught and
    only logged. *)
Definition saveCache (w : World) : World :=
  if writable w
  then withFile (Entries (JsMap.values (cache w))) w
  else warn "Warning: Failed to save cache" w.

Definition get (diff : string) (w : World) : option Suggestion.t * World :=
  let hash := hashDiff diff in
  match JsMap.get hash (cache w) with
  | None => (None, w)
  | Some entry =>
      let now := clock w in
      if now - Entry.timestamp entry >? CACHE_MAX_AGE
      then (None, saveCache (withCache (JsMap.delete hash (cache w)) w))
      else (Some (Suggestion.mk (Entry.intent entry) (Entry.message entry)
                                (Some (Entry.folder entry))), w)
  end.

Definition set (diff intent message : string) (w : World) : World :=
  let hash := hashDiff diff in
  saveCache
    (withCache
       (JsMap.set hash (Entry.mk hash intent message (clock w) (getCurrentFolder w))
                  (cache w)) w).

Definition clear (w : World) : World :=
  saveCache (withCache JsMap.empty w).

Definition minTimestamp (es : list Entry.t) : option Z :=
  match es with
  | [] => None
  | e :: r => Some (fold_left Z.min (map Entry.timestamp r) (Entry.timestamp e))
  end.

Record Stats : Type := mkStats { size : nat; oldestEntry : option Z }.

Definition getStats (w : World) : Stats :=
  let entries := JsMap.values (cache w) in
  mkStats (JsMap.size (cache w)) (minTimestamp entries).

(** [entries.sort((a, b) => b.timestamp - a.timestamp)]: a stable sort,
    larger timestamps first. *)
Fixpoint insertByRecency (e : Entry.t) (l : list Entry.t) : list Entry.t :=
  match l with
  | [] => [e]
  | x :: r =>
      if Entry.timestamp x <=? Entry.timestamp e
      then e :: x :: r
      else x :: insertByRecency e r
  end.

Definition sortByRecency (l : list Entry.t) : list Entry.t :=
  fold_right insertByRecency [] l.

Definition getHistory (w : World) : list Entry.t :=
  sortByRecency (JsMap.values (cache w)).

Definition getHistoryByFolder (folder : string) (w : World) : list Entry.t :=
  sortByRecency
    (filter (fun entry => String.eqb (Entry.folder entry) folder)
            (JsMap.values (cache w))).

End CommitCache.

(* ------------------------------------------------------------------ *)
(** ** [clearCacheCommand] ([commands/clear-cache.ts]) *)

Module ClearCache.
Import Sys.

(** The line the command prints. *)
Inductive Printed : Type :=
| AlreadyEmpty                (* "Cache is already empty" *)
| Cleared (removed : nat).    (* "Cache cleared (n entries removed)" *)

Definition clearCacheCommand (w : World) : Printed * World :=
  let stats := CommitCache.getStats w in
  if (CommitCache.size stats =? 0)%nat
  then (AlreadyEmpty, w)
  else (Cleared (CommitCache.size stats), CommitCache.clear w).

End ClearCache.

(* ------------------------------------------------------------------ *)
(** ** The heuristic classifier ([services/llm.ts]) *)

Module Heuristic.
Import Regex.

Record DiffAnalysis : Type := mkAnalysis {
  hasBugFix : bool;
  hasTestFix : bool;
  hasNewFunction : bool;
  hasNewClass : bool;
  hasNewEndpoint : bool;
  hasNewComponent : bool;
  hasRefactor : bool;
  hasRename : bool;
  hasMovedCode : bool;
  hasDocsChange : bool;
  hasCommentChange : bool;
  hasTestChange : bool;
  hasDeletions : bool;
  hasStyleChange : bool;
  hasWhitespaceOnly : bool;
  hasConfigChange : bool;
  hasDependencyChange : bool;
  additions : Z;
  deletions : Z;
  hasChanges : bool
}.

(** [interface ChangeSummary]; an absent property is [None]. *)
Record ChangeSummary : Type := mkSummary {
  total : option Js.number;
  renamed : option Js.number
}.

(** The default [summary = {}]. *)
Definition noSummary : ChangeSummary := mkSummary None None.

(** *** [extractFilesFromDiff] *)

(** One attempt of [/^diff --git a\/(.+?) b\/(.+)$/gm] at a position:
    the second group and the position after the match. *)
Definition matchHeader (prev : string) (s : string) : option (string * Cfg) :=
  let upToGroup2 :=
    seqs [Bol true; lit "diff --git a/"; lazyPlus dot; lit " b/"] in
  let ends :=
    flat_map
      (fun c1 : Cfg =>
         flat_map
           (fun c2 : Cfg =>
              map (fun _ : Cfg =>
                     (Js.take (String.length (snd c1) - String.length (snd c2)) (snd c1),
                      c2))
                  (run (Eol true) (fst c2) (snd c2)))
           (run (plus dot) (fst c1) (snd c1)))
      (run upToGroup2 prev s) in
  match ends with
  | [] => None
  | m :: _ => Some m
  end.

(** The [while ((match = regex.exec(diff)))] loop: successive matches,
    each searched from where the last one ended.  [skip] is the distance
    from the current position to [regex.lastIndex]. *)
Fixpoint execAll (prev : string) (s : string) (skip : nat) : list string :=
  match skip, s with
  | S k, String c r => execAll (String c prev) r k
  | S _, EmptyString => []
  | O, _ =>
      match matchHeader prev s with
      | Some (g2, after) =>
          g2 :: match s with
                | String c r =>
                    execAll (String c prev) r (String.length r - String.length (snd after))
                | EmptyString => []
                end
      | None =>
          match s with
          | String c r => execAll (String c prev) r 0
          | EmptyString => []
          end
      end
  end.

Fixpoint inList (x : string) (l : list string) : bool :=
  match l with
  | [] => false
  | y :: r => String.eqb x y || inList x r
  end.

(** [files.add(x)] on a [Set] kept in insertion order. *)
Definition setAdd (files : list string) (x : string) : list string :=
  if inList x files then files else (files ++ [x])%list.

Definition extractFilesFromDiff (diff : string) : list string :=
  fold_left setAdd (execAll EmptyString diff 0) [].

(** *** [isTrivialWhitespace] *)

(** [/^[+-]\s*$/] *)
Definition reBlank : regex :=
  seqs [Bol false; oneOf "+-"; Star ws; Eol false].

(** [/^[+-]\s*[{}();,]*\s*$/] *)
Definition rePunctuation : regex :=
  seqs [Bol false; oneOf "+-"; Star ws; Star (oneOf "{}();,"); Star ws; Eol false].

Definition isTrivialWhitespace (lines : list string) : bool :=
  forallb (fun l => test reBlank l || test rePunctuation l) lines.

(** *** The patterns of [analyzeDiff]

    Each pattern is quoted from the source above its definition; where
    the quotation would otherwise close the comment, a blank is put
    between a star and the closing parenthesis. *)

(** [/\b(fix(e[ds])?|bug|error|issue|crash|incorrect|fault)\b/i] *)
Definition reBugFix : regex :=
  seqs [WordB;
        alts [Cat (litI "fix") (opt (Cat (litI "e") (oneOfI "ds")));
              litI "bug"; litI "error"; litI "issue"; litI "crash";
              litI "incorrect"; litI "fault"];
        WordB].

(** [/\b(fix|repair|correct).*(test|spec)\b/i] *)
Definition reTestFix : regex :=
  seqs [WordB; alts [litI "fix"; litI "repair"; litI "correct"];
        Star dot; alts [litI "test"; litI "spec"]; WordB].

(** [/\b(refactor|cleanup|simplify|restructure|reorganize)\b/i] *)
Definition reRefactor : regex :=
  seqs [WordB;
        alts [litI "refactor"; litI "cleanup"; litI "simplify";
              litI "restructure"; litI "reorganize"];
        WordB].

(** [/\b(format|lint|prettier|indent)\b/i] *)
Definition reStyle : regex :=
  seqs [WordB; alts [litI "format"; litI "lint"; litI "prettier"; litI "indent"];
        WordB].

(** [/\.(md|rst|txt)$/i] and [/readme/i] *)
Definition reDocExt : regex :=
  seqs [lit "."; alts [litI "md"; litI "rst"; litI "txt"]; Eol false].
Definition reReadme : regex := litI "readme".

(** [/(__tests__|\.test\.|\.spec\.)/i] *)
Definition reTestFile : regex :=
  alts [litI "__tests__"; litI ".test."; litI ".spec."].

(** [/\.(json|ya?ml|env|toml)$/i] *)
Definition reConfig : regex :=
  seqs [lit ".";
        alts [litI "json"; seqs [litI "y"; opt (litI "a"); litI "ml"];
              litI "env"; litI "toml"];
        Eol false].

(** [/(package(-lock)?\.json|requirements\.txt|go\.mod|pom\.xml)/i] *)
Definition reDependency : regex :=
  alts [seqs [litI "package"; opt (litI "-lock"); litI ".json"];
        litI "requirements.txt"; litI "go.mod"; litI "pom.xml"].

(** [/^\+\s*(export\s+)?(async\s+)?function\s+\w+/] *)
Definition reFunction : regex :=
  seqs [Bol false; lit "+"; Star ws;
        opt (Cat (lit "export") (plus ws));
        opt (Cat (lit "async") (plus ws));
        lit "function"; plus ws; plus word].

(** [/^\+\s*(export\s+)?const\s+\w+\s*=\s*(async\s* )?\(/] *)
Definition reArrow : regex :=
  seqs [Bol false; lit "+"; Star ws;
        opt (Cat (lit "export") (plus ws));
        lit "const"; plus ws; plus word; Star ws; lit "="; Star ws;
        opt (Cat (lit "async") (Star ws)); lit "("].

(** [/^\+\s*(export\s+)?class\s+\w+/] *)
Definition reClass : regex :=
  seqs [Bol false; lit "+"; Star ws;
        opt (Cat (lit "export") (plus ws));
        lit "class"; plus ws; plus word].

(** [/\b(app|router)\.(get|post|put|delete|patch)\b/i] *)
Definition reRoute : regex :=
  seqs [WordB; alts [litI "app"; litI "router"]; lit ".";
        alts [litI "get"; litI "post"; litI "put"; litI "delete"; litI "patch"];
        WordB].

(** [/^\+\s*@(Get|Post|Put|Delete|Patch)\b/m] *)
Definition reDecorator : regex :=
  seqs [Bol true; lit "+"; Star ws; lit "@";
        alts [lit "Get"; lit "Post"; lit "Put"; lit "Delete"; lit "Patch"];
        WordB].

(** [/\.(jsx|tsx)$/i] *)
Definition reComponentFile : regex :=
  seqs [lit "."; alts [litI "jsx"; litI "tsx"]; Eol false].

(** [/^\+\s*(export\s+)?(function|const)\s+[A-Z]\w*/] *)
Definition reComponent : regex :=
  seqs [Bol false; lit "+"; Star ws;
        opt (Cat (lit "export") (plus ws));
        alts [lit "function"; lit "const"]; plus ws; Chr isUpper; Star word].

(** [/^\+\s*(\/\/|\/\*|\* )/] *)
Definition reComment : regex :=
  seqs [Bol false; lit "+"; Star ws; alts [lit "//"; lit "/*"; lit "*"]].

Definition matchesAny (patterns : list regex) (text : string) : bool :=
  existsb (fun p => test p text) patterns.

(** [summary.renamed ?? 0] *)
Definition renamedOr0 (summary : ChangeSummary) : Js.number :=
  match renamed summary with Some n => n | None => Js.zero end.

Definition analyzeDiff (diff : string) (summary : ChangeSummary) : DiffAnalysis :=
  let lines := Js.split Js.LF diff in
  let files := extractFilesFromDiff diff in
  let addedLines :=
    filter (fun l => Js.startsWith "+" l && negb (Js.startsWith "+++" l)) lines in
  let removedLines :=
    filter (fun l => Js.startsWith "-" l && negb (Js.startsWith "---" l)) lines in
  let additions := Z.of_nat (List.length addedLines) in
  let deletions := Z.of_nat (List.length removedLines) in
  let hasDocsChange :=
    existsb (fun f => test reDocExt f || test reReadme f) files in
  let hasTestChange := existsb (test reTestFile) files in
  let hasConfigChange := existsb (test reConfig) files in
  let hasDependencyChange := existsb (test reDependency) files in
  let hasNewFunction :=
    existsb (fun l => test reFunction l || test reArrow l) addedLines in
  let hasNewClass := existsb (test reClass) addedLines in
  let hasNewEndpoint :=
    existsb (test reRoute) addedLines || test reDecorator diff in
  let hasNewComponent :=
    existsb (test reComponentFile) files && existsb (test reComponent) addedLines in
  let hasWhitespaceOnly :=
    (additions + deletions >? 0)
    && isTrivialWhitespace (addedLines ++ removedLines)%list in
  {| hasBugFix := matchesAny [reBugFix] diff;
     hasTestFix := hasTestChange && matchesAny [reTestFix] diff;
     hasNewFunction := hasNewFunction;
     hasNewClass := hasNewClass;
     hasNewEndpoint := hasNewEndpoint;
     hasNewComponent := hasNewComponent;
     hasRefactor := matchesAny [reRefactor] diff;
     hasRename := Js.gt0 (renamedOr0 summary);
     hasMovedCode :=
       Js.gt0 (renamedOr0 summary) && (additions >? 0) && (deletions >? 0);
     hasDocsChange := hasDocsChange;
     hasCommentChange := existsb (test reComment) addedLines;
     hasTestChange := hasTestChange;
     hasDeletions := deletions >? 0;
     hasStyleChange := matchesAny [reStyle] diff;
     hasWhitespaceOnly := hasWhitespaceOnly;
     hasConfigChange := hasConfigChange;
     hasDependencyChange := hasDependencyChange;
     additions := additions;
     deletions := deletions;
     hasChanges := additions + deletions >? 0 |}.

(** *** [determineIntent] *)

Definition determineIntent (analysis : DiffAnalysis) (summary : ChangeSummary) : string :=
  if negb (hasChanges analysis) then "Chore"
  else if hasBugFix analysis || hasTestFix analysis then "Bug Fix"
  else if hasTestChange analysis && negb (hasBugFix analysis) then "Test"
  else if hasDocsChange analysis then "Documentation"
  else if hasRefactor analysis
          || hasMovedCode analysis
          || (deletions analysis >? additions analysis * 2)
       then "Refactor"
  else if hasNewFunction analysis
          || hasNewClass analysis
          || hasNewComponent analysis
          || hasNewEndpoint analysis
       then "Feature"
  else if hasDependencyChange analysis || hasConfigChange analysis then "Chore"
  else if hasStyleChange analysis || hasWhitespaceOnly analysis then "Style"
  else "Update".

(** *** [generateMessage] *)

(** A template [`${prefix}${fileCount} ${fileWord}`]. *)
Definition counted (prefix : string) (fileCount : Js.number) (fileWord : string)
  : string :=
  prefix ++ Js.numberToString fileCount ++ " " ++ fileWord.

Definition generateMessage (analysis : DiffAnalysis) (intent : string)
    (summary : ChangeSummary) : string :=
  let fileCount := total summary in
  let hasFileCount :=
    match fileCount with Some n => Js.gt0 n | None => false end in
  let n := match fileCount with Some n => n | None => Js.zero end in
  let fileWord := if Js.is1 n then "file" else "files" in
  if String.eqb intent "Bug Fix" then
    if hasTestFix analysis
    then if hasFileCount then counted "fix failing tests in " n fileWord
         else "fix failing tests"
    else if hasFileCount then counted "fix issues in " n fileWord
         else "fix issues"
  else if String.eqb intent "Feature" then
    if hasNewEndpoint analysis then "add new API endpoints"
    else if hasNewComponent analysis then "add new components"
    else if hasNewClass analysis || hasNewFunction analysis
    then if hasFileCount then counted "add new functionality to " n fileWord
         else "add new functionality"
    else if hasFileCount then counted "implement new features in " n fileWord
         else "implement new features"
  else if String.eqb intent "Refactor" then
    if hasMovedCode analysis
    then if hasFileCount then counted "restructure code in " n fileWord
         else "restructure code"
    else if deletions analysis >? additions analysis * 2
    then if hasFileCount then counted "remove unused code from " n fileWord
         else "remove unused code"
    else if hasFileCount then counted "refactor code in " n fileWord
         else "refactor code"
  else if String.eqb intent "Test" then
    if hasFileCount then counted "add/update tests in " n fileWord
    else "add/update tests"
  else if String.eqb intent "Chore" then
    if hasDependencyChange analysis then "update dependencies"
    else if hasConfigChange analysis then "update configuration files"
    else "update project configuration"
  else if String.eqb intent "Style" then
    if hasFileCount then counted "format and style " n fileWord
    else "format and style code"
  else if String.eqb intent "Documentation" then
    if hasFileCount
    then if Js.is1 n then "update documentation"
         else counted "update documentation in " n fileWord
    else "update documentation"
  else
    if hasFileCount then counted "update " n fileWord
    else "update code".

End Heuristic.

(* ------------------------------------------------------------------ *)
(** ** The remote classifier and the orchestration ([services/llm.ts]) *)

Module Llm.
Import Sys.

(** What a [try] block ends with. *)
Inductive Try (A : Type) : Type :=
| Ok (a : A)
| Throw (error : Failure).
Arguments Ok {A} a.
Arguments Throw {A} error.

(** How a call of an [async] function settles. *)
Inductive Completion : Type :=
| Returned (result : Suggestion.t)
| Raised (msg : string).

(** *** [parseResponse] *)

(** The body of the [for (const line of lines)] loop, on the pair of
    variables [intent], [message]. *)
Definition parseLine (acc : string * string) (line : string) : string * string :=
  if Js.startsWith "Intent:" line
  then (Js.trim (Js.replace "Intent:" "" line), snd acc)
  else if Js.startsWith "Message:" line
  then (fst acc, Js.trim (Js.replace "Message:" "" line))
  else acc.

Definition parseResponse (response : string) : Try Suggestion.t :=
  let lines := Js.split Js.LF (Js.trim response) in
  let '(intent, message) := fold_left parseLine lines ("", "") in
  if negb (Js.truthy intent) || negb (Js.truthy message)
  then Throw (OtherError "Invalid response format from LLM")
  else
    let message :=
      if (70 <? Js.length message)%nat
      then Js.substring0 67 message ++ "..."
      else message in
    Ok (Suggestion.mk intent message None).

(** *** [generateFallbackCommit] *)

Definition generateFallbackCommit (diff : string)
    (summary : option Heuristic.ChangeSummary) (w : World) : Suggestion.t * World :=
  let diffHash := Crypto.sha1_hex diff in
  let summary :=
    match summary with Some s => s | None => Heuristic.noSummary end in
  let analysis := Heuristic.analyzeDiff diff summary in
  let intent := Heuristic.determineIntent analysis summary in
  let message := Heuristic.generateMessage analysis intent summary in
  (Suggestion.mk intent message None, CommitCache.set diffHash intent message w).

(** *** [generateCommitMessage] *)

Definition maxRetries : nat := 3.

(** [500 * Math.pow(2, attempt)] *)
Definition backoff (attempt : nat) : Z := 500 * 2 ^ Z.of_nat attempt.

(** The [try] block of one iteration. *)
Definition tryBlock (remote : Remote) (diffHash diff : string) (w : World)
  : Try Suggestion.t * World :=
  let '(reply, w1) := axiosPost remote diff w in
  match reply with
  | Rejected error => (Throw error, w1)
  | Response data =>
      let payload :=
        match data with
        | Some (Some txt) => if Js.truthy txt then Some txt else None
        | _ => None
        end in
      match payload with
      | None => (Throw (OtherError "Invalid response format from API"), w1)
      | Some txt =>
          match parseResponse txt with
          | Throw error => (Throw error, w1)
          | Ok result =>
              (Ok result,
               CommitCache.set diffHash (Suggestion.intent result)
                               (Suggestion.message result) w1)
          end
      end
  end.

(** How the [catch] block leaves the iteration. *)
Inductive Handled : Type :=
| Continue (ms : Z)   (* await sleep(ms); continue *)
| Break
| EndOfBody.          (* the block runs to its end *)

Definition isAxiosError (error : Failure) : bool :=
  match error with AxiosError _ _ => true | OtherError _ => false end.

(** A test on [error.response?.status]; an absent status fails it. *)
Definition statusIs (p : Z -> bool) (error : Failure) : bool :=
  match error with
  | AxiosError (Some s) _ => p s
  | _ => false
  end.

Definition codeIs (c : string) (error : Failure) : bool :=
  match error with
  | AxiosError _ (Some c') => String.eqb c' c
  | _ => false
  end.

Definition catchBlock (attempt : nat) (error : Failure) : Handled :=
  let retry : option Handled :=
    if (attempt <? maxRetries)%nat then Some (Continue (backoff attempt)) else None in
  let axiosPart : option Handled :=
    if isAxiosError error then
      if statusIs (Z.eqb 429) error
      then Some (match retry with Some h => h | None => Break end)
      else
        match (if statusIs (fun s => negb (s =? 0) && (s >=? 500)) error
               then retry else None) with
        | Some h => Some h
        | None =>
            if codeIs "ECONNREFUSED" error || codeIs "ETIMEDOUT" error
            then retry else None
        end
    else None in
  match axiosPart with
  | Some h => h
  | None =>
      if isAxiosError error
         && statusIs (fun s => negb (s =? 0) && (s <? 500) && negb (s =? 429)) error
      then Break
      else match retry with Some h => h | None => EndOfBody end
  end.

(** The [for (let attempt = 1; attempt <= maxRetries; attempt++)] loop,
    by the number [left] of iterations that remain; [None] when the loop
    is left without a [return]. *)
Fixpoint attempts (remote : Remote) (diffHash diff : string) (left : nat) (w : World)
  : option Suggestion.t * World :=
  match left with
  | O => (None, w)
  | S left' =>
      let attempt := (S maxRetries - left)%nat in
      let '(outcome, w1) := tryBlock remote diffHash diff w in
      match outcome with
      | Ok result => (Some result, w1)
      | Throw error =>
          match catchBlock attempt error with
          | Continue ms => attempts remote diffHash diff left' (sleep ms w1)
          | Break => (None, w1)
          | EndOfBody => attempts remote diffHash diff left' w1
          end
      end
  end.

(** The line of [console.warn], without its leading warning sign. *)
Definition unavailable : string :=
  "AI service unavailable, using fallback commit message.".

Definition generateCommitMessage (remote : Remote) (diff : string)
    (summary : option Heuristic.ChangeSummary) (w : World) : Completion * World :=
  let diffHash := Crypto.sha1_hex diff in
  let '(cached, w1) := CommitCache.get diffHash w in
  match cached with
  | Some hit => (Returned hit, w1)
  | None =>
      let '(found, w2) := attempts remote diffHash diff maxRetries w1 in
      match found with
      | Some result => (Returned result, w2)
      | None =>
          let '(result, w3) := generateFallbackCommit diff summary (warn unavailable w2) in
          (Returned result, w3)
      end
  end.

End Llm.

(* ------------------------------------------------------------------ *)
(** ** The other revision of [services/llm.ts]

    The repository also holds a revision of [generateCommitMessage] that
    has no fallback classifier: it passes the diff itself to the cache,
    waits [1000 * attempt] between attempts and ends in a [throw]. *)

Module LlmThrowing.
Import Sys.

Inductive Handled : Type :=
| Continue (ms : Z)
| Break
| EndOfBody
| Rethrow (msg : string).   (* throw new Error(msg) inside the catch block *)

Definition maxRetries : nat := 3.

Definition catchBlock (attempt : nat) (error : Failure) : Handled :=
  let retry : option Handled :=
    if (attempt <? maxRetries)%nat
    then Some (Continue (1000 * Z.of_nat attempt)) else None in
  let axiosPart : option Handled :=
    if Llm.isAxiosError error then
      if Llm.statusIs (Z.eqb 429) error
      then Some (match retry with
                 | Some h => h
                 | None => Rethrow "API rate limit reached. Please try again later."
                 end)
      else
        match (if Llm.statusIs (fun s => negb (s =? 0) && (s >=? 500)) error
               then retry else None) with
        | Some h => Some h
        | None =>
            if Llm.codeIs "ECONNREFUSED" error || Llm.codeIs "ETIMEDOUT" error
            then Some (match retry with
                       | Some h => h
                       | None =>
                           Rethrow "Unable to connect to API. Please check your network connection."
                       end)
            else None
        end
    else None in
  match axiosPart with
  | Some h => h
  | None =>
      if Llm.isAxiosError error
         && Llm.statusIs (fun s => negb (s =? 0) && (s <? 500) && negb (s =? 429)) error
      then Break
      else match retry with Some h => h | None => EndOfBody end
  end.

(** [Some]: the loop returned or threw; [None]: it was left normally. *)
Fixpoint attempts (remote : Remote) (diff : string) (left : nat) (w : World)
  : option Llm.Completion * World :=
  match left with
  | O => (None, w)
  | S left' =>
      let attempt := (S maxRetries - left)%nat in
      let '(outcome, w1) := Llm.tryBlock remote diff diff w in
      match outcome with
      | Llm.Ok result => (Some (Llm.Returned result), w1)
      | Llm.Throw error =>
          match catchBlock attempt error with
          | Continue ms => attempts remote diff left' (sleep ms w1)
          | Break => (None, w1)
          | EndOfBody => attempts remote diff left' w1
          | Rethrow msg => (Some (Llm.Raised msg), w1)
          end
      end
  end.

Definition generateCommitMessage (remote : Remote) (diff : string) (w : World)
  : Llm.Completion * World :=
  let '(cached, w1) := CommitCache.get diff w in
  match cached with
  | Some hit => (Llm.Returned hit, w1)
  | None =>
      let '(settled, w2) := attempts remote diff maxRetries w1 in
      match settled with
      | Some c => (c, w2)
      | None =>
          (Llm.Raised "Failed to generate commit message. Please check your API configuration.",
           w2)
      end
  end.

End LlmThrowing.

(* ------------------------------------------------------------------ *)
(** ** Vocabulary of the specification

    The notions the properties below are stated with.  Nothing here is
    code of the repository. *)

Module Spec.
Import Sys.

(** A string is clean when it holds visible ASCII characters only, and
    so no white space. *)
Definition visible (c : ascii) : bool :=
  (32 <? N_of_ascii c)%N && (N_of_ascii c <? 127)%N.

Fixpoint clean (s : string) : bool :=
  match s with
  | EmptyString => true
  | String c r => visible c && clean r
  end.

(** A visible character occurs in the string. *)
Fixpoint hasVisible (s : string) : bool :=
  match s with
  | EmptyString => false
  | String c r => visible c || hasVisible r
  end.

(** A string of ASCII characters only: one byte and one code unit
    each. *)
Fixpoint ascii7 (s : string) : bool :=
  match s with
  | EmptyString => true
  | String c r => (N_of_ascii c <? 128)%N && ascii7 r
  end.

(** Every entry sits under its own [hash]: the shape of every map that
    [loadCache] builds and [set] extends. *)
Definition wellKeyed (m : JsMap.t) : Prop :=
  forall k e, In (k, e) m -> Entry.hash e = k.

(** The age of an entry, as [get] computes it. *)
Definition age (w : World) (e : Entry.t) : Z := clock w - Entry.timestamp e.

(** The key under which [generateCommitMessage] looks a diff up and
    stores its result. *)
Definition pipelineKey (diff : string) : string :=
  CommitCache.hashDiff (Crypto.sha1_hex diff).

(** A reply that makes the [try] block throw: a rejected request, a
    response without a usable [intent] property, or a payload that
    [parseResponse] refuses. *)
Definition replyFails (reply : Reply) : bool :=
  match reply with
  | Rejected _ => true
  | Response (Some (Some txt)) =>
      negb (Js.truthy txt)
      || match Llm.parseResponse txt with
         | Llm.Throw _ => true
         | Llm.Ok _ => false
         end
  | Response _ => true
  end.

Definition networkCode (code : option string) : bool :=
  match code with
  | Some c => String.eqb c "ECONNREFUSED" || String.eqb c "ETIMEDOUT"
  | None => false
  end.

(** The failures the specification calls retryable: HTTP 429, HTTP 5xx
    and the recognized network failures. *)
Definition retryableBySpec (error : Failure) : bool :=
  match error with
  | AxiosError status code =>
      match status with
      | Some s => (s =? 429) || ((500 <=? s) && (s <=? 599))
      | None => false
      end
      || networkCode code
  | OtherError _ => false
  end.

(** The failures after which the code makes no further attempt: an HTTP
    error with a status that is not 0, below 500 and not 429 (and whose
    code is not one of the two network codes, as is the case of every
    error that carries a response). *)
Definition terminal (error : Failure) : bool :=
  match error with
  | AxiosError (Some s) code =>
      negb (s =? 0) && (s <? 500) && negb (s =? 429) && negb (networkCode code)
  | _ => false
  end.

(** The closed enumeration of intents, and the label the code uses for
    each. *)
Inductive IntentCategory : Type :=
| BugFix | Feature | Refactor | Test | Documentation | Style | Chore | Update.

Definition label (c : IntentCategory) : string :=
  match c with
  | BugFix => "Bug Fix"
  | Feature => "Feature"
  | Refactor => "Refactor"
  | Test => "Test"
  | Documentation => "Documentation"
  | Style => "Style"
  | Chore => "Chore"
  | Update => "Update"
  end.

(** The precedence of the decision stage, as the specification lists it:
    a guard and the category it selects, first match wins. *)
Definition precedence (v : Heuristic.DiffAnalysis) : list (bool * IntentCategory) :=
  let open := Heuristic.hasChanges v in
  [ (negb open, Chore);
    (Heuristic.hasBugFix v || Heuristic.hasTestFix v, BugFix);
    (Heuristic.hasTestChange v, Test);
    (Heuristic.hasDocsChange v, Documentation);
    (Heuristic.hasRefactor v || Heuristic.hasMovedCode v
     || (2 * Heuristic.additions v <? Heuristic.deletions v), Refactor);
    (Heuristic.hasNewFunction v || Heuristic.hasNewClass v
     || Heuristic.hasNewComponent v || Heuristic.hasNewEndpoint v, Feature);
    (Heuristic.hasDependencyChange v || Heuristic.hasConfigChange v, Chore);
    (Heuristic.hasStyleChange v || Heuristic.hasWhitespaceOnly v, Style) ].

Fixpoint firstMatch (rules : list (bool * IntentCategory)) (otherwise : IntentCategory)
  : IntentCategory :=
  match rules with
  | [] => otherwise
  | (guard, c) :: rest => if guard then c else firstMatch rest otherwise
  end.

Definition decision (v : Heuristic.DiffAnalysis) : IntentCategory :=
  firstMatch (precedence v) Update.

(** An object seen at [interface CommitSuggestion]: its [intent] and its
    [message]. *)
Definition asCommitSuggestion (r : Suggestion.t) : string * string :=
  (Suggestion.intent r, Suggestion.message r).

(** At time [t], the entry cached for a diff is within its 30-day
    window. *)
Definition withinTTL (t : Z) (diff : string) (w : World) : bool :=
  match JsMap.get (pipelineKey diff) (cache w) with
  | Some e => t - Entry.timestamp e <=? CommitCache.CACHE_MAX_AGE
  | None => false
  end.

(** Every cached message fits in 70 characters. *)
Definition shortMessages (m : JsMap.t) : Prop :=
  forall k e, In (k, e) m -> (Js.length (Entry.message e) <= 70)%nat.

(** Every entry of the cache file has a message of at most 70
    characters. *)
Definition shortFile (f : FileState) : Prop :=
  match f with
  | Entries es => forall e, In e es -> (Js.length (Entry.message e) <= 70)%nat
  | Missing => True
  | Unreadable => True
  end.

(** The messages are short in the cache and in the file. *)
Definition short (w : World) : Prop :=
  shortMessages (cache w) /\ shortFile (file w).

(** The file count of a summary, when it has one, is a number. *)
Definition countIsNumber (summary : option Heuristic.ChangeSummary) : Prop :=
  forall s n,
    summary = Some s -> Heuristic.total s = Some n -> Js.isNumber n = true.

(** The states of the pipeline when the cache file, if there is one, was
    written by the pipeline itself: those of a process that starts
    without a cache file, and from there after any calls of
    [generateCommitMessage] and of [clearCacheCommand], restarts of the
    process, and changes of what surrounds the cache (clock, folder,
    permissions, service). *)
Inductive produced : World -> Prop :=
| produced_start w :
    file w = Missing -> produced (CommitCache.loadCache w)
| produced_call remote diff summary w :
    countIsNumber summary -> produced w ->
    produced (snd (Llm.generateCommitMessage remote diff summary w))
| produced_clear w :
    produced w -> produced (snd (ClearCache.clearCacheCommand w))
| produced_restart w :
    produced w -> produced (CommitCache.loadCache w)
| produced_surroundings w w' :
    produced w -> cache w' = cache w -> file w' = file w -> produced w'.

(** Most recent first. *)
Definition newerFirst (a b : Entry.t) : Prop :=
  Entry.timestamp b <= Entry.timestamp a.

(** The number of removed entries that [clearCacheCommand] reports. *)
Definition reportedCount (p : ClearCache.Printed) : nat :=
  match p with
  | ClearCache.AlreadyEmpty => 0
  | ClearCache.Cleared n => n
  end.

End Spec.

(* ------------------------------------------------------------------ *)
(** ** Sample inputs

    Concrete states, replies and diffs on which the properties are
    exercised. *)

Module Sample.
Import Sys.

Definition day : Z := 24 * 60 * 60 * 1000.

(** A fresh process: nothing cached, no cache file yet. *)
Definition emptyWorld : World :=
  mkWorld JsMap.empty Missing true 1000 "proj" 0 [] [].

Definition newline : string := String Js.LF EmptyString.

Definition diff : string :=
  "diff --git a/src/sum.ts b/src/sum.ts" ++ newline
  ++ "--- a/src/sum.ts" ++ newline
  ++ "+++ b/src/sum.ts" ++ newline
  ++ "+export function sum(a, b) {" ++ newline
  ++ "+  return a + b;" ++ newline
  ++ "+}".

(** A service that answers every request with HTTP 500. *)
Definition failing500 : Remote :=
  fun _ _ => (Rejected (AxiosError (Some 500) None), 10).

(** A service that answers every request with HTTP 404. *)
Definition failing404 : Remote :=
  fun _ _ => (Rejected (AxiosError (Some 404) (Some "ERR_BAD_REQUEST")), 10).

Definition validPayload : string :=
  "Intent: Feature" ++ newline ++ "Message: Add sum helper".

(** A service whose first answer has no labels and whose later answers
    are well formed. *)
Definition malformedThenValid : Remote :=
  fun n _ =>
    if (n =? 0)%nat then (Response (Some (Some "no labels here")), 10)
    else (Response (Some (Some validPayload)), 10).

(** A well-formed answer whose message has 80 characters. *)
Definition longPayload : string :=
  "Intent: Feature" ++ newline ++ "Message: "
  ++ "0123456789012345678901234567890123456789"
  ++ "0123456789012345678901234567890123456789".

Definition threeFiles : Heuristic.ChangeSummary :=
  Heuristic.mkSummary (Some (Js.ofZ 3)) None.

(** A count that is printed with an exponent: 2^70 is
    1.1805916207174113e+21. *)
Definition manyFiles : Heuristic.ChangeSummary :=
  Heuristic.mkSummary (Some (Js.ofZ (2 ^ 70))) None.

(** A well-formed answer whose message has 40 characters in 80 bytes:
    forty times U+00E9. *)
Definition accents : string :=
  Eval vm_compute in
    "Intent: Docs" ++ newline ++ "Message: "
    ++ concat EmptyString (repeat (Js.utf8 233) 40).

Definition header : string :=
  "diff --git a/src/sum.ts b/src/sum.ts" ++ newline
  ++ "--- a/src/sum.ts" ++ newline
  ++ "+++ b/src/sum.ts" ++ newline.

(** Only blank and bracket lines change. *)
Definition whitespaceDiff : string :=
  header ++ "+   " ++ newline ++ "-" ++ newline ++ "+  });".

(** A change whose only vocabulary is about a fix. *)
Definition bugDiff : string :=
  header ++ "+  // fix the crash on empty input" ++ newline
  ++ "+  if (!a) return b;".

Definition oldEntry : Entry.t :=
  Entry.mk (CommitCache.hashDiff "old") "Chore" "update dependencies" 0 "proj".

(** A process started a millisecond before [oldEntry] turns 30 days old,
    looked at two milliseconds later. *)
Definition startedWorld : World :=
  CommitCache.loadCache
    (mkWorld JsMap.empty (Entries [oldEntry]) true
             (CommitCache.CACHE_MAX_AGE - 1) "proj" 0 [] []).

Definition laterWorld : World :=
  withClock (CommitCache.CACHE_MAX_AGE + 1) startedWorld.

(** A process whose disk cannot be written. *)
Definition readOnlyWorld : World :=
  mkWorld [(CommitCache.hashDiff "old", oldEntry)] (Entries [oldEntry]) false
          (CommitCache.CACHE_MAX_AGE + 1) "proj" 0 [] [].

End Sample.

(* ------------------------------------------------------------------ *)
(** ** [utils/git.ts] *)

Module Git.

Definition IGNORED_PATHS : list string :=
  ["node_modules/"; "bin/"; "obj/"; "dist/"; "build/"; ".git/"].

(** [s.split(sep)] for a separator of one character or more.  [skip] is
    the number of characters of a separator still to be passed. *)
Fixpoint splitBy (sep s : string) (skip : nat) : list string :=
  match s with
  | EmptyString => [EmptyString]
  | String c r =>
      match skip with
      | S k => splitBy sep r k
      | O =>
          if Js.startsWith sep s
          then EmptyString :: splitBy sep r (String.length sep - 1)
          else match splitBy sep r 0 with
               | h :: t => String c h :: t
               | [] => [String c EmptyString]
               end
      end
  end.

(** [lines.join(sep)] *)
Fixpoint join (sep : string) (lines : list string) : string :=
  match lines with
  | [] => EmptyString
  | [l] => l
  | l :: rest => l ++ sep ++ join sep rest
  end.

(** [IGNORED_PATHS.some(ignored => path?.startsWith(ignored))] for
    [path = line.split(' b/')[1]]. *)
Definition ignoredHeader (line : string) : bool :=
  match nth_error (splitBy " b/" line 0) 1 with
  | Some path => existsb (fun ignored => Js.startsWith ignored path) IGNORED_PATHS
  | None => false
  end.

(** The loop of [filterIgnoredPaths] over the lines, from a value of
    [skipFile]. *)
Fixpoint filterLines (skipFile : bool) (lines : list string) : list string :=
  match lines with
  | [] => []
  | line :: rest =>
      let skipFile :=
        if Js.startsWith "diff --git" line then ignoredHeader line else skipFile in
      if skipFile then filterLines skipFile rest
      else line :: filterLines skipFile rest
  end.

Definition filterIgnoredPaths (diff : string) : string :=
  join (String Js.LF EmptyString) (filterLines false (Js.split Js.LF diff)).

(** What the three [git] commands answer: whether [git rev-parse] succeeds,
    the output of [git status --porcelain] and of [git diff HEAD] ([None]
    when the command fails), and whether [git commit] succeeds. *)
Record Env : Type := mkEnv {
  insideRepository : bool;
  statusOutput : option string;
  diffOutput : option string;
  commitSucceeds : bool
}.

Definition isGitRepository (env : Env) : bool := insideRepository env.

(** [getGitDiff]: the filtered diff, or the message of the error thrown. *)
Definition getGitDiff (env : Env) : string + string :=
  match diffOutput env with
  | Some diff => inl (filterIgnoredPaths diff)
  | None => inr "Failed to read git diff"
  end.

Definition hasChanges (env : Env) : bool :=
  match statusOutput env with
  | Some status => (0 <? String.length (Js.trim status))%nat
  | None => false
  end.

Definition quote : ascii := ascii_of_nat 34.
Definition backslash : ascii := ascii_of_nat 92.

(** [message.replace(/"/g, '\\"')]: a backslash before every double
    quote. *)
Fixpoint escapeQuotes (message : string) : string :=
  match message with
  | EmptyString => EmptyString
  | String c r =>
      if Ascii.eqb c quote
      then String backslash (String quote (escapeQuotes r))
      else String c (escapeQuotes r)
  end.

(** The command line that [executeCommit] hands to the shell. *)
Definition commitCommandLine (message : string) : string :=
  "git commit -m " ++ String quote (escapeQuotes message ++ String quote EmptyString).

(** [executeCommit]: the command line run, and the message of the error
    thrown when it fails. *)
Definition executeCommit (env : Env) (message : string) : string * option string :=
  (commitCommandLine message,
   if commitSucceeds env then None else Some "Git commit failed").

End Git.

(* ------------------------------------------------------------------ *)
(** ** [getTimeAgo] ([commands/history.ts]) *)

Module History.

(** [`${n} ${unit}${n !== 1 ? 's' : ''} ago`], for the integer [n] that
    the divisions of [getTimeAgo] give. *)
Definition ago (n : Z) (unit : string) : string :=
  Js.numberToString (Js.ofZ n) ++ " " ++ unit
  ++ (if n =? 1 then "" else "s") ++ " ago".

(** [getTimeAgo(timestamp)] when [Date.now()] reads [now];
    [Math.floor(x / k)] is [x / k]. *)
Definition getTimeAgo (now timestamp : Z) : string :=
  let diff := now - timestamp in
  let seconds := diff / 1000 in
  let minutes := seconds / 60 in
  let hours := minutes / 60 in
  let days := hours / 24 in
  if days >? 0 then ago days "day"
  else if hours >? 0 then ago hours "hour"
  else if minutes >? 0 then ago minutes "minute"
  else "just now".

End History.

(* ------------------------------------------------------------------ *)
(** ** The commands ([commands/analyze.ts], [commands/commit.ts])

    A command is run against the answers of [git] and with the
    [generateCommitMessage] it imports, given as [generate].  What it
    prints is kept without colours and leading signs. *)

Module Commands.
Import Sys.

Inductive Line : Type :=
| Log (text : string)      (* console.log *)
| Error (text : string).   (* console.error *)

Record Run : Type := mkRun {
  printed : list Line;          (* in the order printed *)
  exitCode : option Z;          (* process.exit(n); None: the command returns *)
  executed : option string      (* the git commit command line, if one was run *)
}.

Definition Generator : Type := string -> World -> Llm.Completion * World.

(** [`${suggestion.intent}: ${suggestion.message}`] *)
Definition commitMessage (suggestion : Suggestion.t) : string :=
  Suggestion.intent suggestion ++ ": " ++ Suggestion.message suggestion.

Definition analyzeCommand (generate : Generator) (env : Git.Env) (w : World)
  : Run * World :=
  if negb (Git.isGitRepository env)
  then (mkRun [Error "Not a git repository"] (Some 1) None, w)
  else if negb (Git.hasChanges env)
  then (mkRun [Log "No changes detected"] (Some 0) None, w)
  else
    match Git.getGitDiff env with
    | inr msg => (mkRun [Error msg] (Some 1) None, w)
    | inl diff =>
        if negb (Js.truthy (Js.trim diff))
        then (mkRun [Log "No changes to analyze"] (Some 0) None, w)
        else
          let '(settled, w1) := generate diff w in
          match settled with
          | Llm.Returned suggestion =>
              (mkRun [Log "Analyzing changes..."; Log (commitMessage suggestion)]
                     None None, w1)
          | Llm.Raised msg =>
              (mkRun [Log "Analyzing changes..."; Error msg] (Some 1) None, w1)
          end
    end.

Definition commitCommand (generate : Generator) (env : Git.Env) (w : World)
  : Run * World :=
  if negb (Git.isGitRepository env)
  then (mkRun [Error "Not a git repository"] (Some 1) None, w)
  else if negb (Git.hasChanges env)
  then (mkRun [Log "No changes to commit"] (Some 0) None, w)
  else
    match Git.getGitDiff env with
    | inr msg => (mkRun [Error msg] (Some 1) None, w)
    | inl diff =>
        if negb (Js.truthy (Js.trim diff))
        then (mkRun [Log "No changes to commit"] (Some 0) None, w)
        else
          let '(settled, w1) := generate diff w in
          match settled with
          | Llm.Returned suggestion =>
              let message := commitMessage suggestion in
              let '(commandLine, failure) := Git.executeCommit env message in
              match failure with
              | None =>
                  (mkRun [Log "Generating commit message...";
                          Log "Committing changes...";
                          Log ("Committed: " ++ message)]
                         None (Some commandLine), w1)
              | Some msg =>
                  (mkRun [Log "Generating commit message...";
                          Log "Committing changes...";
                          Error msg]
                         (Some 1) (Some commandLine), w1)
              end
          | Llm.Raised msg =>
              (mkRun [Log "Generating commit message..."; Error msg] (Some 1) None, w1)
          end
    end.

(** The two revisions of [generateCommitMessage] as the commands call
    them: with the diff alone. *)
Definition withFallback (remote : Remote) : Generator :=
  fun diff w => Llm.generateCommitMessage remote diff None w.

Definition withoutFallback (remote : Remote) : Generator :=
  fun diff w => LlmThrowing.generateCommitMessage remote diff w.

End Commands.

(* ------------------------------------------------------------------ *)
(** ** The revision of [services/llm.ts] with the word-list fallback

    This revision has the retry loop of [Llm] and a fallback that looks
    for a few words anywhere in the lower-cased diff. *)

Module LlmSimple.
Import Sys Regex.

(** [diff.toLowerCase()], as far as the tests below can tell: the
    letters A to Z are put in lower case and every other byte is left as
    it is.  The patterns hold the letters a to z only.  The characters
    outside A to Z whose lower case holds such a letter are U+212A, which
    gives k, and U+0130, which gives i followed by U+0307; no word of the
    patterns has a k or ends in i. *)
Fixpoint toLowerCase (s : string) : string :=
  match s with
  | EmptyString => EmptyString
  | String c r => String (toLower c) (toLowerCase r)
  end.

(** [/(fix|bug|error|issue|crash|fault)/i] *)
Definition reBug : regex :=
  alts [litI "fix"; litI "bug"; litI "error"; litI "issue"; litI "crash";
        litI "fault"].

(** [/(add|create|implement|introduce|new)/i] *)
Definition reFeature : regex :=
  alts [litI "add"; litI "create"; litI "implement"; litI "introduce"; litI "new"].

(** [/(refactor|cleanup|restructure|optimize)/i] *)
Definition reRefactor : regex :=
  alts [litI "refactor"; litI "cleanup"; litI "restructure"; litI "optimize"].

(** [/(doc|readme|comment)/i] *)
Definition reDocs : regex := alts [litI "doc"; litI "readme"; litI "comment"].

(** [/(test|spec|coverage)/i] *)
Definition reTest : regex := alts [litI "test"; litI "spec"; litI "coverage"].

Definition generateFallbackCommit (diff : string) (w : World) : Suggestion.t * World :=
  let diffHash := Crypto.sha1_hex diff in
  let lowerDiff := toLowerCase diff in
  let '(intent, message) :=
    if test reBug lowerDiff then ("Bug Fix", "fix reported issue")
    else if test reFeature lowerDiff then ("Feature", "add new functionality")
    else if test reRefactor lowerDiff then ("Refactor", "refactor code structure")
    else if test reDocs lowerDiff then ("Docs", "update documentation")
    else if test reTest lowerDiff then ("Test", "update tests")
    else ("Chore", "update project files") in
  (Suggestion.mk intent message None, CommitCache.set diffHash intent message w).

Definition generateCommitMessage (remote : Remote) (diff : string) (w : World)
  : Llm.Completion * World :=
  let diffHash := Crypto.sha1_hex diff in
  let '(cached, w1) := CommitCache.get diffHash w in
  match cached with
  | Some hit => (Llm.Returned hit, w1)
  | None =>
      let '(found, w2) := Llm.attempts remote diffHash diff Llm.maxRetries w1 in
      match found with
      | Some result => (Llm.Returned result, w2)
      | None =>
          let '(result, w3) := generateFallbackCommit diff (warn Llm.unavailable w2) in
          (Llm.Returned result, w3)
      end
  end.

End LlmSimple.

(* ------------------------------------------------------------------ *)
(** ** Vocabulary of the further properties *)

Module More.
Import Sys.

(** No two entries of the map have the same key. *)
Definition uniqueKeys (m : JsMap.t) : Prop := NoDup (map fst m).

(** An entry that [loadCache] admits at time [now]. *)
Definition young (now : Z) (e : Entry.t) : bool :=
  now - Entry.timestamp e <? CommitCache.CACHE_MAX_AGE.

(** The last entry of a list with a given hash. *)
Definition lastWithHash (k : string) (es : list Entry.t) : option Entry.t :=
  find (fun e => String.eqb k (Entry.hash e)) (rev es).

(** The entries the cache file holds; an absent or unreadable file holds
    none. *)
Definition fileEntries (f : FileState) : list Entry.t :=
  match f with
  | Entries es => es
  | Missing => []
  | Unreadable => []
  end.

Fixpoint noLineFeed (s : string) : bool :=
  match s with
  | EmptyString => true
  | String c r => negb (Ascii.eqb c Js.LF) && noLineFeed r
  end.

(** A value that can stand after a label of the service's answer: not
    empty, on one line, with no white space at either end. *)
Definition tidy (s : string) : bool :=
  Js.truthy s && String.eqb (Js.trim s) s && noLineFeed s.

(** What [parseResponse] makes of a message: at most 70 characters. *)
Definition cut (message : string) : string :=
  if (70 <? Js.length message)%nat
  then Js.substring0 67 message ++ "..."
  else message.

(** Every double quote of [s] comes right after a backslash; [prev] is the
    character before [s]. *)
Fixpoint quotesEscaped (prev : option ascii) (s : string) : bool :=
  match s with
  | EmptyString => true
  | String c r =>
      (negb (Ascii.eqb c Git.quote)
       || match prev with
          | Some p => Ascii.eqb p Git.backslash
          | None => false
          end)
      && quotesEscaped (Some c) r
  end.

Fixpoint countQuotes (s : string) : nat :=
  match s with
  | EmptyString => 0
  | String c r => ((if Ascii.eqb c Git.quote then 1 else 0) + countQuotes r)%nat
  end.

(** A line that opens the part of a diff about one file. *)
Definition isHeader (line : string) : bool := Js.startsWith "diff --git" line.

Definition nonEmpty (r : Suggestion.t) : Prop :=
  Suggestion.intent r <> EmptyString /\ Suggestion.message r <> EmptyString.

(** The delays slept before [count] further attempts, the first of them
    after attempt number [attempt]; latest first, as [delays] keeps them. *)
Fixpoint sleeps (attempt count : nat) : list Z :=
  match count with
  | O => []
  | S k => (sleeps (S attempt) k ++ [Llm.backoff attempt])%list
  end.

(** The delays of a call that sends [requests] requests: one between any
    two of them. *)
Definition delaysOf (requests : nat) : list Z := sleeps 1 (requests - 1).

(** A diff mentions a word when its lower-cased text contains it, at any
    place, also inside a longer word. *)
Definition mentions (word diff : string) : Prop :=
  exists before after,
    LlmSimple.toLowerCase diff = (before ++ word ++ after)%string.

(** The answers of [git] under which a command goes on to generate a
    message: inside a repository, with a status that is not blank, and a
    diff that could be read and is not blank once filtered. *)
Definition ready (env : Git.Env) : bool :=
  Git.isGitRepository env
  && Git.hasChanges env
  && match Git.getGitDiff env with
     | inl diff => Js.truthy (Js.trim diff)
     | inr _ => false
     end.

(** At time [t], the entry under [key] is within its 30-day window. *)
Definition liveAt (t : Z) (key : string) (w : World) : bool :=
  match JsMap.get key (cache w) with
  | Some e => t - Entry.timestamp e <=? CommitCache.CACHE_MAX_AGE
  | None => false
  end.

End More.

(* ================================================================== *)
(** * Properties *)

Import Spec.

(** ** Strings *)

Section StringFacts.

Lemma length_append (a b : string) :
  String.length (a ++ b) = (String.length a + String.length b)%nat.
Proof. induction a as [|c a IH]; simpl; [reflexivity | now rewrite IH]. Qed.

Lemma length_take (n : nat) (s : string) :
  String.length (Js.take n s) = Nat.min n (String.length s).
Proof.
  revert s; induction n as [|n IH]; intros [|c s]; simpl; auto.
Qed.

Lemma jsLength_append (a b : string) :
  Js.length (a ++ b) = (Js.length a + Js.length b)%nat.
Proof.
  induction a as [|c a IH]; cbn [append Js.length]; [reflexivity|].
  rewrite IH. lia.
Qed.

Lemma N_of_byte n : (n < 256)%N -> N_of_ascii (Js.byte n) = n.
Proof. intros H. unfold Js.byte. now apply N_ascii_embedding. Qed.

Lemma units_continuation n :
  (128 <= n < 192)%N -> Js.units (Js.byte n) = 0%nat.
Proof.
  intros H. unfold Js.units. rewrite N_of_byte by lia.
  destruct (N.ltb_spec n 128); [lia|].
  destruct (N.ltb_spec n 192); [reflexivity | lia].
Qed.

Lemma highSurrogate_length c r : (Js.length (Js.highSurrogate c r) <= 1)%nat.
Proof.
  unfold Js.highSurrogate.
  destruct r as [|b1 [|b2 [|b3 r]]]; cbn [Js.length]; try lia.
  set (point := ((N_of_ascii c mod 8) * 262144 + (N_of_ascii b1 mod 64) * 4096
                 + (N_of_ascii b2 mod 64) * 64 + N_of_ascii b3 mod 64)%N).
  assert (Hp : (point < 2097152)%N).
  { pose proof (N.mod_lt (N_of_ascii c) 8 ltac:(discriminate)).
    pose proof (N.mod_lt (N_of_ascii b1) 64 ltac:(discriminate)).
    pose proof (N.mod_lt (N_of_ascii b2) 64 ltac:(discriminate)).
    pose proof (N.mod_lt (N_of_ascii b3) 64 ltac:(discriminate)).
    unfold point. lia. }
  set (h := ((point - 65536) / 1024)%N).
  assert (Hh : (h < 2048)%N).
  { unfold h. apply N.Div0.div_lt_upper_bound. lia. }
  unfold Js.utf8.
  destruct (N.ltb_spec (55296 + h) 128); [lia|].
  destruct (N.ltb_spec (55296 + h) 2048); [lia|].
  assert (Hq : ((55296 + h) / 4096 = 13)%N).
  { symmetry. apply (N.div_unique _ _ _ (55296 + h - 13 * 4096)); lia. }
  rewrite Hq. cbn [Js.length].
  assert (Hc : forall x, Js.units (Js.byte (128 + x mod 64)) = 0%nat).
  { intros x. apply units_continuation.
    pose proof (N.mod_lt x 64 ltac:(discriminate)) as L.
    revert L. generalize (x mod 64)%N. intros y L. lia. }
  rewrite !Hc. reflexivity.
Qed.

(** [substring(0, n)] has at most [n] code units. *)
Lemma substring0_length s : forall n, (Js.length (Js.substring0 n s) <= n)%nat.
Proof.
  induction s as [|c s IH]; intros n; cbn [Js.substring0 Js.length]; [lia|].
  destruct (Js.units c) as [|[|u]] eqn:U.
  - cbn [Js.length]. rewrite U. apply IH.
  - destruct n as [|n]; cbn [Js.length]; [lia|].
    rewrite U. specialize (IH n). lia.
  - destruct n as [|[|n]]; cbn [Js.length]; [lia| |].
    + apply highSurrogate_length.
    + rewrite U. specialize (IH n).
      assert (S (S u) = 2)%nat; [|lia].
      revert U. unfold Js.units.
      repeat match goal with |- context [N.ltb ?a ?b] => destruct (N.ltb a b) end;
        intros [=]; lia.
Qed.

(** *** White space *)

Lemma startsWith_spec p : forall s,
  Js.startsWith p s = true <-> exists r, s = (p ++ r)%string.
Proof.
  induction p as [|a p IH]; intros s; cbn [Js.startsWith append].
  - split; [intros _; now exists s | reflexivity].
  - destruct s as [|b s].
    + split; [discriminate | intros (r & [=])].
    + rewrite andb_true_iff, Ascii.eqb_eq, IH. split.
      * intros (-> & r & ->). now exists r.
      * intros (r & [= -> ->]). split; [reflexivity | now exists r].
Qed.

Lemma drop_append p r : Js.drop (String.length p) (p ++ r) = r.
Proof. induction p as [|a p IH]; cbn [String.length Js.drop append]; auto. Qed.

(** What [whiteSpaceAt] finds is one of the white spaces, and the string
    goes on after it. *)
Lemma whiteSpaceAt_spec s :
  match Js.whiteSpaceAt s with
  | O => forall w, In w Js.whiteSpaces -> Js.startsWith w s = false
  | S k => exists w, In w Js.whiteSpaces /\ String.length w = S k
                     /\ s = (w ++ Js.drop (S k) s)%string
  end.
Proof.
  unfold Js.whiteSpaceAt.
  destruct (find (fun w => Js.startsWith w s) Js.whiteSpaces) as [w|] eqn:F.
  - apply find_some in F as [Hin Hw].
    apply startsWith_spec in Hw as (r & ->).
    assert (Hl : String.length w <> 0%nat).
    { clear -Hin. intros E. destruct w; [|discriminate].
      vm_compute in Hin. intuition discriminate. }
    destruct (String.length w) as [|k] eqn:L; [contradiction|].
    exists w. repeat split; [assumption|assumption|].
    rewrite <- L. now rewrite drop_append.
  - intros w Hin. now apply (find_none _ _ F).
Qed.

Lemma trimStartFrom_drop k : forall s,
  Js.trimStartFrom k s = Js.trimStart (Js.drop k s).
Proof.
  induction k as [|k IH]; intros s; [reflexivity|].
  destruct s as [|c r]; [reflexivity|]. cbn [Js.trimStartFrom Js.drop]. apply IH.
Qed.

(** The equation of [trimStart]. *)
Lemma trimStart_eq s :
  Js.trimStart s
  = match Js.whiteSpaceAt s with
    | O => s
    | S k => Js.trimStart (Js.drop (S k) s)
    end.
Proof.
  destruct s as [|c r]; [reflexivity|].
  unfold Js.trimStart at 1. cbn [Js.trimStartFrom].
  destruct (Js.whiteSpaceAt (String c r)) as [|k]; [reflexivity|].
  cbn [Js.drop]. apply trimStartFrom_drop.
Qed.

Lemma whiteSpaceAt_visible c r :
  visible c = true -> Js.whiteSpaceAt (String c r) = 0%nat.
Proof.
  intros H. unfold Js.whiteSpaceAt.
  replace (find (fun w => Js.startsWith w (String c r)) Js.whiteSpaces)
    with (@None string); [reflexivity|].
  symmetry. revert H.
  destruct c as [[] [] [] [] [] [] [] []]; intros H;
    solve [discriminate H | reflexivity].
Qed.

Lemma trimStart_visible c r :
  visible c = true -> Js.trimStart (String c r) = String c r.
Proof. intros H. rewrite trimStart_eq. now rewrite whiteSpaceAt_visible. Qed.

Lemma isBlank_visible c r : visible c = true -> Js.isBlank (String c r) = false.
Proof. intros H. unfold Js.isBlank. now rewrite trimStart_visible. Qed.

Lemma trimStart_clean s : clean s = true -> Js.trimStart s = s.
Proof.
  destruct s as [|c r]; [reflexivity|]. cbn [clean].
  intros H; apply andb_prop in H as [H _]. now apply trimStart_visible.
Qed.

Lemma trimEnd_clean s : clean s = true -> Js.trimEnd s = s.
Proof.
  induction s as [|c r IH]; [reflexivity|]. cbn [clean Js.trimEnd].
  intros H; apply andb_prop in H as [Hc Hr].
  rewrite (isBlank_visible _ _ Hc). now rewrite (IH Hr).
Qed.

Lemma trim_clean s : clean s = true -> Js.trim s = s.
Proof.
  intros H; unfold Js.trim.
  rewrite (trimStart_clean _ H). now apply trimEnd_clean.
Qed.

Lemma append_assoc (a b c : string) : ((a ++ b) ++ c = a ++ (b ++ c))%string.
Proof. induction a as [|x a IH]; simpl; [reflexivity | now rewrite IH]. Qed.

(** Two ways of cutting one string in two. *)
Lemma append_split (w : string) : forall x rest z,
  (w ++ rest = x ++ z)%string ->
  (exists t, x = (w ++ t)%string /\ rest = (t ++ z)%string)
  \/ (exists c t, w = (x ++ String c t)%string /\ z = (String c t ++ rest)%string).
Proof.
  induction w as [|a w IH]; intros x rest z E.
  - left. exists x. split; [reflexivity | exact E].
  - destruct x as [|b x].
    + right. exists a, w. cbn [append] in E |- *. split; [reflexivity | now rewrite <- E].
    + cbn [append] in E. injection E as -> E.
      destruct (IH x rest z E) as [(t & -> & ->)|(c & t & -> & ->)].
      * left. now exists t.
      * right. now exists c, t.
Qed.

Lemma hasVisible_inside x c t :
  visible c = true -> hasVisible (x ++ String c t) = true.
Proof.
  intros H. induction x as [|a x IH]; cbn [append hasVisible].
  - now rewrite H.
  - rewrite IH. apply orb_true_r.
Qed.

Lemma whiteSpaces_invisible w : In w Js.whiteSpaces -> hasVisible w = false.
Proof.
  assert (All : forallb (fun w => negb (hasVisible w)) Js.whiteSpaces = true)
    by reflexivity.
  rewrite forallb_forall in All. intros H.
  now apply negb_true_iff, All.
Qed.

(** A string in which a visible character occurs is not blank. *)
Lemma trimStart_visible_inside n : forall x c y,
  (String.length x <= n)%nat -> visible c = true ->
  Js.trimStart (x ++ String c y) <> EmptyString.
Proof.
  induction n as [|n IH]; intros x c y Hl Hc.
  - destruct x; [|cbn in Hl; lia]. cbn [append].
    rewrite trimStart_visible by exact Hc. discriminate.
  - destruct x as [|a x].
    { cbn [append]. rewrite trimStart_visible by exact Hc. discriminate. }
    rewrite trimStart_eq.
    pose proof (whiteSpaceAt_spec (String a x ++ String c y)) as W.
    destruct (Js.whiteSpaceAt (String a x ++ String c y)) as [|k];
      [discriminate|].
    destruct W as (w & Hin & Hw & E).
    destruct (append_split w (String a x) _ (String c y) (eq_sym E))
      as [(t & Ex & ->)|(c' & t & Ew & Ez)].
    + apply IH; [|exact Hc].
      apply (f_equal String.length) in Ex. rewrite length_append in Ex.
      cbn [String.length] in Ex, Hl. lia.
    + injection Ez as <- _.
      pose proof (whiteSpaces_invisible w Hin) as V.
      rewrite Ew, (hasVisible_inside _ c t Hc) in V. discriminate.
Qed.

Lemma isBlank_visible_inside x c y :
  visible c = true -> Js.isBlank (x ++ String c y) = false.
Proof.
  intros Hc. unfold Js.isBlank.
  pose proof (trimStart_visible_inside (String.length x) x c y (le_n _) Hc).
  now destruct (Js.trimStart (x ++ String c y)).
Qed.

Lemma trimStart_suffix n : forall s,
  (String.length s <= n)%nat -> exists p, s = (p ++ Js.trimStart s)%string.
Proof.
  induction n as [|n IH]; intros s Hl.
  - destruct s; [now exists EmptyString | cbn in Hl; lia].
  - rewrite trimStart_eq. pose proof (whiteSpaceAt_spec s) as W.
    destruct (Js.whiteSpaceAt s) as [|k]; [now exists EmptyString|].
    destruct W as (w & _ & Hw & E).
    destruct (IH (Js.drop (S k) s)) as (p & Hp).
    + apply (f_equal String.length) in E. rewrite length_append in E. lia.
    + exists (w ++ p)%string. rewrite append_assoc, <- Hp. exact E.
Qed.

Lemma trimEnd_length s : (String.length (Js.trimEnd s) <= String.length s)%nat.
Proof.
  induction s as [|c s IH]; [reflexivity|]. cbn [Js.trimEnd].
  destruct (Js.isBlank (String c s)); cbn [String.length]; lia.
Qed.

(** A string that [trim] leaves as it is, is left so by [trimStart] and
    by [trimEnd]. *)
Lemma trim_fixed s :
  Js.trim s = s -> Js.trimStart s = s /\ Js.trimEnd s = s.
Proof.
  intros H. unfold Js.trim in H.
  destruct (trimStart_suffix (String.length s) s (le_n _)) as (p & Hp).
  pose proof (trimEnd_length (Js.trimStart s)) as L.
  rewrite H in L.
  assert (Ep : p = EmptyString).
  { apply (f_equal String.length) in Hp. rewrite length_append in Hp.
    destruct p; [reflexivity | cbn [String.length] in Hp; lia]. }
  subst p. cbn [append] in Hp.
  split; [now rewrite <- Hp | now rewrite <- Hp in H].
Qed.

Lemma trimStart_after_blank s : Js.trimStart (" " ++ s) = Js.trimStart s.
Proof. now rewrite trimStart_eq. Qed.

(** After a label that ends in a visible character and a blank, a value
    that [trim] leaves as it is ends the string for [trimEnd]. *)
Lemma trimEnd_after_label pre c x :
  visible c = true -> x <> EmptyString ->
  Js.trimStart x = x -> Js.trimEnd x = x ->
  Js.trimEnd (pre ++ String c (" " ++ x)) = (pre ++ String c (" " ++ x))%string.
Proof.
  intros Hc Hx Hs He.
  assert (Hb : Js.isBlank (String " " x) = false).
  { unfold Js.isBlank. change (String " " x) with (" " ++ x)%string.
    rewrite trimStart_after_blank, Hs. destruct x; [contradiction | reflexivity]. }
  induction pre as [|a pre IH].
  - cbn [append Js.trimEnd]. rewrite (isBlank_visible c _ Hc), Hb, He.
    reflexivity.
  - cbn [append]. change (Js.trimEnd (String a (pre ++ String c (String " " x))))
      with (if Js.isBlank (String a (pre ++ String c (String " " x)))
            then EmptyString
            else String a (Js.trimEnd (pre ++ String c (String " " x)))).
    pose proof (isBlank_visible_inside (String a pre) c (String " " x) Hc) as B.
    cbn [append] in B, IH. now rewrite B, IH.
Qed.

End StringFacts.

(** ** Decimal printing *)

Section Decimal.

Lemma digitsFuel_length (fuel : nat) :
  forall (k : nat) (n : Z) (acc : string),
    (1 <= k)%nat -> 0 <= n < 10 ^ Z.of_nat k ->
    (String.length (Js.digitsFuel fuel n acc) <= k + String.length acc)%nat.
Proof.
  induction fuel as [|fuel IH]; intros k n acc Hk Hn; simpl; [lia|].
  destruct (n <? 10) eqn:E.
  - simpl; lia.
  - apply Z.ltb_ge in E.
    destruct k as [|k]; [lia|].
    destruct k as [|k].
    + change (10 ^ Z.of_nat 1) with 10 in Hn; lia.
    + specialize (IH (S k) (n / 10) (String (Js.digitChar (n mod 10)) acc)).
      simpl String.length in IH.
      assert (Hdiv : 0 <= n / 10 < 10 ^ Z.of_nat (S k)).
      { split; [apply Z.div_pos; lia|].
        apply Z.div_lt_upper_bound; [lia|].
        replace (Z.of_nat (S (S k))) with (Z.succ (Z.of_nat (S k))) in Hn by lia.
        rewrite Z.pow_succ_r in Hn by lia. lia. }
      specialize (IH ltac:(lia) Hdiv). lia.
Qed.

(** The fuel of [decimal] is never used up: more of it changes
    nothing. *)
Lemma digitsFuel_enough (fuel : nat) :
  forall (n : Z) (acc : string) (more : nat),
    0 <= n < 10 ^ Z.of_nat (S fuel) ->
    Js.digitsFuel (S fuel + more) n acc = Js.digitsFuel (S fuel) n acc.
Proof.
  induction fuel as [|fuel IH]; intros n acc more Hn.
  - change (10 ^ Z.of_nat 1) with 10 in Hn.
    cbn [Js.digitsFuel Nat.add].
    destruct (Z.ltb_spec n 10); [reflexivity | lia].
  - change (S (S fuel) + more)%nat with (S (S fuel + more)).
    cbn [Js.digitsFuel].
    destruct (Z.ltb_spec n 10); [reflexivity|].
    apply IH. split; [apply Z.div_pos; lia|].
    apply Z.div_lt_upper_bound; [lia|].
    replace (Z.of_nat (S (S fuel))) with (Z.succ (Z.of_nat (S fuel))) in Hn by lia.
    rewrite Z.pow_succ_r in Hn by lia. lia.
Qed.

Lemma decimal_fuel (n : Z) (more : nat) :
  0 <= n ->
  Js.digitsFuel (S (Z.to_nat (Z.log2 n)) + more) n EmptyString
  = Js.decimal n.
Proof.
  intros Hn. unfold Js.decimal. apply digitsFuel_enough.
  split; [exact Hn|].
  pose proof (Z.log2_nonneg n) as Hl.
  replace (Z.of_nat (S (Z.to_nat (Z.log2 n)))) with (Z.succ (Z.log2 n)) by lia.
  apply Z.lt_le_trans with (2 ^ Z.succ (Z.log2 n)).
  - destruct (Z.eq_dec n 0) as [->|Hne]; [reflexivity|].
    apply Z.log2_spec. lia.
  - apply Z.pow_le_mono_l. lia.
Qed.

Lemma decimal_length (k : nat) (n : Z) :
  (1 <= k)%nat -> 0 <= n < 10 ^ Z.of_nat k ->
  (String.length (Js.decimal n) <= k)%nat.
Proof.
  intros Hk H. unfold Js.decimal.
  pose proof (digitsFuel_length (S (Z.to_nat (Z.log2 n))) k n EmptyString Hk H) as L.
  change (String.length EmptyString) with 0%nat in L. lia.
Qed.

Lemma digitsFuel_grows (fuel : nat) :
  forall (n : Z) (acc : string),
    (String.length acc < String.length (Js.digitsFuel (S fuel) n acc))%nat.
Proof.
  induction fuel as [|fuel IH]; intros n acc.
  - cbn [Js.digitsFuel]. destruct (n <? 10); cbn [String.length]; lia.
  - change (Js.digitsFuel (S (S fuel)) n acc)
      with (if n <? 10 then String (Js.digitChar (n mod 10)) acc
            else Js.digitsFuel (S fuel) (n / 10) (String (Js.digitChar (n mod 10)) acc)).
    destruct (n <? 10); [cbn [String.length]; lia|].
    specialize (IH (n / 10) (String (Js.digitChar (n mod 10)) acc)).
    cbn [String.length] in IH. lia.
Qed.

(** A number is below the power of ten of its count of digits. *)
Lemma digitsFuel_bound (fuel : nat) :
  forall (n : Z) (acc : string),
    0 <= n < 10 ^ Z.of_nat fuel ->
    n < 10 ^ (Z.of_nat (String.length (Js.digitsFuel fuel n acc))
              - Z.of_nat (String.length acc)).
Proof.
  induction fuel as [|fuel IH]; intros n acc Hn.
  - change (10 ^ Z.of_nat 0) with 1 in Hn. cbn [Js.digitsFuel].
    rewrite Z.sub_diag. change (10 ^ 0) with 1. lia.
  - cbn [Js.digitsFuel]. destruct (Z.ltb_spec n 10) as [L|L].
    + cbn [String.length].
      replace (Z.of_nat (S (String.length acc)) - Z.of_nat (String.length acc))
        with 1 by lia.
      change (10 ^ 1) with 10. lia.
    + set (acc' := String (Js.digitChar (n mod 10)) acc).
      assert (Hdiv : 0 <= n / 10 < 10 ^ Z.of_nat fuel).
      { split; [apply Z.div_pos; lia|].
        apply Z.div_lt_upper_bound; [lia|].
        replace (Z.of_nat (S fuel)) with (Z.succ (Z.of_nat fuel)) in Hn by lia.
        rewrite Z.pow_succ_r in Hn by lia. lia. }
      specialize (IH (n / 10) acc' Hdiv).
      destruct fuel as [|fuel'].
      { change (10 ^ Z.of_nat 0) with 1 in Hdiv. lia. }
      pose proof (digitsFuel_grows fuel' (n / 10) acc') as G.
      subst acc'. cbn [String.length] in IH, G |- *.
      set (len := String.length
                    (Js.digitsFuel (S fuel') (n / 10)
                       (String (Js.digitChar (n mod 10)) acc))) in *.
      replace (Z.of_nat len - Z.of_nat (String.length acc))
        with (Z.succ (Z.of_nat len - Z.of_nat (S (String.length acc)))) by lia.
      rewrite Z.pow_succ_r by lia.
      pose proof (Z.div_mod n 10 ltac:(lia)).
      pose proof (Z.mod_pos_bound n 10 ltac:(lia)). lia.
Qed.

Lemma decimal_bound (n : Z) : 0 <= n -> n < 10 ^ Js.digitsOf n.
Proof.
  intros Hn. unfold Js.digitsOf, Js.decimal.
  pose proof (digitsFuel_bound (S (Z.to_nat (Z.log2 n))) n EmptyString) as B.
  cbn [String.length] in B. rewrite Z.sub_0_r in B. apply B.
  split; [exact Hn|].
  pose proof (Z.log2_nonneg n) as Hl.
  replace (Z.of_nat (S (Z.to_nat (Z.log2 n)))) with (Z.succ (Z.log2 n)) by lia.
  apply Z.lt_le_trans with (2 ^ Z.succ (Z.log2 n)).
  - destruct (Z.eq_dec n 0) as [->|Hne]; [reflexivity|].
    apply Z.log2_spec. lia.
  - apply Z.pow_le_mono_l. lia.
Qed.

Lemma digitsOf_pos (n : Z) : 1 <= Js.digitsOf n.
Proof.
  unfold Js.digitsOf, Js.decimal.
  pose proof (digitsFuel_grows (Z.to_nat (Z.log2 n)) n EmptyString) as G.
  cbn [String.length] in G. lia.
Qed.

(** *** Strings of ASCII characters: one code unit a byte *)

Lemma jsLength_ascii7 s : ascii7 s = true -> Js.length s = String.length s.
Proof.
  induction s as [|c s IH]; [reflexivity|]. cbn [ascii7 Js.length String.length].
  intros H. apply andb_prop in H as [Hc Hs]. rewrite (IH Hs).
  unfold Js.units. now rewrite Hc.
Qed.

Lemma ascii7_append a b : ascii7 (a ++ b) = ascii7 a && ascii7 b.
Proof.
  induction a as [|c a IH]; cbn [append ascii7]; [reflexivity|].
  now rewrite IH, andb_assoc.
Qed.

Lemma ascii7_take n : forall s, ascii7 s = true -> ascii7 (Js.take n s) = true.
Proof.
  induction n as [|n IH]; intros [|c s]; cbn [Js.take ascii7]; auto.
  intros H. apply andb_prop in H as [Hc Hs]. now rewrite Hc, (IH s Hs).
Qed.

Lemma ascii7_drop n : forall s, ascii7 s = true -> ascii7 (Js.drop n s) = true.
Proof.
  induction n as [|n IH]; intros [|c s]; cbn [Js.drop ascii7]; auto.
  intros H. apply andb_prop in H as [Hc Hs]. now apply IH.
Qed.

Lemma ascii7_zeros n : ascii7 (Js.zeros n) = true.
Proof. induction n as [|n IH]; cbn [Js.zeros ascii7]; auto. Qed.

Lemma ascii7_digitChar d : (N_of_ascii (Js.digitChar (d mod 10)) <? 128)%N = true.
Proof.
  pose proof (Z.mod_pos_bound d 10 ltac:(lia)) as B.
  assert (All : forallb (fun k => (N_of_ascii (Js.digitChar (Z.of_nat k)) <? 128)%N)
                        (seq 0 10) = true) by reflexivity.
  rewrite forallb_forall in All.
  specialize (All (Z.to_nat (d mod 10))).
  rewrite Z2Nat.id in All by lia. apply All, in_seq. lia.
Qed.

Lemma ascii7_digitsFuel fuel :
  forall n acc, ascii7 acc = true -> ascii7 (Js.digitsFuel fuel n acc) = true.
Proof.
  induction fuel as [|fuel IH]; intros n acc H; cbn [Js.digitsFuel]; [exact H|].
  assert (H' : ascii7 (String (Js.digitChar (n mod 10)) acc) = true).
  { cbn [ascii7]. now rewrite ascii7_digitChar, H. }
  destruct (n <? 10); [exact H' | now apply IH].
Qed.

Lemma ascii7_decimal n : ascii7 (Js.decimal n) = true.
Proof. now apply ascii7_digitsFuel. Qed.

(** *** [Number::toString] *)

Lemma length_take_drop n s :
  (String.length (Js.take n s) + String.length (Js.drop n s))%nat = String.length s.
Proof.
  revert s. induction n as [|n IH]; intros [|c s];
    cbn [Js.take Js.drop String.length Nat.add]; try reflexivity.
  now rewrite IH.
Qed.

Lemma length_zeros n : String.length (Js.zeros n) = n.
Proof. induction n as [|n IH]; cbn [Js.zeros String.length]; auto. Qed.

Lemma digits2_bound (m : positive) :
  Z.pos m < 2 ^ Z.pos (SpecFloat.digits2_pos m).
Proof.
  induction m as [m IH|m IH|]; cbn [SpecFloat.digits2_pos].
  - rewrite Pos2Z.inj_succ, Z.pow_succ_r by lia. lia.
  - rewrite Pos2Z.inj_succ, Z.pow_succ_r by lia. lia.
  - reflexivity.
Qed.

(** A finite number has a mantissa below 2^53 and an exponent from -1074
    to 971. *)
Lemma isNumber_finite negative m e :
  Js.isNumber (SpecFloat.S754_finite negative m e) = true ->
  Z.pos m < 2 ^ 53 /\ -1074 <= e <= 971.
Proof.
  unfold Js.isNumber, SpecFloat.valid_binary, SpecFloat.bounded,
    SpecFloat.canonical_mantissa, SpecFloat.fexp, SpecFloat.emin.
  intros H. apply andb_prop in H as [C E].
  apply Z.eqb_eq in C. apply Z.leb_le in E.
  change (3 - 1024 - 53) with (-1074) in C.
  change (1024 - 53) with 971 in E.
  pose proof (digits2_bound m) as D.
  assert (Hd : Z.pos (SpecFloat.digits2_pos m) <= 53 /\ -1074 <= e).
  { revert C. generalize (Z.pos (SpecFloat.digits2_pos m)). intros d C.
    pose proof (Z.le_max_l (d + e - 53) (-1074)) as L1.
    pose proof (Z.le_max_r (d + e - 53) (-1074)) as L2.
    change (Z.max (d + e - 53) (-1074)) with (IntDef.Z.max (d + e - 53) (-1074))
      in L1, L2.
    lia. }
  destruct Hd as [Hd He]. split; [|lia].
  apply Z.lt_le_trans with (2 ^ Z.pos (SpecFloat.digits2_pos m)); [exact D|].
  apply Z.pow_le_mono_r; lia.
Qed.

Lemma unit_bound e : -1074 <= e <= 971 -> 0 < Js.unit e <= 10 ^ 751.
Proof.
  intros H. unfold Js.unit. destruct (Z.leb_spec 0 e) as [L|L].
  - split; [apply Z.pow_pos_nonneg; lia|].
    apply Z.le_trans with (2 ^ 971); [apply Z.pow_le_mono_r; lia|].
    apply Z.leb_le. vm_compute. reflexivity.
  - split; [apply Z.pow_pos_nonneg; lia|].
    apply Z.le_trans with (5 ^ 1074); [apply Z.pow_le_mono_r; lia|].
    apply Z.leb_le. vm_compute. reflexivity.
Qed.

Lemma firstDigits_bound m e M D ks :
  0 <= M < 10 ^ D ->
  Forall (fun k => 1 <= k <= 17) ks ->
  let '(s, k) := Js.firstDigits m e M D ks in
  0 <= s <= 10 ^ k /\ 1 <= k <= 17.
Proof.
  intros HM Hks. induction Hks as [|k ks Hk Hks IH].
  - cbn [Js.firstDigits]. split; [|lia].
    destruct (Z.le_gt_cases 17 D) as [L|L].
    + assert (Hp : 0 < 10 ^ (D - 17)) by (apply Z.pow_pos_nonneg; lia).
      split; [apply Z.div_pos; lia|].
      apply Z.lt_le_incl, Z.div_lt_upper_bound; [exact Hp|].
      rewrite <- Z.pow_add_r by lia. replace (D - 17 + 17) with D by lia. lia.
    + rewrite (Z.pow_neg_r 10 (D - 17)) by lia.
      rewrite Z.div_0_r. split; [lia|]. apply Z.pow_nonneg. lia.
  - cbn [Js.firstDigits]. cbv zeta.
    set (p := 10 ^ Z.max (D - k) 0).
    assert (Hp : 0 < p) by (apply Z.pow_pos_nonneg; lia).
    assert (Hlo : 0 <= M / p < 10 ^ k).
    { split; [apply Z.div_pos; lia|].
      apply Z.div_lt_upper_bound; [exact Hp|].
      unfold p. rewrite <- Z.pow_add_r by lia.
      apply Z.lt_le_trans with (10 ^ D); [lia|].
      apply Z.pow_le_mono_r; lia. }
    destruct (Js.readsBack m e (M / p * p)), (Js.readsBack m e ((M / p + 1) * p));
      try exact IH;
      repeat match goal with |- context [if ?b then _ else _] => destruct b end;
      lia.
Qed.

Lemma shortest_bound m e :
  Z.pos m < 2 ^ 53 -> -1074 <= e <= 971 ->
  let '(s, n) := Js.shortest m e in
  0 <= s < 10 ^ 17 /\ -1073 <= n <= 770.
Proof.
  intros Hm He. unfold Js.shortest. cbv zeta.
  pose proof (unit_bound e He) as [U0 U1].
  set (M := Z.pos m * Js.unit e).
  assert (HM : 0 <= M) by (unfold M; lia).
  assert (HM' : M < 10 ^ 768).
  { unfold M. apply Z.lt_le_trans with (2 ^ 53 * 10 ^ 751).
    - apply Z.le_lt_trans with (Z.pos m * 10 ^ 751).
      + apply Z.mul_le_mono_nonneg_l; [lia | exact U1].
      + apply Z.mul_lt_mono_pos_r; [reflexivity | exact Hm].
    - apply Z.leb_le. vm_compute. reflexivity. }
  pose proof (decimal_bound M HM) as B.
  pose proof (digitsOf_pos M) as D1.
  assert (D2 : Js.digitsOf M <= 768).
  { unfold Js.digitsOf.
    pose proof (decimal_length 768 M ltac:(lia)) as L.
    change (Z.of_nat 768) with 768 in L. specialize (L ltac:(lia)). lia. }
  assert (Hks : Forall (fun k => 1 <= k <= 17) (map Z.of_nat (seq 1 17))).
  { apply Forall_forall. intros j Hj. apply in_map_iff in Hj as (i & <- & Hi).
    apply in_seq in Hi. lia. }
  pose proof (firstDigits_bound m e M (Js.digitsOf M)
                (map Z.of_nat (seq 1 17)) (conj HM B) Hks) as F.
  destruct (Js.firstDigits m e M (Js.digitsOf M) (map Z.of_nat (seq 1 17)))
    as [s k].
  destruct F as [[S0 S1] [K0 K1]].
  assert (Hk17 : 10 ^ k <= 10 ^ 17) by (apply Z.pow_le_mono_r; lia).
  destruct (Z.eqb_spec s (10 ^ k)) as [E|E].
  - split; [split; [lia | reflexivity] | lia].
  - split; lia.
Qed.

(** A number of at least one digit is not below the power of ten of one
    digit less. *)
Lemma digitsFuel_lower (fuel : nat) :
  forall (n : Z) (acc : string),
    1 <= n ->
    10 ^ (Z.of_nat (String.length (Js.digitsFuel fuel n acc))
          - Z.of_nat (String.length acc) - 1) <= n.
Proof.
  induction fuel as [|fuel IH]; intros n acc Hn.
  - cbn [Js.digitsFuel]. rewrite Z.pow_neg_r by lia. lia.
  - cbn [Js.digitsFuel]. destruct (Z.ltb_spec n 10) as [L|L].
    + cbn [String.length].
      replace (Z.of_nat (S (String.length acc)) - Z.of_nat (String.length acc) - 1)
        with 0 by lia.
      change (10 ^ 0) with 1. exact Hn.
    + set (acc' := String (Js.digitChar (n mod 10)) acc).
      assert (Hdiv : 1 <= n / 10) by (apply Z.div_le_lower_bound; lia).
      specialize (IH (n / 10) acc' Hdiv).
      set (len := String.length (Js.digitsFuel fuel (n / 10) acc')) in *.
      assert (Hacc : String.length acc' = S (String.length acc)) by reflexivity.
      rewrite Hacc in IH.
      pose proof (Z.div_mod n 10 ltac:(lia)).
      pose proof (Z.mod_pos_bound n 10 ltac:(lia)).
      destruct (Z.le_gt_cases 0 (Z.of_nat len - Z.of_nat (S (String.length acc)) - 1))
        as [G|G].
      * replace (Z.of_nat len - Z.of_nat (String.length acc) - 1)
          with (Z.succ (Z.of_nat len - Z.of_nat (S (String.length acc)) - 1)) by lia.
        rewrite Z.pow_succ_r by exact G. lia.
      * destruct (Z.le_gt_cases 0 (Z.of_nat len - Z.of_nat (String.length acc) - 1))
          as [G'|G'].
        -- replace (Z.of_nat len - Z.of_nat (String.length acc) - 1) with 0 by lia.
           change (10 ^ 0) with 1. lia.
        -- rewrite Z.pow_neg_r by lia. lia.
Qed.

Lemma decimal_lower (n : Z) : 1 <= n -> 10 ^ (Js.digitsOf n - 1) <= n.
Proof.
  intros Hn. unfold Js.digitsOf, Js.decimal.
  pose proof (digitsFuel_lower (S (Z.to_nat (Z.log2 n))) n EmptyString Hn) as B.
  cbn [String.length] in B. rewrite Z.sub_0_r in B. exact B.
Qed.

(** Seventeen digits are enough: when [M] has more, one of the two
    decimals of seventeen digits next to it is read back as the
    number. *)
Lemma seventeen_digits_read_back m e M D :
  Z.pos m < 2 ^ 53 -> 0 < Js.unit e ->
  M = Z.pos m * Js.unit e ->
  17 < D -> 10 ^ (D - 1) <= M ->
  let p := 10 ^ (D - 17) in
  Js.readsBack m e (M / p * p) = true
  \/ Js.readsBack m e ((M / p + 1) * p) = true.
Proof.
  intros Hm HU EM HD Hlow p.
  assert (Hp : 0 < p) by (apply Z.pow_pos_nonneg; lia).
  assert (Hp16 : p * 10 ^ 16 <= M).
  { unfold p. rewrite <- Z.pow_add_r by lia.
    replace (D - 17 + 16) with (D - 1) by lia. exact Hlow. }
  change (10 ^ 16) with 10000000000000000 in Hp16.
  change (2 ^ 53) with 9007199254740992 in Hm.
  pose proof (Z.div_mod M p ltac:(lia)) as Hdm.
  pose proof (Z.mod_pos_bound M p Hp) as Hr.
  set (lo := M / p) in *. set (r := M mod p) in *.
  set (U := Js.unit e) in *.
  assert (HMU : M <= 9007199254740991 * U).
  { rewrite EM. apply Z.mul_le_mono_nonneg_r; lia. }
  assert (HpU : p < U) by lia.
  unfold Js.readsBack. fold U. rewrite <- EM. cbv zeta.
  change (2 ^ 52) with 4503599627370496.
  assert (Hlo : lo * p = M - r) by lia.
  assert (Hhi : (lo + 1) * p = M - r + p) by lia.
  rewrite Hlo, Hhi.
  assert (Hbelow : (Z.pos m =? 4503599627370496) && (-1074 <? e) = true ->
                   2 * p < U).
  { intros B. apply andb_prop in B as [B _]. apply Z.eqb_eq in B.
    rewrite B in EM. lia. }
  destruct ((Z.pos m =? 4503599627370496) && (-1074 <? e)) eqn:B.
  - specialize (Hbelow eq_refl).
    destruct (Z.le_gt_cases (2 * r) p) as [C|C]; [left | right];
      destruct (Z.even (Z.pos m));
      apply andb_true_intro; split;
      first [apply Z.leb_le | apply Z.ltb_lt]; lia.
  - clear Hbelow.
    destruct (Z.le_gt_cases (2 * r) p) as [C|C]; [left | right];
      destruct (Z.even (Z.pos m));
      apply andb_true_intro; split;
      first [apply Z.leb_le | apply Z.ltb_lt]; lia.
Qed.

(** The search of [firstDigits] succeeds: the digits it returns, at
    their place, are read back as the number.  The decimal that is
    printed denotes the number and no other. *)
Lemma firstDigits_reads_back m e M D ks :
  Z.pos m < 2 ^ 53 -> 0 < Js.unit e ->
  M = Z.pos m * Js.unit e ->
  0 < D -> 10 ^ (D - 1) <= M ->
  let '(s, k) := Js.firstDigits m e M D (ks ++ [17]) in
  Js.readsBack m e (s * 10 ^ Z.max (D - k) 0) = true.
Proof.
  intros Hm HU EM HD Hlow.
  induction ks as [|k ks IH]; cbn [app Js.firstDigits]; cbv zeta.
  - set (p := 10 ^ Z.max (D - 17) 0).
    assert (H : Js.readsBack m e (M / p * p) = true
                \/ Js.readsBack m e ((M / p + 1) * p) = true).
    { unfold p. destruct (Z.le_gt_cases D 17) as [L|L].
      - left. replace (Z.max (D - 17) 0) with 0 by lia. change (10 ^ 0) with 1.
        rewrite Z.div_1_r, Z.mul_1_r.
        unfold Js.readsBack. rewrite <- EM. cbv zeta.
        destruct ((Z.pos m =? 2 ^ 52) && (-1074 <? e)), (Z.even (Z.pos m));
          apply andb_true_intro; split;
          first [apply Z.leb_le | apply Z.ltb_lt]; lia.
      - replace (Z.max (D - 17) 0) with (D - 17) by lia.
        now apply seventeen_digits_read_back. }
    destruct (Js.readsBack m e (M / p * p)) eqn:R1,
             (Js.readsBack m e ((M / p + 1) * p)) eqn:R2.
    + destruct (_ || _); assumption.
    + exact R1.
    + exact R2.
    + destruct H; discriminate.
  - set (p := 10 ^ Z.max (D - k) 0).
    destruct (Js.readsBack m e (M / p * p)) eqn:R1,
             (Js.readsBack m e ((M / p + 1) * p)) eqn:R2.
    + destruct (_ || _); assumption.
    + exact R1.
    + exact R2.
    + exact IH.
Qed.

Lemma shortest_reads_back m e :
  Z.pos m < 2 ^ 53 -> -1074 <= e <= 971 ->
  let M := Z.pos m * Js.unit e in
  let D := Js.digitsOf M in
  let '(s, k) := Js.firstDigits m e M D (map Z.of_nat (seq 1 17)) in
  Js.readsBack m e (s * 10 ^ Z.max (D - k) 0) = true.
Proof.
  intros Hm He M D.
  pose proof (unit_bound e He) as [U0 _].
  change (map Z.of_nat (seq 1 17))
    with (map Z.of_nat (seq 1 16) ++ [17])%list.
  apply firstDigits_reads_back; try assumption; try reflexivity.
  - pose proof (digitsOf_pos M). fold D. lia.
  - apply decimal_lower. unfold M. lia.
Qed.

(** A finite number is printed with at most 24 characters, all ASCII;
    a sign may come before them. *)
Lemma finiteToString_length m e :
  Z.pos m < 2 ^ 53 -> -1074 <= e <= 971 ->
  (String.length (Js.finiteToString m e) <= 24)%nat
  /\ ascii7 (Js.finiteToString m e) = true.
Proof.
  intros Hm He. unfold Js.finiteToString.
  pose proof (shortest_bound m e Hm He) as B.
  destruct (Js.shortest m e) as [s n]. destruct B as [Hs Hn]. cbv zeta.
  pose proof (decimal_length 17 s ltac:(lia)) as L.
  change (Z.of_nat 17) with 17 in L. specialize (L Hs).
  pose proof (ascii7_decimal s) as A.
  set (digits := Js.decimal s) in *.
  assert (Lx : (String.length (Js.decimal (Z.abs (n - 1))) <= 4)%nat).
  { apply decimal_length; [lia|]. change (10 ^ Z.of_nat 4) with 10000. lia. }
  pose proof (ascii7_decimal (Z.abs (n - 1))) as Ax.
  pose proof (length_take_drop (Z.to_nat n) digits) as T.
  pose proof (length_take_drop 1 digits) as T1.
  repeat match goal with
         | |- context [if ?b then _ else _] => destruct b eqn:?
         end;
    repeat match goal with
           | H : (_ && _) = true |- _ => apply andb_prop in H as [? ?]
           | H : (_ <=? _) = true |- _ => apply Z.leb_le in H
           | H : (_ <? _) = true |- _ => apply Z.ltb_lt in H
           | H : (_ =? _) = true |- _ => apply Z.eqb_eq in H
           | H : (_ =? _) = false |- _ => apply Z.eqb_neq in H
           end;
    (split;
     [ rewrite ?length_append, ?length_zeros; cbn [String.length]; lia
     | rewrite ?ascii7_append, ?ascii7_zeros, ?ascii7_take, ?ascii7_drop, ?A, ?Ax
         by assumption;
       reflexivity ]).
Qed.

Lemma numberToString_length x :
  Js.isNumber x = true ->
  (Js.length (Js.numberToString x) <= 25)%nat.
Proof.
  intros H. destruct x as [negative|negative| |negative m e];
    cbn [Js.numberToString].
  - cbn; lia.
  - destruct negative; cbn; lia.
  - cbn; lia.
  - destruct (isNumber_finite _ _ _ H) as [Hm He].
    destruct (finiteToString_length m e Hm He) as [L A].
    rewrite jsLength_ascii7.
    + rewrite length_append. destruct negative; cbn [String.length]; lia.
    + rewrite ascii7_append, A. now destruct negative.
Qed.

End Decimal.

(** ** The insertion-ordered map *)

Section MapFacts.

Lemma get_set_same k v m : JsMap.get k (JsMap.set k v m) = Some v.
Proof.
  induction m as [|[k' v'] m IH]; simpl.
  - now rewrite String.eqb_refl.
  - destruct (String.eqb k k') eqn:E; simpl; rewrite E; auto.
Qed.

Lemma get_set_other k k' v m :
  k <> k' -> JsMap.get k' (JsMap.set k v m) = JsMap.get k' m.
Proof.
  intros Hne. induction m as [|[k0 v0] m IH]; simpl.
  - destruct (String.eqb k' k) eqn:E; [|reflexivity].
    apply String.eqb_eq in E; congruence.
  - destruct (String.eqb k k0) eqn:E; simpl.
    + apply String.eqb_eq in E; subst k0.
      destruct (String.eqb k' k) eqn:E'; [|reflexivity].
      apply String.eqb_eq in E'; congruence.
    + now rewrite IH.
Qed.

Lemma get_delete_same k m : JsMap.get k (JsMap.delete k m) = None.
Proof.
  induction m as [|[k' v'] m IH]; simpl; [reflexivity|].
  destruct (String.eqb k k') eqn:E; simpl; [exact IH|].
  now rewrite E.
Qed.

Lemma get_In k m e : JsMap.get k m = Some e -> In (k, e) m.
Proof.
  induction m as [|[k' v'] m IH]; simpl; [discriminate|].
  destruct (String.eqb k k') eqn:E.
  - intros [= ->]. apply String.eqb_eq in E; subst; now left.
  - intros H; right; auto.
Qed.

Lemma In_delete kv k m :
  In kv (JsMap.delete k m) <-> In kv m /\ fst kv <> k.
Proof.
  unfold JsMap.delete. rewrite filter_In.
  destruct (String.eqb k (fst kv)) eqn:E; simpl.
  - apply String.eqb_eq in E. intuition congruence.
  - apply String.eqb_neq in E. intuition congruence.
Qed.

Lemma In_set kv k v m :
  In kv (JsMap.set k v m) -> kv = (k, v) \/ In kv m.
Proof.
  induction m as [|[k' v'] m IH]; simpl.
  - intros [<-|[]]; now left.
  - destruct (String.eqb k k') eqn:E; simpl.
    + apply String.eqb_eq in E; subst k'.
      intros [<-|H]; [now left | right; now right].
    + intros [<-|H]; [right; now left|].
      destruct (IH H); [now left | right; now right].
Qed.

Lemma wellKeyed_empty : wellKeyed JsMap.empty.
Proof. intros k e []. Qed.

Lemma wellKeyed_set k v m :
  Entry.hash v = k -> wellKeyed m -> wellKeyed (JsMap.set k v m).
Proof.
  intros Hk Hm k' e H. apply In_set in H as [[= -> ->]|H]; auto.
Qed.

Lemma wellKeyed_delete k m : wellKeyed m -> wellKeyed (JsMap.delete k m).
Proof.
  intros Hm k' e H. apply In_delete in H as [H _]. auto.
Qed.

End MapFacts.

(** ** The cache operations, seen from the map *)

Section CacheFacts.
Import Sys.

Lemma cache_saveCache w : cache (CommitCache.saveCache w) = cache w.
Proof. unfold CommitCache.saveCache; now destruct (writable w). Qed.

Lemma posts_saveCache w : posts (CommitCache.saveCache w) = posts w.
Proof. unfold CommitCache.saveCache; now destruct (writable w). Qed.

Lemma file_saveCache w :
  writable w = true ->
  file (CommitCache.saveCache w) = Entries (JsMap.values (cache w)).
Proof. unfold CommitCache.saveCache; now intros ->. Qed.

Lemma cache_set diff intent message w :
  cache (CommitCache.set diff intent message w)
  = JsMap.set (CommitCache.hashDiff diff)
      (Entry.mk (CommitCache.hashDiff diff) intent message (clock w) (cwd w))
      (cache w).
Proof. unfold CommitCache.set. now rewrite cache_saveCache. Qed.

Lemma posts_set diff intent message w :
  posts (CommitCache.set diff intent message w) = posts w.
Proof. unfold CommitCache.set. now rewrite posts_saveCache. Qed.

(** What [get] does, case by case. *)
Lemma get_cases diff w :
  let key := CommitCache.hashDiff diff in
  (JsMap.get key (cache w) = None /\ CommitCache.get diff w = (None, w))
  \/ (exists e, JsMap.get key (cache w) = Some e
                /\ age w e > CommitCache.CACHE_MAX_AGE
                /\ CommitCache.get diff w
                   = (None, CommitCache.saveCache
                              (withCache (JsMap.delete key (cache w)) w)))
  \/ (exists e, JsMap.get key (cache w) = Some e
                /\ age w e <= CommitCache.CACHE_MAX_AGE
                /\ CommitCache.get diff w
                   = (Some (Suggestion.mk (Entry.intent e) (Entry.message e)
                                          (Some (Entry.folder e))), w)).
Proof.
  unfold CommitCache.get, age; cbv zeta.
  destruct (JsMap.get (CommitCache.hashDiff diff) (cache w)) as [e|]; [|now left].
  right. destruct (clock w - Entry.timestamp e >? CommitCache.CACHE_MAX_AGE) eqn:E.
  - left. exists e. repeat split; auto. now apply Z.gtb_lt in E; lia.
  - right. exists e. repeat split; auto.
    rewrite Z.gtb_ltb in E. apply Z.ltb_ge in E. lia.
Qed.

Lemma posts_get diff w : posts (snd (CommitCache.get diff w)) = posts w.
Proof.
  destruct (get_cases diff w) as [[_ ->]|[(e & _ & _ & ->)|(e & _ & _ & ->)]];
    simpl; auto.
  now rewrite posts_saveCache.
Qed.

Lemma shortMessages_set k v m :
  (Js.length (Entry.message v) <= 70)%nat ->
  shortMessages m -> shortMessages (JsMap.set k v m).
Proof.
  intros Hv Hm k' e H. apply In_set in H as [[= -> ->]|H]; eauto.
Qed.

Lemma shortMessages_delete k m :
  shortMessages m -> shortMessages (JsMap.delete k m).
Proof. intros Hm k' e H. apply In_delete in H as [H _]. eauto. Qed.

Lemma shortMessages_get diff w :
  shortMessages (cache w) ->
  shortMessages (cache (snd (CommitCache.get diff w)))
  /\ forall r, fst (CommitCache.get diff w) = Some r ->
               (Js.length (Suggestion.message r) <= 70)%nat.
Proof.
  intros Hm.
  destruct (get_cases diff w) as [[_ ->]|[(e & _ & _ & ->)|(e & He & _ & ->)]];
    simpl.
  - split; [assumption | discriminate].
  - rewrite cache_saveCache. simpl.
    split; [now apply shortMessages_delete | discriminate].
  - split; [assumption|]. intros r [= <-]. simpl.
    apply get_In in He. eauto.
Qed.

End CacheFacts.

(** [cases_of_get d w G] brings in, as [G], the three ways in which the
    lookup of [d] in [w] can go. *)
Ltac cases_of_get d w G :=
  pose proof (get_cases d w) as G; cbv zeta in G.

(** ** The heuristic classifier *)

Section HeuristicFacts.
Import Heuristic.

(** C5.  The intent that [determineIntent] returns is the one selected by
    the precedence of the specification, first match first: no changes,
    Chore; bug-fix or test-fix signal, Bug Fix; test signal, Test; docs
    signal, Documentation; refactor or moved-code signal or more than
    twice as many removed as added lines, Refactor; a new function,
    class, component or endpoint, Feature; dependency or config signal,
    Chore; style or whitespace-only signal, Style; otherwise Update. *)
Theorem determineIntent_follows_precedence :
  forall (analysis : DiffAnalysis) (summary : ChangeSummary),
    determineIntent analysis summary = label (decision analysis).
Proof.
  intros [bug tfix fn cls ep comp refac ren moved docs cmt tst dels sty wsp
          cfg dep adds rems open] summary.
  unfold determineIntent, decision, precedence; cbn -[Z.mul Z.ltb Z.gtb].
  rewrite Z.gtb_ltb, (Z.mul_comm adds 2).
  generalize (2 * adds <? rems); intros shrinks.
  destruct open; simpl; [|reflexivity].
  destruct bug; simpl; [reflexivity|].
  destruct tfix; simpl; [reflexivity|].
  destruct tst; simpl; [reflexivity|].
  destruct docs; simpl; [reflexivity|].
  destruct refac; simpl; [reflexivity|].
  destruct moved; simpl; [reflexivity|].
  destruct shrinks; simpl; [reflexivity|].
  destruct fn; simpl; [reflexivity|].
  destruct cls; simpl; [reflexivity|].
  destruct comp; simpl; [reflexivity|].
  destruct ep; simpl; [reflexivity|].
  destruct dep; simpl; [reflexivity|].
  destruct cfg; simpl; [reflexivity|].
  destruct sty; simpl; [reflexivity|].
  destruct wsp; reflexivity.
Qed.

(** The flag [hasChanges] that [analyzeDiff] computes says that the two
    counts do not sum to zero. *)
Lemma analyzeDiff_hasChanges diff summary :
  let v := analyzeDiff diff summary in
  hasChanges v = (additions v + deletions v >? 0)
  /\ 0 <= additions v /\ 0 <= deletions v.
Proof. simpl. repeat split; apply Nat2Z.is_nonneg. Qed.

Lemma counted_length prefix n fileWord :
  Js.isNumber n = true ->
  (Js.length (counted prefix n fileWord)
   <= Js.length prefix + 26 + Js.length fileWord)%nat.
Proof.
  intros H. unfold counted. rewrite !jsLength_append.
  pose proof (numberToString_length n H).
  change (Js.length " ") with 1%nat. lia.
Qed.

Lemma generateMessage_length analysis intent summary :
  countIsNumber (Some summary) ->
  (Js.length (generateMessage analysis intent summary) <= 70)%nat.
Proof.
  intros Hcount. unfold generateMessage; cbv zeta.
  destruct (total summary) as [n|] eqn:Et.
  - pose proof (Hcount summary n eq_refl Et) as Hn.
    repeat match goal with
           | |- context [if ?b then _ else _] => destruct b
           end;
      try (cbn; lia);
      match goal with
      | |- (Js.length (counted ?p _ ?fw) <= _)%nat =>
          apply (Nat.le_trans _ _ _ (counted_length p n fw Hn)); cbn; lia
      end.
  - repeat match goal with
           | |- context [if ?b then _ else _] => destruct b
           end; cbn; lia.
Qed.

End HeuristicFacts.

(** ** The remote classifier *)

Section RemoteFacts.
Import Sys Llm.

Variable remote : Remote.
Variables diffHash diff : string.

Lemma parseResponse_ok response r :
  parseResponse response = Ok r ->
  let raw := snd (fold_left parseLine (Js.split Js.LF (Js.trim response)) ("", "")) in
  Suggestion.folder r = None
  /\ (Js.length (Suggestion.message r) <= 70)%nat
  /\ Suggestion.message r
     = (if (70 <? Js.length raw)%nat
        then Js.substring0 67 raw ++ "..." else raw).
Proof.
  unfold parseResponse.
  destruct (fold_left parseLine _ _) as [i m]; cbv zeta; cbn [snd].
  destruct (negb (Js.truthy i) || negb (Js.truthy m)); [discriminate|].
  remember (if (70 <? Js.length m)%nat
            then Js.substring0 67 m ++ "..." else m) as cut eqn:Hcut.
  intros [= <-]; cbn [Suggestion.message Suggestion.folder]. repeat split.
  subst cut. destruct (70 <? Js.length m)%nat eqn:E.
  - rewrite jsLength_append. pose proof (substring0_length m 67) as L.
    change (Js.length "...") with 3%nat. lia.
  - apply Nat.ltb_ge in E. exact E.
Qed.

Lemma axiosPost_world w :
  let w1 := snd (axiosPost remote diff w) in
  fst (axiosPost remote diff w) = fst (remote (posts w) diff)
  /\ cache w1 = cache w /\ posts w1 = S (posts w) /\ cwd w1 = cwd w.
Proof.
  unfold axiosPost. destruct (remote (posts w) diff) as [reply elapsed].
  simpl. auto.
Qed.

(** The [try] block returns exactly on the replies that do not fail, and
    then it has stored what it returns. *)
Lemma tryBlock_spec w :
  let w0 := snd (axiosPost remote diff w) in
  match tryBlock remote diffHash diff w with
  | (Ok r, w1) =>
      replyFails (fst (remote (posts w) diff)) = false
      /\ w1 = CommitCache.set diffHash (Suggestion.intent r) (Suggestion.message r) w0
      /\ Suggestion.folder r = None
      /\ (Js.length (Suggestion.message r) <= 70)%nat
  | (Throw _, w1) =>
      replyFails (fst (remote (posts w) diff)) = true /\ w1 = w0
  end.
Proof.
  destruct (axiosPost_world w) as (Hreply & _).
  unfold tryBlock. destruct (axiosPost remote diff w) as [reply w0].
  simpl in *. subst reply.
  destruct (fst (remote (posts w) diff)) as [[[txt|]|]|error]; simpl; auto.
  destruct (Js.truthy txt); simpl; auto.
  destruct (parseResponse txt) as [r|error] eqn:E; auto.
  destruct (parseResponse_ok _ _ E) as (Hf & Hl & _). auto.
Qed.

Lemma catchBlock_policy attempt error :
  ((attempt < maxRetries)%nat ->
     catchBlock attempt error
     = if terminal error then Break else Continue (backoff attempt))
  /\ ((maxRetries <= attempt)%nat ->
     catchBlock attempt error = Break \/ catchBlock attempt error = EndOfBody).
Proof.
  unfold catchBlock, terminal, networkCode, isAxiosError, statusIs, codeIs.
  split; intros H;
    [apply Nat.ltb_lt in H | apply Nat.ltb_ge in H]; rewrite H;
    destruct error as [[s|] [c|]|msg];
    cbn -[Z.eqb Z.leb Z.ltb Z.geb String.eqb]; auto;
    try rewrite Z.geb_leb;
    repeat match goal with
           | |- context [String.eqb ?c' ?name] => destruct (String.eqb c' name)
           | |- context [Z.ltb ?x ?bound] => destruct (Z.ltb_spec x bound)
           | |- context [Z.eqb ?x ?code] => destruct (Z.eqb_spec x code)
           | |- context [Z.leb ?bound ?x] => destruct (Z.leb_spec bound x)
           end;
    cbn -[Z.eqb Z.leb Z.ltb Z.geb String.eqb]; auto; lia.
Qed.

(** What the loop leaves behind: either a result, stored under the key
    of [diffHash], or the map as it was. *)
Lemma attempts_spec left :
  forall w,
    match attempts remote diffHash diff left w with
    | (Some r, w') =>
        Suggestion.folder r = None
        /\ (Js.length (Suggestion.message r) <= 70)%nat
        /\ exists t,
             cache w'
             = JsMap.set (CommitCache.hashDiff diffHash)
                 (Entry.mk (CommitCache.hashDiff diffHash) (Suggestion.intent r)
                           (Suggestion.message r) t (cwd w))
                 (cache w)
    | (None, w') => cache w' = cache w /\ cwd w' = cwd w
    end.
Proof.
  induction left as [|left IH]; intros w; simpl; [auto|].
  pose proof (tryBlock_spec w) as T.
  destruct (axiosPost_world w) as (_ & Hc & _ & Hd).
  destruct (tryBlock remote diffHash diff w) as [[r|error] w1].
  - destruct T as (_ & -> & Hf & Hl). repeat split; auto.
    rewrite cache_set, Hc, Hd. eauto.
  - destruct T as (_ & ->).
    destruct (catchBlock _ error) as [ms| |].
    + specialize (IH (sleep ms (snd (axiosPost remote diff w)))).
      simpl cache in IH; simpl cwd in IH. rewrite Hc, Hd in IH. exact IH.
    + auto.
    + specialize (IH (snd (axiosPost remote diff w))).
      rewrite Hc, Hd in IH. exact IH.
Qed.

Lemma attempts_all_fail left :
  forall w,
    (forall n, (posts w <= n < posts w + left)%nat ->
               replyFails (fst (remote n diff)) = true) ->
    fst (attempts remote diffHash diff left w) = None.
Proof.
  induction left as [|left IH]; intros w Hall; simpl; [reflexivity|].
  pose proof (tryBlock_spec w) as T.
  destruct (axiosPost_world w) as (_ & _ & Hp & _).
  destruct (tryBlock remote diffHash diff w) as [[r|error] w1].
  - destruct T as (Hok & _). rewrite Hall in Hok by lia. discriminate.
  - destruct T as (_ & ->).
    destruct (catchBlock _ error) as [ms| |]; [| reflexivity |];
      apply IH; intros n Hn; apply Hall; simpl in Hn; lia.
Qed.

Lemma attempts_posts left :
  forall w,
    (posts w + (if (left =? 0)%nat then 0 else 1)
     <= posts (snd (attempts remote diffHash diff left w)))%nat.
Proof.
  induction left as [|left IH]; intros w; simpl; [lia|].
  pose proof (tryBlock_spec w) as T.
  destruct (axiosPost_world w) as (_ & _ & Hp & _).
  destruct (tryBlock remote diffHash diff w) as [[r|error] w1].
  - destruct T as (_ & -> & _). simpl. rewrite posts_set. lia.
  - destruct T as (_ & ->).
    destruct (catchBlock _ error) as [ms| |]; simpl.
    + specialize (IH (sleep ms (snd (axiosPost remote diff w)))).
      simpl posts in IH. lia.
    + lia.
    + specialize (IH (snd (axiosPost remote diff w))). lia.
Qed.

End RemoteFacts.

(** ** The orchestration *)

Section Orchestration.
Import Sys Llm.

Variable remote : Remote.

(** The suggestion of the fallback classifier does not depend on the
    state of the process. *)
Lemma generateFallbackCommit_pure diff summary w w' :
  fst (generateFallbackCommit diff summary w)
  = fst (generateFallbackCommit diff summary w').
Proof. reflexivity. Qed.

Lemma countIsNumber_default summary :
  countIsNumber summary ->
  countIsNumber (Some match summary with
                   | Some s => s
                   | None => Heuristic.noSummary
                   end).
Proof.
  intros H s n [= <-] Hn. destruct summary as [s|]; [eauto | discriminate].
Qed.

Lemma generateFallbackCommit_spec diff summary w :
  let r := fst (generateFallbackCommit diff summary w) in
  Suggestion.folder r = None
  /\ cache (snd (generateFallbackCommit diff summary w))
     = JsMap.set (pipelineKey diff)
         (Entry.mk (pipelineKey diff) (Suggestion.intent r) (Suggestion.message r)
                   (clock w) (cwd w))
         (cache w)
  /\ (countIsNumber summary -> (Js.length (Suggestion.message r) <= 70)%nat).
Proof.
  unfold generateFallbackCommit, pipelineKey; cbv zeta.
  cbn [fst snd Suggestion.folder Suggestion.intent Suggestion.message].
  rewrite cache_set. repeat split.
  intros H. apply generateMessage_length. now apply countIsNumber_default.
Qed.

(** A live entry under the key of the diff answers the call: nothing is
    sent and the state is left as it was. *)
Lemma generateCommitMessage_hit diff summary w e :
  JsMap.get (pipelineKey diff) (cache w) = Some e ->
  age w e <= CommitCache.CACHE_MAX_AGE ->
  generateCommitMessage remote diff summary w
  = (Returned (Suggestion.mk (Entry.intent e) (Entry.message e)
                             (Some (Entry.folder e))), w).
Proof.
  intros He Hage. unfold generateCommitMessage; cbv zeta.
  cases_of_get (Crypto.sha1_hex diff) w G.
  fold (pipelineKey diff) in G. rewrite He in G.
  destruct G as [[G _]|[(e' & [= <-] & G & _)|(e' & [= <-] & _ & ->)]];
    [discriminate | lia | reflexivity].
Qed.

(** Whatever happens, the call returns, and what it returns is then in
    the cache under the key of the diff. *)
Lemma generateCommitMessage_stores diff summary w :
  exists r e,
    fst (generateCommitMessage remote diff summary w) = Returned r
    /\ JsMap.get (pipelineKey diff)
         (cache (snd (generateCommitMessage remote diff summary w))) = Some e
    /\ Entry.intent e = Suggestion.intent r
    /\ Entry.message e = Suggestion.message r
    /\ (fst (CommitCache.get (Crypto.sha1_hex diff) w) = None ->
        Suggestion.folder r = None).
Proof.
  unfold generateCommitMessage; cbv zeta.
  cases_of_get (Crypto.sha1_hex diff) w G.
  fold (pipelineKey diff) in G.
  assert (Hmiss :
    forall w1,
      exists r e,
        fst (let '(found, w2) :=
               attempts remote (Crypto.sha1_hex diff) diff maxRetries w1 in
             match found with
             | Some result => (Returned result, w2)
             | None =>
                 let '(result, w3) :=
                   generateFallbackCommit diff summary (warn unavailable w2) in
                 (Returned result, w3)
             end) = Returned r
        /\ JsMap.get (pipelineKey diff)
             (cache (snd (let '(found, w2) :=
               attempts remote (Crypto.sha1_hex diff) diff maxRetries w1 in
             match found with
             | Some result => (Returned result, w2)
             | None =>
                 let '(result, w3) :=
                   generateFallbackCommit diff summary (warn unavailable w2) in
                 (Returned result, w3)
             end))) = Some e
        /\ Entry.intent e = Suggestion.intent r
        /\ Entry.message e = Suggestion.message r
        /\ Suggestion.folder r = None).
  { intros w1.
    pose proof (attempts_spec remote (Crypto.sha1_hex diff) diff maxRetries w1) as A.
    destruct (attempts remote (Crypto.sha1_hex diff) diff maxRetries w1)
      as [[r|] w2].
    - destruct A as (Hf & _ & t & Hc). cbn [fst snd].
      eexists r, _. split; [reflexivity|]. rewrite Hc.
      fold (pipelineKey diff). rewrite get_set_same. auto.
    - pose proof (generateFallbackCommit_spec diff summary (warn unavailable w2)) as F.
      cbv zeta in F.
      destruct (generateFallbackCommit diff summary (warn unavailable w2))
        as [r w3].
      cbn [fst snd] in *. destruct F as (Hf & Hc & _).
      eexists r, _. split; [reflexivity|]. rewrite Hc, get_set_same. auto. }
  destruct G as [[_ ->]|[(e & _ & _ & ->)|(e & He & _ & ->)]].
  - destruct (Hmiss w) as (r & e & H1 & H2 & H3 & H4 & H5).
    exists r, e. auto.
  - destruct (Hmiss (CommitCache.saveCache
                       (withCache (JsMap.delete (pipelineKey diff) (cache w)) w)))
      as (r & e' & H1 & H2 & H3 & H4 & H5).
    exists r, e'. auto.
  - cbn [fst snd]. eexists _, e. repeat split; auto. discriminate.
Qed.

(** Short messages stay short: if every cached message fits in 70
    characters, so does the message returned, and so does every cached
    message afterwards. *)
Lemma generateCommitMessage_short diff summary w r w' :
  countIsNumber summary ->
  shortMessages (cache w) ->
  generateCommitMessage remote diff summary w = (Returned r, w') ->
  (Js.length (Suggestion.message r) <= 70)%nat /\ shortMessages (cache w').
Proof.
  intros Hplain Hshort. unfold generateCommitMessage; cbv zeta.
  destruct (shortMessages_get (Crypto.sha1_hex diff) w Hshort) as (Hs1 & Hr1).
  destruct (CommitCache.get (Crypto.sha1_hex diff) w) as [[hit|] w1];
    cbn [fst snd] in *.
  - intros [= <- <-]. auto.
  - pose proof (attempts_spec remote (Crypto.sha1_hex diff) diff maxRetries w1) as A.
    destruct (attempts remote (Crypto.sha1_hex diff) diff maxRetries w1)
      as [[r2|] w2].
    + destruct A as (_ & Hl & t & Hc). intros [= <- <-].
      split; [assumption|]. rewrite Hc. now apply shortMessages_set.
    + destruct A as (Hc & _).
      pose proof (generateFallbackCommit_spec diff summary (warn unavailable w2)) as F.
      cbv zeta in F.
      destruct (generateFallbackCommit diff summary (warn unavailable w2))
        as [r3 w3].
      cbn [fst snd] in *. destruct F as (_ & Hc3 & Hl3).
      intros [= <- <-]. split; [auto|].
      rewrite Hc3. apply shortMessages_set; [cbn; auto|].
      cbn [cache warn]. now rewrite Hc.
Qed.

End Orchestration.

(** ** Short messages, in the cache and in the file *)

Section Short.
Import Sys Llm.

Lemma short_frame w w' :
  cache w' = cache w -> file w' = file w -> short w -> short w'.
Proof. intros Hc Hf [H1 H2]. split; [now rewrite Hc | now rewrite Hf]. Qed.

Lemma short_saveCache w : short w -> short (CommitCache.saveCache w).
Proof.
  intros [Hc Hf]. unfold CommitCache.saveCache. destruct (writable w).
  - split; [exact Hc|]. cbn [file withFile shortFile].
    intros e He. apply in_map_iff in He as ([k e'] & <- & Hin). eauto.
  - split; assumption.
Qed.

Lemma short_withCache m w :
  shortMessages m -> short w -> short (withCache m w).
Proof. intros Hm [_ Hf]. split; assumption. Qed.

Lemma short_set diff intent message w :
  (Js.length message <= 70)%nat -> short w ->
  short (CommitCache.set diff intent message w).
Proof.
  intros Hl H. unfold CommitCache.set; cbv zeta.
  apply short_saveCache, short_withCache; [|exact H].
  apply shortMessages_set; [exact Hl | exact (proj1 H)].
Qed.

Lemma short_get diff w : short w -> short (snd (CommitCache.get diff w)).
Proof.
  intros H.
  destruct (get_cases diff w) as [[_ ->]|[(e & _ & _ & ->)|(e & _ & _ & ->)]];
    cbn [snd]; try exact H.
  apply short_saveCache, short_withCache; [|exact H].
  apply shortMessages_delete, H.
Qed.

Lemma short_loadCache w : shortFile (file w) -> short (CommitCache.loadCache w).
Proof.
  intros Hf. unfold CommitCache.loadCache.
  destruct (file w) as [| |es] eqn:F;
    try (split; [intros k e [] | cbn [file withCache]; now rewrite F]).
  split; [|cbn [file withCache]; now rewrite F].
  cbn [cache withCache]. cbn [shortFile] in Hf.
  assert (G : forall m, shortMessages m ->
                        shortMessages
                          (fold_left (CommitCache.loadEntry (clock w)) es m)).
  { clear F. induction es as [|e es IH]; intros m Hm; [exact Hm|].
    cbn [fold_left]. apply IH.
    - intros x Hx. apply Hf. now right.
    - unfold CommitCache.loadEntry.
      destruct (clock w - Entry.timestamp e <? CommitCache.CACHE_MAX_AGE);
        [|exact Hm].
      apply shortMessages_set; [|exact Hm]. apply Hf. now left. }
  apply G. intros k e [].
Qed.

Lemma short_clear w : short w -> short (CommitCache.clear w).
Proof.
  intros H. unfold CommitCache.clear.
  apply short_saveCache, short_withCache; [intros k e [] | exact H].
Qed.

Lemma short_tryBlock remote diffHash diff w :
  short w -> short (snd (tryBlock remote diffHash diff w)).
Proof.
  intros H. pose proof (tryBlock_spec remote diffHash diff w) as T.
  assert (H0 : short (snd (axiosPost remote diff w))).
  { unfold axiosPost. destruct (remote (posts w) diff) as [reply elapsed].
    exact H. }
  destruct (tryBlock remote diffHash diff w) as [[r|error] w1]; cbn [snd].
  - destruct T as (_ & -> & _ & Hl). now apply short_set.
  - destruct T as (_ & ->). exact H0.
Qed.

Lemma short_attempts remote diffHash diff left :
  forall w, short w -> short (snd (attempts remote diffHash diff left w)).
Proof.
  induction left as [|left IH]; intros w H; cbn [attempts]; [exact H|].
  cbv zeta. pose proof (short_tryBlock remote diffHash diff w H) as T.
  destruct (tryBlock remote diffHash diff w) as [[r|error] w1]; cbn [snd] in *.
  - exact T.
  - destruct (catchBlock _ error) as [ms| |]; [|exact T|now apply IH].
    apply IH. exact T.
Qed.

Lemma short_generateCommitMessage remote diff summary w :
  countIsNumber summary -> short w ->
  short (snd (generateCommitMessage remote diff summary w))
  /\ forall r, fst (generateCommitMessage remote diff summary w) = Returned r ->
               (Js.length (Suggestion.message r) <= 70)%nat.
Proof.
  intros Hn H. unfold generateCommitMessage; cbv zeta.
  pose proof (short_get (Crypto.sha1_hex diff) w H) as G.
  destruct (shortMessages_get (Crypto.sha1_hex diff) w (proj1 H)) as (_ & Hr).
  destruct (CommitCache.get (Crypto.sha1_hex diff) w) as [[hit|] w1];
    cbn [fst snd] in *.
  - split; [exact G|]. intros r [= <-]. now apply Hr.
  - pose proof (short_attempts remote (Crypto.sha1_hex diff) diff maxRetries w1 G)
      as A.
    pose proof (attempts_spec remote (Crypto.sha1_hex diff) diff maxRetries w1)
      as S.
    destruct (attempts remote (Crypto.sha1_hex diff) diff maxRetries w1)
      as [[r2|] w2]; cbn [fst snd] in *.
    + split; [exact A|]. intros r [= <-]. apply S.
    + pose proof (generateFallbackCommit_spec diff summary (warn unavailable w2))
        as F.
      cbv zeta in F. unfold generateFallbackCommit in *; cbv zeta in *.
      cbn [fst snd] in *. destruct F as (_ & _ & Hl).
      split.
      * apply short_set; [now apply Hl | exact A].
      * intros r [= <-]. now apply Hl.
Qed.

Lemma produced_short w : produced w -> short w.
Proof.
  induction 1 as [w F|remote diff summary w Hn _ IH|w _ IH|w _ IH|w w' _ IH Hc Hf].
  - apply short_loadCache. now rewrite F.
  - now apply short_generateCommitMessage.
  - unfold ClearCache.clearCacheCommand; cbv zeta.
    destruct (CommitCache.size (CommitCache.getStats w) =? 0)%nat; cbn [snd];
      [exact IH | now apply short_clear].
  - apply short_loadCache, IH.
  - exact (short_frame w w' Hc Hf IH).
Qed.

End Short.

(** ** The pipeline: failure, retry, idempotence, message length *)

Section Pipeline.
Import Sys Llm.

(** C1.  [generateCommitMessage] always returns and never raises; and
    when the cache has nothing for the diff and every one of the three
    requests fails, for whatever cause, what it returns is the suggestion
    of the heuristic fallback for the same diff and summary. *)
Theorem generateCommitMessage_falls_back :
  forall (remote : Remote) (diff : string)
         (summary : option Heuristic.ChangeSummary) (w : World),
    (exists r, fst (generateCommitMessage remote diff summary w) = Returned r)
    /\ (fst (CommitCache.get (Crypto.sha1_hex diff) w) = None ->
        (forall n, (posts w <= n < posts w + maxRetries)%nat ->
                   replyFails (fst (remote n diff)) = true) ->
        forall w',
          fst (generateCommitMessage remote diff summary w)
          = Returned (fst (generateFallbackCommit diff summary w'))).
Proof.
  intros remote diff summary w. split.
  - destruct (generateCommitMessage_stores remote diff summary w)
      as (r & _ & H & _). now exists r.
  - intros Hmiss Hall w'. unfold generateCommitMessage; cbv zeta.
    pose proof (posts_get (Crypto.sha1_hex diff) w) as Hp.
    destruct (CommitCache.get (Crypto.sha1_hex diff) w) as [cached w1].
    cbn [fst snd] in *. subst cached.
    pose proof (attempts_all_fail remote (Crypto.sha1_hex diff) diff maxRetries w1) as A.
    rewrite Hp in A. specialize (A Hall).
    destruct (attempts remote (Crypto.sha1_hex diff) diff maxRetries w1)
      as [found w2].
    cbn [fst] in A. subst found. reflexivity.
Qed.

Lemma generateCommitMessage_falls_back_witness :
  fst (generateCommitMessage Sample.failing500 Sample.diff None Sample.emptyWorld)
  = Returned (fst (generateFallbackCommit Sample.diff None Sample.emptyWorld)).
Proof.
  apply (proj2 (generateCommitMessage_falls_back
                  Sample.failing500 Sample.diff None Sample.emptyWorld)).
  - reflexivity.
  - intros n _. reflexivity.
Defined.

(** C2, as the code has it.  After an attempt that fails, the loop stops
    without a further attempt exactly when the failure is terminal (an
    HTTP error whose status is not 0, below 500 and not 429) or when it
    was the third attempt; after every other failure (429, 5xx, a network
    failure, but also a malformed response or any other error) it waits
    for the backoff delay and makes the next attempt, which sends a
    further request. *)
Theorem attempts_retry_policy :
  forall (remote : Remote) (diffHash diff : string) (left : nat)
         (w w1 : World) (error : Failure),
    (left < maxRetries)%nat ->
    tryBlock remote diffHash diff w = (Throw error, w1) ->
    attempts remote diffHash diff (S left) w
    = (if terminal error || (left =? 0)%nat
       then (None, w1)
       else attempts remote diffHash diff left
              (sleep (backoff (maxRetries - left)) w1))
    /\ (terminal error || (left =? 0)%nat = false ->
        (posts w1 < posts (snd (attempts remote diffHash diff (S left) w)))%nat).
Proof.
  intros remote diffHash diff left w w1 error Hleft Htry.
  assert (E : attempts remote diffHash diff (S left) w
              = (if terminal error || (left =? 0)%nat
                 then (None, w1)
                 else attempts remote diffHash diff left
                        (sleep (backoff (maxRetries - left)) w1))).
  { cbn [attempts]. rewrite Htry.
    replace (S maxRetries - S left)%nat with (maxRetries - left)%nat by lia.
    destruct (catchBlock_policy (maxRetries - left) error) as [Hlt Hge].
    destruct left as [|left].
    - rewrite orb_true_r.
      destruct Hge as [-> | ->]; [lia | reflexivity | reflexivity].
    - rewrite Hlt by lia. cbn [Nat.eqb]. rewrite orb_false_r.
      now destruct (terminal error). }
  split; [exact E|].
  intros Hgo. rewrite E, Hgo.
  pose proof (attempts_posts remote diffHash diff left
                (sleep (backoff (maxRetries - left)) w1)) as P.
  apply orb_false_elim in Hgo as [_ Hgo]. rewrite Hgo in P.
  cbn [posts sleep] in P. lia.
Qed.

Lemma attempts_retry_policy_witness :
  let dh := Crypto.sha1_hex Sample.diff in
  let w1 := snd (tryBlock Sample.failing500 dh Sample.diff Sample.emptyWorld) in
  attempts Sample.failing500 dh Sample.diff 3 Sample.emptyWorld
  = attempts Sample.failing500 dh Sample.diff 2 (sleep 1000 w1)
  /\ (posts w1
      < posts (snd (attempts Sample.failing500 dh Sample.diff 3 Sample.emptyWorld)))%nat.
Proof.
  intros dh w1.
  destruct (attempts_retry_policy Sample.failing500 dh Sample.diff 2
              Sample.emptyWorld w1 (AxiosError (Some 500) None)) as [E P].
  - unfold maxRetries; lia.
  - reflexivity.
  - split; [exact E | apply P; reflexivity].
Defined.

(** C2, as stated, fails: a malformed response is not one of the failures
    the specification calls retryable, and the call goes on to a second
    request all the same, whose answer it returns. *)
Lemma malformed_response_is_retried :
  fst (tryBlock Sample.malformedThenValid (Crypto.sha1_hex Sample.diff)
                Sample.diff Sample.emptyWorld)
  = Throw (OtherError "Invalid response format from LLM")
  /\ retryableBySpec (OtherError "Invalid response format from LLM") = false
  /\ posts (snd (generateCommitMessage Sample.malformedThenValid Sample.diff None
                   Sample.emptyWorld)) = 2%nat
  /\ fst (generateCommitMessage Sample.malformedThenValid Sample.diff None
            Sample.emptyWorld)
     = Returned (Suggestion.mk "Feature" "Add sum helper" None).
Proof. vm_compute. repeat split. Qed.

(** A non-429 4xx, on the other hand, ends the call after one request. *)
Lemma client_error_is_not_retried :
  posts (snd (generateCommitMessage Sample.failing404 Sample.diff None
                Sample.emptyWorld)) = 1%nat.
Proof. vm_compute. reflexivity. Qed.

(** C3.  Once a call has returned, a second call with the same diff made
    while the cached entry is within its 30-day window returns the same
    [CommitSuggestion] (the same intent and the same message), sends no
    request and leaves the state as it was, whatever the service would
    answer. *)
Theorem generateCommitMessage_idempotent :
  forall (remote remote' : Remote) (diff : string)
         (summary summary' : option Heuristic.ChangeSummary)
         (w w1 : World) (c1 : Completion) (t2 : Z),
    generateCommitMessage remote diff summary w = (c1, w1) ->
    withinTTL t2 diff w1 = true ->
    exists r1 r2,
      c1 = Returned r1
      /\ generateCommitMessage remote' diff summary' (withClock t2 w1)
         = (Returned r2, withClock t2 w1)
      /\ asCommitSuggestion r2 = asCommitSuggestion r1
      /\ posts (withClock t2 w1) = posts w1.
Proof.
  intros remote remote' diff summary summary' w w1 c1 t2 Hfirst Hlive.
  destruct (generateCommitMessage_stores remote diff summary w)
    as (r1 & e & Hr & He & Hi & Hm & _).
  rewrite Hfirst in Hr, He; cbn [fst snd] in Hr, He.
  unfold withinTTL in Hlive. rewrite He in Hlive. apply Z.leb_le in Hlive.
  exists r1, (Suggestion.mk (Entry.intent e) (Entry.message e)
                            (Some (Entry.folder e))).
  split; [exact Hr|]. split.
  - apply generateCommitMessage_hit; [exact He | exact Hlive].
  - unfold asCommitSuggestion; cbn [Suggestion.intent Suggestion.message].
    rewrite Hi, Hm. split; reflexivity.
Qed.

Lemma generateCommitMessage_idempotent_witness :
  let first :=
    generateCommitMessage Sample.malformedThenValid Sample.diff None
                          Sample.emptyWorld in
  let later := withClock (clock (snd first) + 29 * Sample.day) (snd first) in
  exists r1 r2,
    fst first = Returned r1
    /\ generateCommitMessage Sample.failing500 Sample.diff None later
       = (Returned r2, later)
    /\ asCommitSuggestion r2 = asCommitSuggestion r1
    /\ posts later = posts (snd first).
Proof.
  intros first later.
  apply (generateCommitMessage_idempotent
           Sample.malformedThenValid Sample.failing500 Sample.diff None None
           Sample.emptyWorld (snd first) (fst first)
           (clock (snd first) + 29 * Sample.day)).
  - subst first. now destruct (generateCommitMessage _ _ _ _).
  - vm_compute. reflexivity.
Defined.

End Pipeline.

Section Messages.
Import Sys Llm.

Lemma clock_saveCache w : clock (CommitCache.saveCache w) = clock w.
Proof. unfold CommitCache.saveCache; now destruct (writable w). Qed.

(** C4.  Every message the pipeline produces has at most 70 characters,
    counted as [length] counts them: the message [parseResponse] returns
    is the parsed one when that has at most 70 characters and otherwise
    its first 67 characters followed by three dots; every template of
    [generateMessage], for any analysis, any intent and any number as
    file count, has at most 70 characters; and so has every message that
    [generateCommitMessage] returns, computed or found in the cache, in
    every state that the pipeline reaches from a start without a cache
    file. *)
Theorem message_length_at_most_70 :
  (forall response r,
      parseResponse response = Ok r ->
      let raw :=
        snd (fold_left parseLine (Js.split Js.LF (Js.trim response)) ("", "")) in
      (Js.length (Suggestion.message r) <= 70)%nat
      /\ Suggestion.message r
         = (if (70 <? Js.length raw)%nat
            then Js.substring0 67 raw ++ "..." else raw))
  /\ (forall analysis intent summary,
        countIsNumber (Some summary) ->
        (Js.length (Heuristic.generateMessage analysis intent summary) <= 70)%nat)
  /\ (forall w remote diff summary r w',
        produced w ->
        countIsNumber summary ->
        generateCommitMessage remote diff summary w = (Returned r, w') ->
        (Js.length (Suggestion.message r) <= 70)%nat).
Proof.
  split; [|split].
  - intros response r H. destruct (parseResponse_ok response r H) as (_ & L & E).
    split; assumption.
  - intros analysis intent summary. apply generateMessage_length.
  - intros w remote diff summary r w' Hw Hn E.
    destruct (short_generateCommitMessage remote diff summary w Hn
                (produced_short w Hw)) as [_ L].
    apply L. now rewrite E.
Qed.

Lemma message_length_at_most_70_witness :
  match parseResponse Sample.longPayload with
  | Ok r => (Js.length (Suggestion.message r) <= 70)%nat
  | Throw _ => False
  end
  /\ (Js.length
        (Heuristic.generateMessage
           (Heuristic.analyzeDiff Sample.diff Sample.manyFiles)
           "Feature" Sample.manyFiles) <= 70)%nat
  /\ (Js.length
        (match fst (generateCommitMessage Sample.failing500 Sample.diff
                      (Some Sample.threeFiles)
                      (CommitCache.loadCache Sample.emptyWorld)) with
         | Returned r => Suggestion.message r
         | Raised msg => msg
         end) <= 70)%nat.
Proof.
  destruct message_length_at_most_70 as (P & G & C).
  split; [|split].
  - destruct (parseResponse Sample.longPayload) as [r|error] eqn:E.
    + destruct (P _ _ E) as [L _]. exact L.
    + vm_compute in E. discriminate E.
  - apply G. intros s n [= <-] H. vm_compute in H. injection H as <-. reflexivity.
  - destruct (generateCommitMessage Sample.failing500 Sample.diff
                (Some Sample.threeFiles)
                (CommitCache.loadCache Sample.emptyWorld)) as [[r|msg] w'] eqn:E.
    + cbn [fst].
      refine (C _ _ _ _ _ _ _ _ E).
      * apply produced_start. reflexivity.
      * intros s n [= <-] H. vm_compute in H. injection H as <-. reflexivity.
    + vm_compute in E. discriminate E.
Defined.

(** C10.  What [get] returns on a hit is the stored intent and message
    together with the stored folder; [generateCommitMessage] returns
    that object as it is, so the result of a hit has a [folder], while
    the result of a miss, computed by the service or by the fallback, has
    none.  The folder is the working directory at the time of [set]. *)
Theorem cache_hit_carries_folder :
  forall (remote : Remote) (diff : string)
         (summary : option Heuristic.ChangeSummary) (w : World),
    (forall hit,
        fst (CommitCache.get diff w) = Some hit ->
        exists e,
          JsMap.get (CommitCache.hashDiff diff) (cache w) = Some e
          /\ hit = Suggestion.mk (Entry.intent e) (Entry.message e)
                                 (Some (Entry.folder e)))
    /\ (forall hit,
          fst (CommitCache.get (Crypto.sha1_hex diff) w) = Some hit ->
          generateCommitMessage remote diff summary w = (Returned hit, w)
          /\ Suggestion.folder hit <> None)
    /\ (fst (CommitCache.get (Crypto.sha1_hex diff) w) = None ->
        exists r,
          fst (generateCommitMessage remote diff summary w) = Returned r
          /\ Suggestion.folder r = None)
    /\ (forall intent message,
          fst (CommitCache.get diff (CommitCache.set diff intent message w))
          = Some (Suggestion.mk intent message (Some (cwd w)))).
Proof.
  intros remote diff summary w. repeat split.
  - intros hit H.
    cases_of_get diff w G.
    destruct G as [[_ G]|[(e & _ & _ & G)|(e & He & _ & G)]];
      rewrite G in H; cbn [fst] in H; try discriminate.
    injection H as <-. now exists e.
  - cases_of_get (Crypto.sha1_hex diff) w G.
    destruct G as [[_ G]|[(e & _ & _ & G)|(e & He & Hage & G)]];
      rewrite G in H; cbn [fst] in H; try discriminate.
    injection H as <-.
    now apply generateCommitMessage_hit.
  - cases_of_get (Crypto.sha1_hex diff) w G.
    destruct G as [[_ G]|[(e & _ & _ & G)|(e & He & Hage & G)]];
      rewrite G in H; cbn [fst] in H; try discriminate.
    injection H as <-. discriminate.
  - intros Hmiss.
    destruct (generateCommitMessage_stores remote diff summary w)
      as (r & _ & Hr & _ & _ & _ & Hf).
    exists r. auto.
  - intros intent message. unfold CommitCache.get; cbv zeta.
    rewrite cache_set, get_set_same.
    cbn [Entry.timestamp Entry.intent Entry.message Entry.folder].
    unfold CommitCache.set at 1; cbv zeta. rewrite clock_saveCache.
    cbn [clock withCache]. rewrite Z.sub_diag. reflexivity.
Qed.

Lemma cache_hit_carries_folder_witness :
  let cached :=
    snd (generateCommitMessage Sample.failing500 Sample.diff None
                               Sample.emptyWorld) in
  (exists hit,
      generateCommitMessage Sample.failing500 Sample.diff None cached
      = (Returned hit, cached)
      /\ Suggestion.folder hit <> None)
  /\ (exists r,
        fst (generateCommitMessage Sample.failing500 Sample.diff None
                                   Sample.emptyWorld) = Returned r
        /\ Suggestion.folder r = None).
Proof.
  intros cached. split.
  - destruct (CommitCache.get (Crypto.sha1_hex Sample.diff) cached)
      as [[hit|] w'] eqn:E.
    + exists hit.
      apply (proj1 (proj2 (cache_hit_carries_folder
                             Sample.failing500 Sample.diff None cached))).
      now rewrite E.
    + vm_compute in E. discriminate E.
  - apply (proj1 (proj2 (proj2 (cache_hit_carries_folder
                                  Sample.failing500 Sample.diff None
                                  Sample.emptyWorld)))).
    reflexivity.
Defined.

End Messages.

(** ** Digests *)

Section Digests.
Import Crypto.

Lemma hexDigit_clean d :
  0 <= d < 16 -> visible (hexDigit d) = true.
Proof.
  intros H.
  assert (All : forallb (fun k => visible (hexDigit (Z.of_nat k)))
                        (seq 0 16) = true) by reflexivity.
  rewrite forallb_forall in All.
  specialize (All (Z.to_nat d)). rewrite Z2Nat.id in All by lia.
  apply All, in_seq. lia.
Qed.

Lemma nibble_clean x i : visible (nibble x i) = true.
Proof. apply hexDigit_clean, Z.mod_pos_bound. lia. Qed.

Lemma hexWords_clean ws : clean (hexWords ws) = true.
Proof.
  induction ws as [|x ws IH]; [reflexivity|].
  cbn [hexWords hex8 clean]. now rewrite !nibble_clean, IH.
Qed.

Lemma hexWords_length ws :
  String.length (hexWords ws) = (8 * List.length ws)%nat.
Proof.
  induction ws as [|x ws IH]; [reflexivity|].
  cbn [hexWords hex8 String.length List.length]. rewrite IH. lia.
Qed.

Lemma sha1_hex_clean s : clean (sha1_hex s) = true.
Proof.
  unfold sha1_hex. destruct (sha1_state s) as [[[[a b] c] d] e].
  apply hexWords_clean.
Qed.

Lemma addWords_length xs : forall ys,
  List.length (addWords xs ys) = List.length xs.
Proof.
  induction xs as [|x xs IH]; intros [|y ys]; simpl; auto.
Qed.

Lemma sha256_state_length s : List.length (sha256_state s) = 8%nat.
Proof.
  unfold sha256_state.
  assert (H : forall blks h,
             List.length h = 8%nat ->
             List.length (fold_left compress256 blks h) = 8%nat).
  { induction blks as [|b blks IH]; intros h Hh; [exact Hh|].
    cbn [fold_left]. apply IH. unfold compress256.
    now rewrite addWords_length. }
  now apply H.
Qed.

(** The digest of the cache has 64 hexadecimal digits: 256 bits. *)
Lemma hashDiff_length diff : String.length (CommitCache.hashDiff diff) = 64%nat.
Proof.
  unfold CommitCache.hashDiff, sha256_hex.
  now rewrite hexWords_length, sha256_state_length.
Qed.

Lemma pipelineKey_unfold diff :
  pipelineKey diff = sha256_hex (sha1_hex diff).
Proof.
  unfold pipelineKey, CommitCache.hashDiff.
  now rewrite (trim_clean _ (sha1_hex_clean diff)).
Qed.

End Digests.

(** ** Sorting by recency *)

Section Recency.
Import CommitCache.

Lemma insertByRecency_perm e l : Permutation (insertByRecency e l) (e :: l).
Proof.
  induction l as [|x l IH]; simpl; [reflexivity|].
  destruct (Entry.timestamp x <=? Entry.timestamp e); [reflexivity|].
  rewrite IH. apply perm_swap.
Qed.

Lemma sortByRecency_perm l : Permutation (sortByRecency l) l.
Proof.
  induction l as [|x l IH]; simpl; [reflexivity|].
  rewrite insertByRecency_perm. now constructor.
Qed.

Lemma insertByRecency_sorted e l :
  Sorted newerFirst l -> Sorted newerFirst (insertByRecency e l).
Proof.
  induction l as [|x l IH]; intros Hs; simpl.
  - repeat constructor.
  - destruct (Z.leb_spec (Entry.timestamp x) (Entry.timestamp e)) as [Hle|Hgt].
    + constructor; [assumption|]. constructor. exact Hle.
    + apply Sorted_inv in Hs as [Hs Hhd].
      constructor; [now apply IH|].
      destruct l as [|y l]; simpl.
      * constructor. unfold newerFirst. lia.
      * destruct (Entry.timestamp y <=? Entry.timestamp e).
        -- constructor. unfold newerFirst. lia.
        -- constructor. now inversion Hhd.
Qed.

Lemma sortByRecency_sorted l : Sorted newerFirst (sortByRecency l).
Proof.
  induction l as [|x l IH]; simpl; [constructor|].
  now apply insertByRecency_sorted.
Qed.

Lemma newerFirst_trans : Relations_1.Transitive newerFirst.
Proof. intros a b c; unfold newerFirst; lia. Qed.

Lemma sortByRecency_stronglySorted l :
  StronglySorted newerFirst (sortByRecency l).
Proof.
  apply Sorted_StronglySorted; [exact newerFirst_trans|].
  apply sortByRecency_sorted.
Qed.

Lemma In_getHistory w e :
  In e (getHistory w) <-> In e (JsMap.values (Sys.cache w)).
Proof.
  unfold getHistory. split; apply Permutation_in;
    [|symmetry]; apply sortByRecency_perm.
Qed.

End Recency.

(** ** The result cache *)

Section ResultCache.
Import Sys CommitCache.

(** Maps built by the code are well keyed. *)
Lemma wellKeyed_loadCache w : wellKeyed (cache (loadCache w)).
Proof.
  unfold loadCache.
  destruct (file w) as [| |es]; cbn [cache withCache];
    try apply wellKeyed_empty.
  assert (H : forall m, wellKeyed m ->
                        wellKeyed (fold_left (loadEntry (clock w)) es m)).
  { induction es as [|e es IH]; intros m Hm; [exact Hm|].
    cbn [fold_left]. apply IH. unfold loadEntry.
    destruct (clock w - Entry.timestamp e <? CACHE_MAX_AGE); [|exact Hm].
    now apply wellKeyed_set. }
  apply H, wellKeyed_empty.
Qed.

Lemma wellKeyed_after_set diff intent message w :
  wellKeyed (cache w) -> wellKeyed (cache (set diff intent message w)).
Proof. intros H. rewrite cache_set. now apply wellKeyed_set. Qed.

Lemma wellKeyed_after_get diff w :
  wellKeyed (cache w) -> wellKeyed (cache (snd (get diff w))).
Proof.
  intros H.
  destruct (get_cases diff w) as [[_ ->]|[(e & _ & _ & ->)|(e & _ & _ & ->)]];
    cbn [snd]; auto.
  rewrite cache_saveCache. now apply wellKeyed_delete.
Qed.

Lemma wellKeyed_after_generateCommitMessage remote diff summary w :
  wellKeyed (cache w) ->
  wellKeyed (cache (snd (Llm.generateCommitMessage remote diff summary w))).
Proof.
  intros H. unfold Llm.generateCommitMessage; cbv zeta.
  pose proof (wellKeyed_after_get (Crypto.sha1_hex diff) w H) as H1.
  destruct (get (Crypto.sha1_hex diff) w) as [[hit|] w1]; cbn [snd] in *;
    [assumption|].
  pose proof (attempts_spec remote (Crypto.sha1_hex diff) diff Llm.maxRetries w1) as A.
  destruct (Llm.attempts remote (Crypto.sha1_hex diff) diff Llm.maxRetries w1)
    as [[r|] w2].
  - destruct A as (_ & _ & t & Hc). cbn [snd]. rewrite Hc.
    now apply wellKeyed_set.
  - destruct A as (Hc & _).
    pose proof (generateFallbackCommit_spec diff summary
                  (warn Llm.unavailable w2)) as F.
    cbv zeta in F.
    destruct (Llm.generateFallbackCommit diff summary (warn Llm.unavailable w2))
      as [r3 w3].
    cbn [fst snd] in *. destruct F as (_ & Hc3 & _). rewrite Hc3.
    apply wellKeyed_set; [reflexivity|]. cbn [cache warn]. now rewrite Hc.
Qed.

(** Entries are admitted at start-up only while younger than 30 days. *)
Lemma loadCache_young w e :
  In e (JsMap.values (cache (loadCache w))) ->
  clock w - Entry.timestamp e < CACHE_MAX_AGE.
Proof.
  unfold loadCache.
  destruct (file w) as [| |es]; cbn [cache withCache]; try (intros []).
  assert (H : forall m,
             (forall k x, In (k, x) m ->
                          clock w - Entry.timestamp x < CACHE_MAX_AGE) ->
             forall k x, In (k, x) (fold_left (loadEntry (clock w)) es m) ->
                         clock w - Entry.timestamp x < CACHE_MAX_AGE).
  { induction es as [|a es IH]; intros m Hm; [exact Hm|].
    cbn [fold_left]. apply IH. unfold loadEntry.
    destruct (Z.ltb_spec (clock w - Entry.timestamp a) CACHE_MAX_AGE);
      [|exact Hm].
    intros k x Hin. apply In_set in Hin as [[= -> ->]|Hin]; eauto. }
  unfold JsMap.values. rewrite in_map_iff. intros ([k x] & <- & Hin).
  apply (H JsMap.empty) with (k := k); [intros ? ? []|exact Hin].
Qed.

(** What the code has.  The digest of the cache is the SHA-256 of its
    trimmed argument, 64 hexadecimal digits, so that arguments equal
    after trimming have equal digests.  The pipeline does not pass the
    diff text to the cache but the SHA-1 of the untrimmed diff text: its
    key is the SHA-256 of that SHA-1, and it is under this key that the
    result of a call is stored. *)
Lemma digest_of_the_pipeline :
  (forall d1 d2, Js.trim d1 = Js.trim d2 -> hashDiff d1 = hashDiff d2)
  /\ (forall d, String.length (hashDiff d) = 64%nat)
  /\ (forall diff,
        pipelineKey diff = Crypto.sha256_hex (Crypto.sha1_hex diff))
  /\ (forall remote diff summary w,
        JsMap.get (Crypto.sha256_hex (Crypto.sha1_hex diff))
          (cache (snd (Llm.generateCommitMessage remote diff summary w)))
        <> None).
Proof.
  repeat split.
  - intros d1 d2 H. unfold hashDiff. now rewrite H.
  - apply hashDiff_length.
  - apply pipelineKey_unfold.
  - intros remote diff summary w.
    destruct (generateCommitMessage_stores remote diff summary w)
      as (r & e & _ & He & _).
    rewrite <- pipelineKey_unfold, He. discriminate.
Qed.

(** C6.  The pipeline does not give equal keys to diff texts that are
    equal after trimming, although [hashDiff] trims its argument to that
    end: [generateCommitMessage] hands it the SHA-1 of the untrimmed text.
    For the sample diff and the same diff followed by a line feed, the
    trimmed texts are equal and [hashDiff] gives them one digest, yet the
    keys of the pipeline differ, the result cached for the first is not
    found for the second, and the second call sends requests again. *)
Theorem whitespace_changes_the_key :
  let d1 := Sample.diff in
  let d2 := (Sample.diff ++ Sample.newline)%string in
  let w1 :=
    snd (Llm.generateCommitMessage Sample.failing500 d1 None Sample.emptyWorld) in
  Js.trim d1 = Js.trim d2
  /\ hashDiff d1 = hashDiff d2
  /\ pipelineKey d1 <> pipelineKey d2
  /\ JsMap.get (pipelineKey d1) (cache w1) <> None
  /\ JsMap.get (pipelineKey d2) (cache w1) = None
  /\ posts (snd (Llm.generateCommitMessage Sample.failing500 d2 None w1))
     <> posts w1.
Proof. vm_compute. repeat split; discriminate. Qed.

(** C7.  A lookup that finds an entry older than 30 days returns
    nothing, removes the entry from the map, so that it is in no later
    snapshot or history, and saves the map without it: [saveCache]
    rewrites the cache file with what is left (a write that fails is
    caught and logged).  And a lookup never returns an entry older than
    30 days. *)
Theorem expired_entry_is_evicted :
  forall (diff : string) (w : World),
    (forall e,
        JsMap.get (hashDiff diff) (cache w) = Some e ->
        age w e > CACHE_MAX_AGE ->
        wellKeyed (cache w) ->
        let w' := snd (get diff w) in
        get diff w
        = (None, saveCache (withCache (JsMap.delete (hashDiff diff) (cache w)) w))
        /\ JsMap.get (hashDiff diff) (cache w') = None
        /\ ~ In e (JsMap.values (cache w'))
        /\ ~ In e (getHistory w')
        /\ (writable w = true -> file w' = Entries (JsMap.values (cache w'))))
    /\ (forall hit,
          fst (get diff w) = Some hit ->
          exists e,
            JsMap.get (hashDiff diff) (cache w) = Some e
            /\ age w e <= CACHE_MAX_AGE
            /\ Suggestion.intent hit = Entry.intent e
            /\ Suggestion.message hit = Entry.message e).
Proof.
  intros diff w. split.
  - intros e He Hage Hkeys.
    cases_of_get diff w G.
    rewrite He in G.
    destruct G as [[G _]|[(e' & [= <-] & _ & G)|(e' & [= <-] & G & _)]];
      [discriminate | | lia].
    rewrite G; cbn [fst snd]. rewrite cache_saveCache; cbn [cache withCache].
    split; [reflexivity|].
    assert (Hout : ~ In e (JsMap.values (JsMap.delete (hashDiff diff) (cache w)))).
    { unfold JsMap.values. rewrite in_map_iff. intros ([k x] & Hx & Hin).
      cbn [snd] in Hx. subst x.
      apply In_delete in Hin as [Hin Hk]. cbn [fst] in Hk.
      apply Hk. rewrite <- (Hkeys _ _ Hin).
      apply get_In in He. exact (Hkeys _ _ He). }
    split; [apply get_delete_same|].
    split; [exact Hout|].
    split; [rewrite In_getHistory, cache_saveCache; exact Hout|].
    intros Hw. apply file_saveCache. exact Hw.
  - intros hit H.
    cases_of_get diff w G.
    destruct G as [[_ G]|[(e & _ & _ & G)|(e & He & Hage & G)]];
      rewrite G in H; cbn [fst] in H; try discriminate.
    injection H as <-. exists e. auto.
Qed.

Lemma expired_entry_is_evicted_witness :
  let w' := snd (get "old" Sample.laterWorld) in
  get "old" Sample.laterWorld
  = (None,
     saveCache (withCache (JsMap.delete (hashDiff "old") (cache Sample.laterWorld))
                          Sample.laterWorld))
  /\ JsMap.get (hashDiff "old") (cache w') = None
  /\ ~ In Sample.oldEntry (JsMap.values (cache w'))
  /\ ~ In Sample.oldEntry (getHistory w')
  /\ file w' = Entries (JsMap.values (cache w')).
Proof.
  destruct (proj1 (expired_entry_is_evicted "old" Sample.laterWorld)
              Sample.oldEntry) as (A & B & C & D & E).
  - vm_compute. reflexivity.
  - vm_compute. reflexivity.
  - vm_compute. intros k e [H|[]]. injection H as <- <-. reflexivity.
  - repeat split; auto.
Defined.

(** C8, as the code has it.  [getHistory] returns the entries held in
    the map, all of them, most recent first, and [getStats] counts them.
    The 30-day limit is applied when the file is loaded (only entries
    younger than 30 days are admitted) and by [get] to the entry it looks
    up; it is not applied when the snapshot is taken. *)
Theorem history_is_the_sorted_map :
  forall w : World,
    Permutation (getHistory w) (JsMap.values (cache w))
    /\ StronglySorted newerFirst (getHistory w)
    /\ size (getStats w) = List.length (JsMap.values (cache w))
    /\ (forall e, In e (getHistory (loadCache w)) ->
                  age w e < CACHE_MAX_AGE).
Proof.
  intros w. repeat split.
  - apply sortByRecency_perm.
  - apply sortByRecency_stronglySorted.
  - unfold getStats, JsMap.values, JsMap.size; cbn [size].
    now rewrite length_map.
  - intros e H. apply In_getHistory in H. now apply loadCache_young.
Qed.

Lemma history_is_the_sorted_map_witness :
  age (withFile (Entries [Sample.oldEntry]) Sample.emptyWorld) Sample.oldEntry
  < CACHE_MAX_AGE.
Proof.
  apply (proj2 (proj2 (proj2 (history_is_the_sorted_map
           (withFile (Entries [Sample.oldEntry]) Sample.emptyWorld))))).
  vm_compute. left. reflexivity.
Defined.

(** C8, as stated, fails: an entry admitted at start-up a millisecond
    before it turns 30 days old is still in the snapshot and in the
    history two milliseconds later, when it is older than 30 days. *)
Lemma expired_entry_in_history :
  In Sample.oldEntry (JsMap.values (cache Sample.laterWorld))
  /\ In Sample.oldEntry (getHistory Sample.laterWorld)
  /\ getStats Sample.laterWorld = mkStats 1 (Some 0)
  /\ age Sample.laterWorld Sample.oldEntry > CACHE_MAX_AGE.
Proof. vm_compute. repeat split; left; reflexivity. Qed.

(** C9.  The clear-cache command leaves the map empty and reports the
    number of entries that were in it; [clear] empties the map (and the
    file, when it can be written); after it no lookup finds anything. *)
Theorem clear_removes_every_entry :
  forall w : World,
    let printed := fst (ClearCache.clearCacheCommand w) in
    let w' := snd (ClearCache.clearCacheCommand w) in
    cache w' = JsMap.empty
    /\ reportedCount printed = List.length (JsMap.values (cache w))
    /\ cache (clear w) = JsMap.empty
    /\ (writable w = true -> file (clear w) = Entries [])
    /\ (forall diff t,
          get diff (withClock t w') = (None, withClock t w')
          /\ get diff (withClock t (clear w)) = (None, withClock t (clear w))).
Proof.
  intros w. unfold ClearCache.clearCacheCommand, getStats; cbn [size].
  assert (Hclear : cache (clear w) = JsMap.empty).
  { unfold clear. now rewrite cache_saveCache. }
  assert (Hget : forall diff t w0,
             cache w0 = JsMap.empty ->
             get diff (withClock t w0) = (None, withClock t w0)).
  { intros diff t w0 H0. unfold get; cbn [cache withClock]. now rewrite H0. }
  unfold JsMap.values, JsMap.size. rewrite length_map.
  destruct (cache w) as [|kv m] eqn:Ec; cbn [List.length Nat.eqb fst snd].
  - repeat split; auto.
    intros Hw. unfold clear. rewrite file_saveCache by exact Hw. reflexivity.
  - repeat split; auto.
    intros Hw. unfold clear. rewrite file_saveCache by exact Hw. reflexivity.
Qed.

Lemma clear_removes_every_entry_witness :
  file (clear Sample.startedWorld) = Entries [].
Proof.
  apply (proj1 (proj2 (proj2 (proj2
           (clear_removes_every_entry Sample.startedWorld))))).
  reflexivity.
Defined.

End ResultCache.

(** ** Checks on concrete inputs *)

Section Checks.
Import Sys.

(** The digests agree with the test vectors of FIPS 180-4. *)
Example sha1_abc :
  Crypto.sha1_hex "abc" = "a9993e364706816aba3e25717850c26c9cd0d89d".
Proof. vm_compute. reflexivity. Qed.

Example sha1_empty :
  Crypto.sha1_hex "" = "da39a3ee5e6b4b0d3255bfef95601890afd80709".
Proof. vm_compute. reflexivity. Qed.

Example sha1_two_blocks :
  Crypto.sha1_hex "abcdbcdecdefdefgefghfghighijhijkijkljklmklmnlmnomnopnopq"
  = "84983e441c3bd26ebaae4aa1f95129e5e54670f1".
Proof. vm_compute. reflexivity. Qed.

Example sha256_abc :
  Crypto.sha256_hex "abc"
  = "ba7816bf8f01cfea414140de5dae2223b00361a396177a9cb410ff61f20015ad".
Proof. vm_compute. reflexivity. Qed.

Example sha256_empty :
  Crypto.sha256_hex ""
  = "e3b0c44298fc1c149afbf4c8996fb92427ae41e4649b934ca495991b7852b855".
Proof. vm_compute. reflexivity. Qed.

Example sha256_two_blocks :
  Crypto.sha256_hex "abcdbcdecdefdefgefghfghighijhijkijkljklmklmnlmnomnopnopq"
  = "248d6a61d20638b8e5c026930c3e6039a33ce45964ff2167f6ecedd419db06c1".
Proof. vm_compute. reflexivity. Qed.

(** The file names of a diff, in the order of their headers. *)
Example extractFilesFromDiff_sample :
  Heuristic.extractFilesFromDiff
    ("diff --git a/x b/y b/z" ++ Sample.newline
     ++ "diff --git a/README.md b/README.md" ++ Sample.newline
     ++ "diff --git a/x b/y b/z")
  = ["y b/z"; "README.md"].
Proof. vm_compute. reflexivity. Qed.

(** The sample diff adds an exported function and nothing else. *)
Example fallback_on_sample :
  fst (Llm.generateFallbackCommit Sample.diff (Some Sample.threeFiles)
         Sample.emptyWorld)
  = Suggestion.mk "Feature" "add new functionality to 3 files" None.
Proof. vm_compute. reflexivity. Qed.

(** The examples of the specification: a change of blank lines only, a
    change that speaks of a fix, no change at all. *)
Example fallback_on_whitespace :
  fst (Llm.generateFallbackCommit Sample.whitespaceDiff None Sample.emptyWorld)
  = Suggestion.mk "Style" "format and style code" None.
Proof. vm_compute. reflexivity. Qed.

Example fallback_on_bug_fix :
  fst (Llm.generateFallbackCommit Sample.bugDiff
         (Some (Heuristic.mkSummary (Some (Js.ofZ 1)) None)) Sample.emptyWorld)
  = Suggestion.mk "Bug Fix" "fix issues in 1 file" None.
Proof. vm_compute. reflexivity. Qed.

Example fallback_on_nothing :
  fst (Llm.generateFallbackCommit "" None Sample.emptyWorld)
  = Suggestion.mk "Chore" "update project configuration" None.
Proof. vm_compute. reflexivity. Qed.

(** Three answers with HTTP 500: three requests, separated by delays of
    one and two seconds, then the fallback, whose result is cached. *)
Example three_server_errors :
  let '(c, w) :=
    Llm.generateCommitMessage Sample.failing500 Sample.diff None Sample.emptyWorld in
  c = Llm.Returned (Suggestion.mk "Feature" "add new functionality" None)
  /\ posts w = 3%nat
  /\ delays w = [2000; 1000]
  /\ console w = [Llm.unavailable]
  /\ List.length (cache w) = 1%nat.
Proof. vm_compute. repeat split. Qed.

(** On the same answers, the revision without a fallback raises. *)
Example three_server_errors_without_fallback :
  fst (LlmThrowing.generateCommitMessage Sample.failing500 Sample.diff
         Sample.emptyWorld)
  = Llm.Raised
      "Failed to generate commit message. Please check your API configuration.".
Proof. vm_compute. reflexivity. Qed.

(** When the cache file cannot be written, the eviction still happens in
    memory; the file keeps the entry and a warning is printed. *)
Example eviction_on_read_only_disk :
  let w' := snd (CommitCache.get "old" Sample.readOnlyWorld) in
  cache w' = JsMap.empty
  /\ file w' = Entries [Sample.oldEntry]
  /\ console w' = ["Warning: Failed to save cache"].
Proof. vm_compute. repeat split. Qed.

(** Entries with equal timestamps keep the order of the map. *)
Example getHistory_is_stable :
  let a := Entry.mk "a" "Chore" "first" 5 "proj" in
  let b := Entry.mk "b" "Chore" "second" 5 "proj" in
  let c := Entry.mk "c" "Chore" "third" 9 "proj" in
  CommitCache.sortByRecency [a; b; c] = [c; a; b].
Proof. reflexivity. Qed.

(** Characters outside ASCII.  A message of 40 characters in 80 bytes is
    returned whole; white space that [trim] strips is stripped, also
    U+00A0, U+FEFF and U+2028; a line ends at U+2028 for [.] and [$]; a
    file count of 2^70 is printed with an exponent. *)
Example accented_message_is_kept :
  match Llm.parseResponse Sample.accents with
  | Llm.Ok r =>
      Js.length (Suggestion.message r) = 40%nat
      /\ String.length (Suggestion.message r) = 80%nat
  | Llm.Throw _ => False
  end.
Proof. vm_compute. split; reflexivity. Qed.

Example unicode_white_space_is_trimmed :
  Llm.parseResponse
    ("Intent:" ++ Js.utf8 160 ++ "Docs" ++ Js.utf8 65279
     ++ String Js.LF ("Message: " ++ Js.utf8 12288 ++ "hello " ++ Js.utf8 8232))
  = Llm.Ok (Suggestion.mk "Docs" "hello" None).
Proof. vm_compute. reflexivity. Qed.

Example line_separator_ends_a_header :
  Heuristic.extractFilesFromDiff
    ("diff --git a/x.md b/x.md" ++ Js.utf8 8232 ++ "diff --git a/y b/y")
  = ["x.md"; "y"].
Proof. vm_compute. reflexivity. Qed.

Example large_count_is_printed_with_an_exponent :
  Heuristic.generateMessage
    (Heuristic.analyzeDiff Sample.diff Sample.manyFiles) "Feature" Sample.manyFiles
  = "add new functionality to 1.1805916207174113e+21 files"
  /\ Js.numberToString (Js.ofZ (10 ^ 21)) = "1e+21"
  /\ Js.numberToString (Js.ofZ 123456789012345680000) = "123456789012345680000".
Proof. vm_compute. repeat split; reflexivity. Qed.

End Checks.

(* ================================================================== *)
(** * Further properties *)

(** ** The cache as a store *)

Section Store.
Import Sys CommitCache More.

Lemma get_delete_other k k' m :
  k <> k' -> JsMap.get k' (JsMap.delete k m) = JsMap.get k' m.
Proof.
  intros Hne. induction m as [|[k0 v0] m IH]; simpl; [reflexivity|].
  destruct (String.eqb k k0) eqn:E; simpl.
  - apply String.eqb_eq in E; subst k0.
    destruct (String.eqb k' k) eqn:E'; [|exact IH].
    apply String.eqb_eq in E'; congruence.
  - now rewrite IH.
Qed.

Lemma get_None_keys k m : JsMap.get k m = None <-> ~ In k (map fst m).
Proof.
  induction m as [|[k0 v0] m IH]; simpl; [tauto|].
  destruct (String.eqb_spec k k0) as [->|Hne].
  - split; [discriminate | intros H; exfalso; apply H; now left].
  - rewrite IH. split; [intros H [E|E]; congruence + auto | tauto].
Qed.

Lemma set_absent k v m :
  JsMap.get k m = None -> JsMap.set k v m = (m ++ [(k, v)])%list.
Proof.
  induction m as [|[k0 v0] m IH]; simpl; [reflexivity|].
  destruct (String.eqb k k0); [discriminate|].
  intros H. now rewrite IH.
Qed.

Lemma keys_set_present k v m e :
  JsMap.get k m = Some e -> map fst (JsMap.set k v m) = map fst m.
Proof.
  induction m as [|[k0 v0] m IH]; simpl; [discriminate|].
  destruct (String.eqb k k0); simpl; [reflexivity|].
  intros H. now rewrite IH.
Qed.

Lemma uniqueKeys_set k v m : uniqueKeys m -> uniqueKeys (JsMap.set k v m).
Proof.
  unfold uniqueKeys. intros H.
  destruct (JsMap.get k m) as [e|] eqn:E.
  - now rewrite (keys_set_present k v m e E).
  - rewrite (set_absent k v m E), map_app. cbn [map fst].
    apply NoDup_app; [exact H | repeat constructor; intros [] |].
    intros x Hx [<-|[]]. now apply get_None_keys in E.
Qed.

Lemma uniqueKeys_delete k m : uniqueKeys m -> uniqueKeys (JsMap.delete k m).
Proof.
  unfold uniqueKeys, JsMap.delete.
  induction m as [|[k0 v0] m IH]; simpl; [auto|].
  intros H. inversion H as [|? ? Hnotin Hrest]; subst.
  destruct (negb (String.eqb k k0)); simpl; [|auto].
  constructor; [|auto].
  rewrite in_map_iff. intros ([k1 v1] & Hk & Hin). simpl in Hk; subst k1.
  apply filter_In in Hin as [Hin _].
  apply Hnotin. rewrite in_map_iff. now exists (k0, v1).
Qed.

Lemma uniqueKeys_loadCache w : uniqueKeys (cache (loadCache w)).
Proof.
  unfold loadCache.
  destruct (file w) as [| |es]; cbn [cache withCache]; try constructor.
  assert (H : forall m, uniqueKeys m ->
                        uniqueKeys (fold_left (loadEntry (clock w)) es m)).
  { induction es as [|e es IH]; intros m Hm; [exact Hm|].
    cbn [fold_left]. apply IH. unfold loadEntry.
    destruct (clock w - Entry.timestamp e <? CACHE_MAX_AGE); [|exact Hm].
    now apply uniqueKeys_set. }
  apply H. constructor.
Qed.

(** X1.  [set] replaces, it does not duplicate: a map without repeated
    keys stays so, and the number of entries grows by one when the digest
    was absent and not at all when it was present.  The maps built by
    [loadCache] have no repeated key, and [get] keeps that. *)
Theorem set_replaces_or_appends :
  forall (diff intent message : string) (w : World),
    uniqueKeys (cache (loadCache w))
    /\ (uniqueKeys (cache w) ->
        uniqueKeys (cache (set diff intent message w))
        /\ uniqueKeys (cache (snd (get diff w))))
    /\ JsMap.size (cache (set diff intent message w))
       = match JsMap.get (hashDiff diff) (cache w) with
         | Some _ => JsMap.size (cache w)
         | None => S (JsMap.size (cache w))
         end.
Proof.
  intros diff intent message w. split; [apply uniqueKeys_loadCache|]. split.
  - intros H. split.
    + rewrite cache_set. now apply uniqueKeys_set.
    + destruct (get_cases diff w) as [[_ ->]|[(e & _ & _ & ->)|(e & _ & _ & ->)]];
        cbn [snd]; auto.
      rewrite cache_saveCache. now apply uniqueKeys_delete.
  - rewrite cache_set. unfold JsMap.size.
    destruct (JsMap.get (hashDiff diff) (cache w)) as [e|] eqn:E.
    + rewrite <- (length_map fst), (keys_set_present _ _ _ e E).
      apply length_map.
    + rewrite (set_absent _ _ _ E), length_app. simpl. lia.
Qed.

Lemma set_replaces_or_appends_witness :
  uniqueKeys (cache (set "old" "Chore" "again" Sample.startedWorld))
  /\ uniqueKeys (cache (snd (get "old" Sample.startedWorld))).
Proof.
  apply (proj1 (proj2 (set_replaces_or_appends "old" "Chore" "again"
                         Sample.startedWorld))).
  vm_compute. repeat constructor. intros [].
Defined.

(** X2.  [set] and [get] act on one digest only: after storing under one
    digest, looking up another answers as it did before; and a lookup,
    also one that evicts, leaves the entries of all other digests in
    place and never adds one. *)
Theorem other_digests_are_untouched :
  forall (diff other intent message : string) (w : World),
    hashDiff diff <> hashDiff other ->
    fst (get other (set diff intent message w)) = fst (get other w)
    /\ JsMap.get (hashDiff other) (cache (snd (get diff w)))
       = JsMap.get (hashDiff other) (cache w)
    /\ (JsMap.size (cache (snd (get diff w))) <= JsMap.size (cache w))%nat.
Proof.
  intros diff other intent message w Hne. repeat split.
  - unfold get; cbv zeta. rewrite cache_set, (get_set_other _ _ _ _ Hne).
    unfold set at 1 2; cbv zeta. rewrite clock_saveCache. cbn [clock withCache].
    destruct (JsMap.get (hashDiff other) (cache w)) as [e|]; [|reflexivity].
    destruct (clock w - Entry.timestamp e >? CACHE_MAX_AGE); reflexivity.
  - destruct (get_cases diff w) as [[_ ->]|[(e & _ & _ & ->)|(e & _ & _ & ->)]];
      cbn [snd]; auto.
    rewrite cache_saveCache. cbn [cache withCache].
    now apply get_delete_other.
  - destruct (get_cases diff w) as [[_ ->]|[(e & _ & _ & ->)|(e & _ & _ & ->)]];
      cbn [snd]; auto.
    rewrite cache_saveCache. cbn [cache withCache].
    unfold JsMap.size, JsMap.delete. apply filter_length_le.
Qed.

Lemma other_digests_are_untouched_witness :
  fst (get "old" (set "new" "Feature" "add x" Sample.laterWorld))
  = fst (get "old" Sample.laterWorld).
Proof.
  apply (other_digests_are_untouched "new" "old" "Feature" "add x" Sample.laterWorld).
  vm_compute. discriminate.
Defined.

End Store.

(** ** Loading and saving *)

Section Persistence.
Import Sys CommitCache More.

Lemma find_app {A} (p : A -> bool) (l1 l2 : list A) :
  find p (l1 ++ l2)
  = match find p l1 with Some x => Some x | None => find p l2 end.
Proof.
  induction l1 as [|a l1 IH]; simpl; [reflexivity|].
  now destruct (p a).
Qed.

Lemma get_set k k' v m :
  JsMap.get k' (JsMap.set k v m)
  = if String.eqb k' k then Some v else JsMap.get k' m.
Proof.
  destruct (String.eqb_spec k' k) as [->|Hne].
  - apply get_set_same.
  - apply get_set_other. congruence.
Qed.

Lemma get_fold_loadEntry now k es :
  forall m,
    JsMap.get k (fold_left (loadEntry now) es m)
    = match lastWithHash k (filter (young now) es) with
      | Some e => Some e
      | None => JsMap.get k m
      end.
Proof.
  unfold lastWithHash.
  induction es as [|a es IH]; intros m; [reflexivity|].
  cbn [fold_left filter]. rewrite IH. unfold loadEntry, young.
  destruct (now - Entry.timestamp a <? CACHE_MAX_AGE); [|reflexivity].
  cbn [rev]. rewrite find_app, get_set. cbn [find].
  destruct (find _ (rev _)); [reflexivity|].
  now destruct (String.eqb k (Entry.hash a)).
Qed.

(** X3.  What a started process finds under a digest is the last entry of
    the cache file with that hash among those younger than 30 days at
    start-up; an absent or unreadable file gives an empty cache. *)
Theorem loadCache_keeps_last_young_entry :
  forall (w : World) (k : string),
    JsMap.get k (cache (loadCache w))
    = lastWithHash k (filter (young (clock w)) (fileEntries (file w))).
Proof.
  intros w k. unfold loadCache.
  destruct (file w) as [| |es]; cbn [cache withCache fileEntries];
    try reflexivity.
  rewrite get_fold_loadEntry.
  now destruct (lastWithHash k (filter (young (clock w)) es)).
Qed.

Lemma fold_loadEntry_young now es :
  forall m,
    (forall e, In e es -> young now e = true) ->
    NoDup (map fst m ++ map Entry.hash es) ->
    fold_left (loadEntry now) es m
    = (m ++ map (fun e => (Entry.hash e, e)) es)%list.
Proof.
  induction es as [|a es IH]; intros m Hy Hnd; cbn [fold_left map].
  - now rewrite app_nil_r.
  - unfold loadEntry at 2. fold (young now a).
    rewrite (Hy a (or_introl eq_refl)).
    assert (Habs : JsMap.get (Entry.hash a) m = None).
    { apply get_None_keys. intros Hin.
      apply NoDup_remove_2 in Hnd. apply Hnd, in_or_app. now left. }
    rewrite (set_absent _ _ _ Habs), IH.
    + now rewrite <- app_assoc.
    + intros e He. apply Hy. now right.
    + rewrite map_app, <- app_assoc. exact Hnd.
Qed.

(** X4.  Saving and loading are inverse: when the file can be written, a
    process that starts from the file a save has left, while every entry
    is still younger than 30 days, has the same map, entries and order. *)
Theorem saved_cache_is_loaded_back :
  forall (w : World) (t : Z),
    writable w = true ->
    uniqueKeys (cache w) ->
    wellKeyed (cache w) ->
    (forall e, In e (JsMap.values (cache w)) -> young t e = true) ->
    cache (loadCache (withClock t (saveCache w))) = cache w.
Proof.
  intros w t Hw Hu Hk Hy. unfold loadCache.
  cbn [file withClock clock]. rewrite (file_saveCache w Hw).
  cbn [cache withCache].
  assert (Hhash : map Entry.hash (JsMap.values (cache w)) = map fst (cache w)).
  { unfold JsMap.values. rewrite map_map. apply map_ext_in.
    intros [k e] Hin. exact (Hk k e Hin). }
  rewrite fold_loadEntry_young.
  - cbn [app]. unfold JsMap.values. rewrite map_map.
    rewrite <- (map_id (cache w)) at 2. apply map_ext_in.
    intros [k e] Hin. cbn [snd]. now rewrite (Hk k e Hin).
  - exact Hy.
  - cbn [map app JsMap.empty]. rewrite Hhash. exact Hu.
Qed.

Lemma saved_cache_is_loaded_back_witness :
  let w :=
    snd (Llm.generateCommitMessage Sample.failing500 Sample.diff None
                                   Sample.emptyWorld) in
  cache (loadCache (withClock (clock w + Sample.day) (saveCache w))) = cache w.
Proof.
  intros w. apply saved_cache_is_loaded_back.
  - reflexivity.
  - vm_compute. repeat constructor. intros [].
  - vm_compute. intros k e [H|[]]. injection H as <- <-. reflexivity.
  - intros e H. vm_compute in H. destruct H as [<-|[]]. vm_compute. reflexivity.
Defined.

(** X5.  The two tests of age do not meet: an entry that is exactly 30
    days old is still returned by [get], and is refused by [loadCache] at
    the same instant. *)
Theorem thirty_days_sharp :
  forall (diff : string) (w : World) (e : Entry.t),
    JsMap.get (hashDiff diff) (cache w) = Some e ->
    age w e = CACHE_MAX_AGE ->
    get diff w
    = (Some (Suggestion.mk (Entry.intent e) (Entry.message e)
                           (Some (Entry.folder e))), w)
    /\ cache (loadCache (withFile (Entries [e]) w)) = JsMap.empty.
Proof.
  intros diff w e He Hage. split.
  - cases_of_get diff w G. rewrite He in G.
    destruct G as [[G _]|[(e' & [= <-] & G & _)|(e' & [= <-] & _ & G)]];
      [discriminate | lia | exact G].
  - unfold loadCache, age in *. cbn [file withFile cache withCache clock fold_left].
    unfold loadEntry. rewrite Hage.
    now rewrite Z.ltb_irrefl.
Qed.

Lemma thirty_days_sharp_witness :
  let w := withClock CACHE_MAX_AGE Sample.startedWorld in
  fst (get "old" w) <> None
  /\ cache (loadCache (withFile (Entries [Sample.oldEntry]) w)) = JsMap.empty.
Proof.
  intros w.
  destruct (thirty_days_sharp "old" w Sample.oldEntry) as [G L].
  - vm_compute. reflexivity.
  - vm_compute. reflexivity.
  - rewrite G. split; [discriminate | exact L].
Defined.

End Persistence.

(** ** Statistics and history *)

Section Statistics.
Import Sys CommitCache More.

Lemma fold_min_spec l :
  forall a,
    let m := fold_left Z.min l a in
    m <= a /\ (forall x, In x l -> m <= x) /\ (m = a \/ In m l).
Proof.
  induction l as [|x l IH]; intros a; cbn [fold_left].
  - repeat split; [lia | intros ? [] | now left].
  - destruct (IH (Z.min a x)) as (Hle & Hall & Hin). cbv zeta in *.
    repeat split.
    + lia.
    + intros y [<-|Hy]; [lia | now apply Hall].
    + destruct Hin as [Hin|Hin]; [|right; now right].
      rewrite Hin. destruct (Z.min_spec a x) as [[_ ->]|[_ ->]];
        [now left | right; now left].
Qed.

(** X6.  The [oldestEntry] of [getStats] is the least timestamp in the
    cache: it is the timestamp of some entry, no entry has a smaller one,
    and it is null exactly when the cache is empty. *)
Theorem oldestEntry_is_the_minimum :
  forall w : World,
    match oldestEntry (getStats w) with
    | None => cache w = JsMap.empty
    | Some t =>
        (exists e, In e (JsMap.values (cache w)) /\ Entry.timestamp e = t)
        /\ (forall e, In e (JsMap.values (cache w)) -> t <= Entry.timestamp e)
    end.
Proof.
  intros w. unfold getStats; cbn [oldestEntry]. unfold JsMap.values.
  destruct (cache w) as [|[k e] m]; cbn [map minTimestamp snd]; [reflexivity|].
  destruct (fold_min_spec (map Entry.timestamp (map snd m)) (Entry.timestamp e))
    as (Hle & Hall & Hin). cbv zeta in *.
  split.
  - destruct Hin as [Hin|Hin].
    + exists e. split; [now left | now symmetry].
    + apply in_map_iff in Hin as (x & Hx & Hin).
      exists x. split; [now right | exact Hx].
  - intros x [<-|Hx]; [exact Hle|].
    apply Hall. now apply in_map.
Qed.

Lemma insert_in_front e l :
  Forall (fun x => Entry.timestamp x <= Entry.timestamp e) l ->
  insertByRecency e l = e :: l.
Proof.
  destruct l as [|x l]; [reflexivity|].
  intros H. inversion H as [|? ? Hx _]; subst. cbn [insertByRecency].
  destruct (Z.leb_spec (Entry.timestamp x) (Entry.timestamp e)); [reflexivity|lia].
Qed.

Lemma filter_insertByRecency (p : Entry.t -> bool) e l :
  StronglySorted newerFirst l ->
  filter p (insertByRecency e l)
  = if p e then insertByRecency e (filter p l) else filter p l.
Proof.
  induction l as [|x l IH]; intros Hs.
  - cbn. now destruct (p e).
  - apply StronglySorted_inv in Hs as [Hs Hx].
    cbn [insertByRecency].
    destruct (Z.leb_spec (Entry.timestamp x) (Entry.timestamp e)) as [Hle|Hgt].
    + change (filter p (e :: x :: l))
        with (if p e then e :: filter p (x :: l) else filter p (x :: l)).
      destruct (p e) eqn:Ee; [|reflexivity].
      symmetry. apply insert_in_front.
      assert (Hall : Forall (fun y => Entry.timestamp y <= Entry.timestamp e) (x :: l)).
      { constructor; [exact Hle|].
        eapply Forall_impl; [|exact Hx]. unfold newerFirst. intros; lia. }
      apply Forall_forall. intros y Hy. apply filter_In in Hy as [Hy _].
      rewrite Forall_forall in Hall. now apply Hall.
    + cbn [filter]. rewrite (IH Hs).
      destruct (p x) eqn:Ex, (p e) eqn:Ee; try reflexivity.
      cbn [insertByRecency].
      destruct (Z.leb_spec (Entry.timestamp x) (Entry.timestamp e)); [lia|reflexivity].
Qed.

Lemma sortByRecency_filter (p : Entry.t -> bool) l :
  sortByRecency (filter p l) = filter p (sortByRecency l).
Proof.
  induction l as [|x l IH]; [reflexivity|].
  cbn [sortByRecency fold_right filter].
  fold (sortByRecency l).
  rewrite filter_insertByRecency by apply sortByRecency_stronglySorted.
  destruct (p x); [|exact IH].
  cbn [sortByRecency fold_right]. fold (sortByRecency (filter p l)).
  now rewrite IH.
Qed.

(** X7.  The history of a folder is the history, restricted to the
    entries of that folder, in the same order: it holds every cached
    entry of the folder and no other, most recent first. *)
Theorem getHistoryByFolder_is_filtered_history :
  forall (folder : string) (w : World),
    getHistoryByFolder folder w
    = filter (fun entry => String.eqb (Entry.folder entry) folder) (getHistory w)
    /\ StronglySorted newerFirst (getHistoryByFolder folder w)
    /\ (forall e, In e (getHistoryByFolder folder w)
                  <-> In e (JsMap.values (cache w)) /\ Entry.folder e = folder).
Proof.
  intros folder w. unfold getHistoryByFolder, getHistory.
  split; [apply sortByRecency_filter|].
  split; [apply sortByRecency_stronglySorted|].
  intros e. split.
  - intros H. apply (Permutation_in _ (sortByRecency_perm _)) in H.
    apply filter_In in H as [Hin H]. split; [exact Hin|].
    now apply String.eqb_eq in H.
  - intros [Hin Hf].
    apply (Permutation_in _ (Permutation_sym (sortByRecency_perm _))).
    apply filter_In. split; [exact Hin | now apply String.eqb_eq].
Qed.

End Statistics.

(** ** The heuristic classifier, further *)

Section Classifier.
Import Sys Heuristic More.

Lemma inList_In x l : inList x l = true <-> In x l.
Proof.
  induction l as [|y l IH]; simpl; [split; [discriminate | tauto]|].
  rewrite orb_true_iff, IH, String.eqb_eq. split; intros [H|H]; auto.
Qed.

Lemma fold_setAdd_NoDup l : forall acc,
  NoDup acc -> NoDup (fold_left setAdd l acc).
Proof.
  induction l as [|x l IH]; intros acc H; [exact H|].
  cbn [fold_left]. apply IH. unfold setAdd.
  destruct (inList x acc) eqn:E; [exact H|].
  apply NoDup_app; [exact H | repeat constructor; intros [] |].
  intros y Hy [<-|[]].
  apply inList_In in Hy. congruence.
Qed.

(** X8.  [extractFilesFromDiff] lists no file twice, however often its
    header occurs in the diff. *)
Theorem extractFilesFromDiff_has_no_duplicates :
  forall diff : string, NoDup (extractFilesFromDiff diff).
Proof.
  intros diff. apply fold_setAdd_NoDup. constructor.
Qed.

Lemma counted_nonempty prefix n fileWord :
  prefix <> EmptyString -> counted prefix n fileWord <> EmptyString.
Proof.
  unfold counted. destruct prefix; [congruence|]. discriminate.
Qed.

Lemma generateMessage_nonempty analysis intent summary :
  generateMessage analysis intent summary <> EmptyString.
Proof.
  unfold generateMessage; cbv zeta.
  repeat match goal with
         | |- context [if ?b then _ else _] => destruct b
         end;
    try discriminate; apply counted_nonempty; discriminate.
Qed.

(** X9.  The template [implement new features] is never used: whenever
    [determineIntent] answers Feature, one of the four signals that
    [generateMessage] tests first is set.  For every analysis, the message
    generated for the intent determined from it does not start with these
    words. *)
Theorem implement_new_features_is_dead :
  forall (analysis : DiffAnalysis) (summary summary' : ChangeSummary),
    Js.startsWith "implement new features"
      (generateMessage analysis (determineIntent analysis summary) summary')
    = false.
Proof.
  intros [bug tfix fn cls ep comp refac ren moved docs cmt tst dels sty wsp
          cfg dep adds rems open] summary summary'.
  unfold determineIntent, generateMessage;
    cbn [hasBugFix hasTestFix hasNewFunction hasNewClass hasNewEndpoint
         hasNewComponent hasRefactor hasMovedCode hasDocsChange hasTestChange
         hasStyleChange hasWhitespaceOnly hasConfigChange hasDependencyChange
         additions deletions hasChanges].
  generalize (rems >? adds * 2); intros shrinks.
  generalize (match total summary' with Some n => Js.gt0 n | None => false end);
    intros hasFileCount.
  generalize (match total summary' with Some n => n | None => Js.zero end);
    intros n.
  generalize (if Js.is1 n then "file" else "files"); intros fileWord.
  generalize (Js.is1 n); intros single.
  unfold counted.
  destruct open; [|destruct dep, cfg; reflexivity].
  destruct bug; [destruct tfix, hasFileCount; reflexivity|].
  destruct tfix; [destruct hasFileCount; reflexivity|].
  destruct tst; [destruct hasFileCount; reflexivity|].
  destruct docs; [destruct hasFileCount, single; reflexivity|].
  destruct refac; [destruct moved, shrinks, hasFileCount; reflexivity|].
  destruct moved; [destruct hasFileCount; reflexivity|].
  destruct shrinks; [destruct hasFileCount; reflexivity|].
  destruct fn; [destruct ep, comp, cls, hasFileCount; reflexivity|].
  destruct cls; [destruct ep, comp, hasFileCount; reflexivity|].
  destruct comp; [destruct ep; reflexivity|].
  destruct ep; [reflexivity|].
  destruct dep; [reflexivity|].
  destruct cfg; [reflexivity|].
  destruct sty; [destruct hasFileCount; reflexivity|].
  destruct wsp; destruct hasFileCount; reflexivity.
Qed.

End Classifier.

(** ** [parseResponse], further *)

Section Parsing.
Import Sys Llm More.

Lemma tidy_spec s :
  tidy s = true ->
  s <> EmptyString /\ Js.trim s = s /\ Js.trimStart s = s /\ Js.trimEnd s = s
  /\ noLineFeed s = true.
Proof.
  unfold tidy. intros H. apply andb_prop in H as [H Hn].
  apply andb_prop in H as [Ht He]. apply String.eqb_eq in He.
  destruct (trim_fixed s He) as [Hs Hend].
  repeat split; try assumption. now destruct s.
Qed.

Lemma split_single s : noLineFeed s = true -> Js.split Js.LF s = [s].
Proof.
  induction s as [|c r IH]; [reflexivity|].
  cbn [noLineFeed Js.split]. intros H. apply andb_prop in H as [Hc Hr].
  apply negb_true_iff in Hc. rewrite Hc, (IH Hr). reflexivity.
Qed.

Lemma split_append a b :
  noLineFeed a = true ->
  Js.split Js.LF (a ++ String Js.LF b) = a :: Js.split Js.LF b.
Proof.
  induction a as [|c r IH]; intros H.
  - cbn [append Js.split]. now rewrite Ascii.eqb_refl.
  - cbn [noLineFeed] in H. apply andb_prop in H as [Hc Hr].
    apply negb_true_iff in Hc.
    cbn [append Js.split]. rewrite Hc, (IH Hr). reflexivity.
Qed.

Lemma noLineFeed_append a b :
  noLineFeed (a ++ b) = noLineFeed a && noLineFeed b.
Proof.
  induction a as [|c r IH]; [reflexivity|].
  cbn [append noLineFeed]. rewrite IH. now rewrite andb_assoc.
Qed.

Lemma trim_after_blank s : tidy s = true -> Js.trim (" " ++ s) = s.
Proof.
  intros H. destruct (tidy_spec s H) as (_ & Ht & _).
  unfold Js.trim. rewrite trimStart_after_blank. exact Ht.
Qed.

Lemma parseLine_intent acc value :
  parseLine acc ("Intent: " ++ value) = (Js.trim (" " ++ value), snd acc).
Proof. reflexivity. Qed.

Lemma parseLine_message acc value :
  parseLine acc ("Message: " ++ value) = (fst acc, Js.trim (" " ++ value)).
Proof. reflexivity. Qed.

(** X10.  Formatting and parsing agree: for an intent and a message that
    are not empty, on one line and without white space at their ends, the
    answer with the two labelled lines, in either order, is parsed to that
    intent and to that message, cut to 70 characters if it is longer. *)
Theorem parseResponse_reads_both_orders :
  forall i m : string,
    tidy i = true -> tidy m = true ->
    parseResponse ("Intent: " ++ i ++ String Js.LF ("Message: " ++ m))
    = Ok (Suggestion.mk i (cut m) None)
    /\ parseResponse ("Message: " ++ m ++ String Js.LF ("Intent: " ++ i))
       = Ok (Suggestion.mk i (cut m) None).
Proof.
  intros i m Hi Hm.
  destruct (tidy_spec i Hi) as (Ni & _ & Si & Ei & Fi).
  destruct (tidy_spec m Hm) as (Nm & _ & Sm & Em & Fm).
  assert (Hfinal : forall a b,
             a <> EmptyString -> b <> EmptyString ->
             (if negb (Js.truthy a) || negb (Js.truthy b)
              then @Throw Suggestion.t (OtherError "Invalid response format from LLM")
              else Ok (Suggestion.mk a (cut b) None))
             = Ok (Suggestion.mk a (cut b) None)).
  { intros [|? ?] [|? ?] Ha Hb; congruence || reflexivity. }
  split.
  - unfold parseResponse.
    assert (Htrim : Js.trim ("Intent: " ++ i ++ String Js.LF ("Message: " ++ m))
                    = ("Intent: " ++ i ++ String Js.LF ("Message: " ++ m))%string).
    { replace ("Intent: " ++ i ++ String Js.LF ("Message: " ++ m))%string
        with (("Intent: " ++ i ++ String Js.LF "Message") ++ String ":" (" " ++ m))%string
        by (rewrite !append_assoc; reflexivity).
      unfold Js.trim.
      change (("Intent: " ++ i ++ String Js.LF "Message") ++ String ":" (" " ++ m))%string
        with (String "I" (("ntent: " ++ i ++ String Js.LF "Message")
                          ++ String ":" (" " ++ m)))%string at 1.
      rewrite (trimStart_visible "I") by reflexivity.
      change (String "I" (("ntent: " ++ i ++ String Js.LF "Message")
                          ++ String ":" (" " ++ m)))%string
        with (("Intent: " ++ i ++ String Js.LF "Message") ++ String ":" (" " ++ m))%string.
      now apply trimEnd_after_label. }
    rewrite Htrim.
    replace ("Intent: " ++ i ++ String Js.LF ("Message: " ++ m))%string
      with (("Intent: " ++ i) ++ String Js.LF ("Message: " ++ m))%string
      by (rewrite append_assoc; reflexivity).
    rewrite split_append by (rewrite noLineFeed_append; now rewrite Fi).
    rewrite split_single by (rewrite noLineFeed_append; now rewrite Fm).
    cbn [fold_left]. rewrite parseLine_intent, parseLine_message.
    cbn [fst snd]. rewrite (trim_after_blank i Hi), (trim_after_blank m Hm).
    now apply Hfinal.
  - unfold parseResponse.
    assert (Htrim : Js.trim ("Message: " ++ m ++ String Js.LF ("Intent: " ++ i))
                    = ("Message: " ++ m ++ String Js.LF ("Intent: " ++ i))%string).
    { replace ("Message: " ++ m ++ String Js.LF ("Intent: " ++ i))%string
        with (("Message: " ++ m ++ String Js.LF "Intent") ++ String ":" (" " ++ i))%string
        by (rewrite !append_assoc; reflexivity).
      unfold Js.trim.
      change (("Message: " ++ m ++ String Js.LF "Intent") ++ String ":" (" " ++ i))%string
        with (String "M" (("essage: " ++ m ++ String Js.LF "Intent")
                          ++ String ":" (" " ++ i)))%string at 1.
      rewrite (trimStart_visible "M") by reflexivity.
      change (String "M" (("essage: " ++ m ++ String Js.LF "Intent")
                          ++ String ":" (" " ++ i)))%string
        with (("Message: " ++ m ++ String Js.LF "Intent") ++ String ":" (" " ++ i))%string.
      now apply trimEnd_after_label. }
    rewrite Htrim.
    replace ("Message: " ++ m ++ String Js.LF ("Intent: " ++ i))%string
      with (("Message: " ++ m) ++ String Js.LF ("Intent: " ++ i))%string
      by (rewrite append_assoc; reflexivity).
    rewrite split_append by (rewrite noLineFeed_append; now rewrite Fm).
    rewrite split_single by (rewrite noLineFeed_append; now rewrite Fi).
    cbn [fold_left]. rewrite parseLine_message, parseLine_intent.
    cbn [fst snd]. rewrite (trim_after_blank i Hi), (trim_after_blank m Hm).
    now apply Hfinal.
Qed.

Lemma parseResponse_reads_both_orders_witness :
  parseResponse ("Intent: " ++ "Bug Fix" ++ String Js.LF ("Message: " ++ "fix the parser"))
  = Ok (Suggestion.mk "Bug Fix" (cut "fix the parser") None).
Proof.
  apply (proj1 (parseResponse_reads_both_orders "Bug Fix" "fix the parser"
                  eq_refl eq_refl)).
Defined.

Lemma fold_parseLine_no_intent lines : forall acc,
  (forall line, In line lines -> Js.startsWith "Intent:" line = false) ->
  fst (fold_left parseLine lines acc) = fst acc.
Proof.
  induction lines as [|l lines IH]; intros acc H; [reflexivity|].
  cbn [fold_left]. rewrite IH by (intros; apply H; now right).
  unfold parseLine. rewrite (H l (or_introl eq_refl)).
  now destruct (Js.startsWith "Message:" l).
Qed.

Lemma fold_parseLine_no_message lines : forall acc,
  (forall line, In line lines -> Js.startsWith "Message:" line = false) ->
  snd (fold_left parseLine lines acc) = snd acc.
Proof.
  induction lines as [|l lines IH]; intros acc H; [reflexivity|].
  cbn [fold_left]. rewrite IH by (intros; apply H; now right).
  unfold parseLine. rewrite (H l (or_introl eq_refl)).
  now destruct (Js.startsWith "Intent:" l).
Qed.

(** X11.  An answer is refused when a label is missing: if no line of the
    trimmed answer starts with [Intent:], or none starts with [Message:],
    [parseResponse] throws. *)
Theorem parseResponse_needs_both_labels :
  forall response : string,
    (forall line, In line (Js.split Js.LF (Js.trim response)) ->
                  Js.startsWith "Intent:" line = false)
    \/ (forall line, In line (Js.split Js.LF (Js.trim response)) ->
                     Js.startsWith "Message:" line = false) ->
    parseResponse response
    = Throw (OtherError "Invalid response format from LLM").
Proof.
  intros response H. unfold parseResponse.
  destruct H as [H|H].
  - pose proof (fold_parseLine_no_intent _ ("", "") H) as E.
    destruct (fold_left parseLine _ _) as [i m]. cbn in E. subst i. reflexivity.
  - pose proof (fold_parseLine_no_message _ ("", "") H) as E.
    destruct (fold_left parseLine _ _) as [i m]. cbn in E. subst m.
    cbn [Js.truthy negb]. now rewrite orb_true_r.
Qed.

Lemma parseResponse_needs_both_labels_witness :
  parseResponse "Message: add tests"
  = Throw (OtherError "Invalid response format from LLM").
Proof.
  apply parseResponse_needs_both_labels. left.
  intros line H. vm_compute in H. destruct H as [<-|[]]. reflexivity.
Defined.

End Parsing.

(** ** The retry loop, further *)

Section Retrying.
Import Sys Llm More.

Variable remote : Remote.

Lemma delays_saveCache w : delays (CommitCache.saveCache w) = delays w.
Proof. unfold CommitCache.saveCache; now destruct (writable w). Qed.

Lemma delays_set diff intent message w :
  delays (CommitCache.set diff intent message w) = delays w.
Proof. unfold CommitCache.set. now rewrite delays_saveCache. Qed.

Lemma delays_get diff w : delays (snd (CommitCache.get diff w)) = delays w.
Proof.
  destruct (get_cases diff w) as [[_ ->]|[(e & _ & _ & ->)|(e & _ & _ & ->)]];
    cbn [snd]; auto.
  now rewrite delays_saveCache.
Qed.

Lemma tryBlock_payload diffHash diff w r w1 :
  tryBlock remote diffHash diff w = (Ok r, w1) ->
  exists txt,
    fst (remote (posts w) diff) = Response (Some (Some txt))
    /\ parseResponse txt = Ok r.
Proof.
  unfold tryBlock, axiosPost.
  destruct (remote (posts w) diff) as [[[[txt|]|]|error] elapsed];
    cbn [fst]; try discriminate.
  destruct (Js.truthy txt); [|discriminate].
  destruct (parseResponse txt) as [r'|error] eqn:E; [|discriminate].
  intros [= <- _]. now exists txt.
Qed.

Lemma tryBlock_counts diffHash diff w :
  posts (snd (tryBlock remote diffHash diff w)) = S (posts w)
  /\ delays (snd (tryBlock remote diffHash diff w)) = delays w.
Proof.
  pose proof (tryBlock_spec remote diffHash diff w) as T.
  unfold axiosPost in T.
  destruct (remote (posts w) diff) as [reply elapsed].
  destruct (tryBlock remote diffHash diff w) as [[r|error] w1]; cbn [snd] in *.
  - destruct T as (_ & -> & _). now rewrite posts_set, delays_set.
  - destruct T as (_ & ->). split; reflexivity.
Qed.

Lemma attempts_result diffHash diff left : forall w r,
  fst (attempts remote diffHash diff left w) = Some r ->
  exists txt, parseResponse txt = Ok r.
Proof.
  induction left as [|left IH]; intros w r; cbn [attempts]; [discriminate|].
  destruct (tryBlock remote diffHash diff w) as [[r'|error] w1] eqn:T.
  - cbn [fst]. intros [= <-].
    destruct (tryBlock_payload _ _ _ _ _ T) as (txt & _ & H). now exists txt.
  - destruct (catchBlock _ error) as [ms| |]; [apply IH | discriminate | apply IH].
Qed.

(** The requests and the delays of the loop, from any number of
    iterations that remain. *)
Lemma attempts_schedule diffHash diff left : forall w,
  (left <= maxRetries)%nat ->
  let w' := snd (attempts remote diffHash diff left w) in
  exists n,
    posts w' = (posts w + n)%nat
    /\ (n <= left)%nat
    /\ (0 < left -> 0 < n)%nat
    /\ delays w' = (sleeps (S maxRetries - left) (n - 1) ++ delays w)%list.
Proof.
  induction left as [|left IH]; intros w Hleft; cbn [attempts].
  - exists 0%nat. cbn. repeat split; lia.
  - destruct (tryBlock_counts diffHash diff w) as [Hp Hd].
    destruct (tryBlock remote diffHash diff w) as [[r|error] w1]; cbn [snd] in *.
    + exists 1%nat. cbn. rewrite Hp, Hd. repeat split; lia.
    + destruct (catchBlock_policy (S maxRetries - S left) error) as [Plt Pge].
      destruct (Nat.ltb_spec (S maxRetries - S left) maxRetries) as [Hlt|Hge].
      * rewrite (Plt Hlt). destruct (terminal error); cbn [snd].
        -- exists 1%nat. cbn. rewrite Hp, Hd. repeat split; lia.
        -- destruct (IH (sleep (backoff (S maxRetries - S left)) w1)
                       ltac:(lia)) as (n & Hn & Hle & Hpos & Hdel).
           cbv zeta in *. cbn [posts delays sleep] in Hn, Hdel.
           exists (S n). rewrite Hn, Hp, Hdel, Hd.
           assert (0 < n)%nat by (apply Hpos; lia).
           repeat split; try lia.
           replace (S n - 1)%nat with (S (n - 1)) by lia.
           cbn [sleeps].
           replace (S (S maxRetries - S left)) with (S maxRetries - left)%nat by lia.
           now rewrite <- app_assoc.
      * assert (left = 0)%nat by lia. subst left.
        destruct (Pge Hge) as [-> | ->]; cbn [snd attempts];
          exists 1%nat; cbn; rewrite Hp, Hd; repeat split; lia.
Qed.

(** X12.  A call sends at most three requests, and sleeps exactly between
    two of them, never after the last: a call that sends two requests has
    slept 1000 ms, one that sends three has slept 1000 ms and then 2000
    ms, and a call that sends one or none has not slept. *)
Theorem backoff_schedule :
  forall (diff : string) (summary : option Heuristic.ChangeSummary) (w : World),
    let w' := snd (generateCommitMessage remote diff summary w) in
    exists requests,
      posts w' = (posts w + requests)%nat
      /\ (requests <= 3)%nat
      /\ delays w' = (delaysOf requests ++ delays w)%list
      /\ delaysOf 2 = [1000] /\ delaysOf 3 = [2000; 1000].
Proof.
  intros diff summary w. unfold generateCommitMessage; cbv zeta.
  pose proof (posts_get (Crypto.sha1_hex diff) w) as Hp.
  pose proof (delays_get (Crypto.sha1_hex diff) w) as Hd.
  destruct (CommitCache.get (Crypto.sha1_hex diff) w) as [[hit|] w1];
    cbn [snd] in *.
  - exists 0%nat. cbn. repeat split; auto; lia.
  - destruct (attempts_schedule (Crypto.sha1_hex diff) diff maxRetries w1
                (Nat.le_refl _)) as (n & Hn & Hle & _ & Hdel).
    cbv zeta in *.
    destruct (attempts remote (Crypto.sha1_hex diff) diff maxRetries w1)
      as [[r|] w2]; cbn [snd] in *.
    + exists n. rewrite Hn, Hp, Hdel, Hd.
      replace (S maxRetries - maxRetries)%nat with 1%nat by (unfold maxRetries; lia).
      unfold maxRetries in Hle. repeat split; auto.
    + unfold generateFallbackCommit; cbn [snd].
      exists n. rewrite posts_set, delays_set. cbn [posts delays warn].
      rewrite Hn, Hp, Hdel, Hd.
      replace (S maxRetries - maxRetries)%nat with 1%nat by (unfold maxRetries; lia).
      unfold maxRetries in Hle. repeat split; auto.
Qed.

(** X13.  When the cache has nothing for the diff and the first answer is
    well formed, the call returns what [parseResponse] makes of it, after
    one request and without any delay. *)
Theorem first_answer_is_returned :
  forall (diff : string) (summary : option Heuristic.ChangeSummary) (w : World),
    fst (CommitCache.get (Crypto.sha1_hex diff) w) = None ->
    replyFails (fst (remote (posts w) diff)) = false ->
    let w' := snd (generateCommitMessage remote diff summary w) in
    exists txt r,
      fst (remote (posts w) diff) = Response (Some (Some txt))
      /\ parseResponse txt = Ok r
      /\ fst (generateCommitMessage remote diff summary w) = Returned r
      /\ posts w' = S (posts w)
      /\ delays w' = delays w.
Proof.
  intros diff summary w Hmiss Hok. unfold generateCommitMessage; cbv zeta.
  pose proof (posts_get (Crypto.sha1_hex diff) w) as Hp.
  pose proof (delays_get (Crypto.sha1_hex diff) w) as Hd.
  destruct (CommitCache.get (Crypto.sha1_hex diff) w) as [cached w1].
  cbn [fst snd] in *. subst cached.
  unfold maxRetries. cbn [attempts].
  pose proof (tryBlock_spec remote (Crypto.sha1_hex diff) diff w1) as T.
  destruct (tryBlock_counts (Crypto.sha1_hex diff) diff w1) as [Tp Td].
  rewrite Hp in T.
  destruct (tryBlock remote (Crypto.sha1_hex diff) diff w1) as [[r|error] w2] eqn:E.
  - destruct (tryBlock_payload _ _ _ _ _ E) as (txt & Hr & Hparse).
    rewrite Hp in Hr. exists txt, r. cbn [fst snd] in *.
    repeat split; auto; congruence.
  - destruct T as [T _]. congruence.
Qed.

End Retrying.

Lemma first_answer_is_returned_witness :
  exists txt r,
    Llm.parseResponse txt = Llm.Ok r
    /\ fst (Llm.generateCommitMessage
              (fun _ _ => (Sys.Response (Some (Some Sample.validPayload)), 10))
              Sample.diff None Sample.emptyWorld) = Llm.Returned r.
Proof.
  destruct (first_answer_is_returned
              (fun _ _ => (Sys.Response (Some (Some Sample.validPayload)), 10))
              Sample.diff None Sample.emptyWorld)
    as (txt & r & _ & Hp & Hr & _).
  - reflexivity.
  - vm_compute. reflexivity.
  - exists txt, r. split; assumption.
Defined.

(** ** Both fields of a suggestion *)

Section Fields.
Import Sys Llm More.

Lemma parseResponse_nonEmpty response r :
  parseResponse response = Ok r -> nonEmpty r.
Proof.
  unfold parseResponse, nonEmpty.
  destruct (fold_left parseLine _ _) as [i m].
  destruct i as [|ci ri]; [discriminate|].
  destruct m as [|cm rm]; [discriminate|].
  cbn [Js.truthy negb orb].
  remember (String cm rm) as m eqn:Em.
  remember (if (70 <? Js.length m)%nat
            then Js.substring0 67 m ++ "..." else m) as shown eqn:Es.
  intros [= <-]. cbn [Suggestion.intent Suggestion.message].
  split; [discriminate|].
  subst shown. destruct (70 <? Js.length m)%nat eqn:E.
  - intros H. apply (f_equal String.length) in H.
    rewrite length_append in H. cbn in H. lia.
  - subst m. discriminate.
Qed.

Lemma determineIntent_nonempty analysis summary :
  Heuristic.determineIntent analysis summary <> EmptyString.
Proof.
  unfold Heuristic.determineIntent.
  repeat match goal with
         | |- context [if ?b then _ else _] => destruct b
         end; discriminate.
Qed.

(** X14.  A suggestion that was computed has both fields: what
    [parseResponse] returns, what the fallback returns, and so what
    [generateCommitMessage] returns when the cache had nothing for the
    diff, has an intent and a message that are not empty. *)
Theorem computed_suggestion_has_both_fields :
  (forall response r, parseResponse response = Ok r -> nonEmpty r)
  /\ (forall diff summary w, nonEmpty (fst (generateFallbackCommit diff summary w)))
  /\ (forall remote diff summary w r,
        fst (CommitCache.get (Crypto.sha1_hex diff) w) = None ->
        fst (generateCommitMessage remote diff summary w) = Returned r ->
        nonEmpty r).
Proof.
  split; [exact parseResponse_nonEmpty|]. split.
  - intros diff summary w. unfold generateFallbackCommit, nonEmpty; cbv zeta.
    cbn [fst Suggestion.intent Suggestion.message]. split.
    + apply determineIntent_nonempty.
    + apply generateMessage_nonempty.
  - intros remote diff summary w r Hmiss. unfold generateCommitMessage; cbv zeta.
    destruct (CommitCache.get (Crypto.sha1_hex diff) w) as [cached w1].
    cbn [fst] in Hmiss. subst cached.
    pose proof (attempts_result remote (Crypto.sha1_hex diff) diff maxRetries w1) as A.
    destruct (attempts remote (Crypto.sha1_hex diff) diff maxRetries w1)
      as [[r2|] w2].
    + cbn [fst]. intros [= <-].
      destruct (A r2 eq_refl) as (txt & H). exact (parseResponse_nonEmpty _ _ H).
    + unfold generateFallbackCommit; cbv zeta. cbn [fst]. intros [= <-].
      unfold nonEmpty. cbn [Suggestion.intent Suggestion.message]. split.
      * apply determineIntent_nonempty.
      * apply generateMessage_nonempty.
Qed.

Lemma computed_suggestion_has_both_fields_witness :
  match fst (generateCommitMessage Sample.malformedThenValid Sample.diff None
               Sample.emptyWorld) with
  | Returned r => nonEmpty r
  | Raised _ => False
  end.
Proof.
  destruct (fst (generateCommitMessage Sample.malformedThenValid Sample.diff None
                   Sample.emptyWorld)) as [r|msg] eqn:E.
  - apply (proj2 (proj2 computed_suggestion_has_both_fields)
             Sample.malformedThenValid Sample.diff None Sample.emptyWorld r).
    + reflexivity.
    + exact E.
  - vm_compute in E. discriminate E.
Defined.

End Fields.

(** ** The revision without a fallback *)

Section Throwing.
Import Sys More.

Variable remote : Remote.

(** What the loop of this revision leaves behind: a result, stored under
    the digest of the diff, or the map as it was. *)
Lemma throwing_attempts_spec diff left : forall w,
  match LlmThrowing.attempts remote diff left w with
  | (Some (Llm.Returned r), w') =>
      exists t,
        cache w'
        = JsMap.set (CommitCache.hashDiff diff)
            (Entry.mk (CommitCache.hashDiff diff) (Suggestion.intent r)
                      (Suggestion.message r) t (cwd w))
            (cache w)
  | (_, w') => cache w' = cache w /\ cwd w' = cwd w
  end.
Proof.
  induction left as [|left IH]; intros w; cbn [LlmThrowing.attempts]; [auto|].
  pose proof (tryBlock_spec remote diff diff w) as T.
  destruct (axiosPost_world remote diff w) as (_ & Hc & _ & Hd).
  destruct (Llm.tryBlock remote diff diff w) as [[r|error] w1].
  - destruct T as (_ & -> & _). rewrite cache_set, Hc, Hd. eauto.
  - destruct T as (_ & ->).
    destruct (LlmThrowing.catchBlock _ error) as [ms| | |msg].
    + specialize (IH (sleep ms (snd (axiosPost remote diff w)))).
      cbn [cache cwd sleep] in IH. rewrite Hc, Hd in IH. exact IH.
    + auto.
    + specialize (IH (snd (axiosPost remote diff w))).
      rewrite Hc, Hd in IH. exact IH.
    + auto.
Qed.

Lemma throwing_attempts_all_fail diff left : forall w,
  (forall n, (posts w <= n < posts w + left)%nat ->
             replyFails (fst (remote n diff)) = true) ->
  forall r, fst (LlmThrowing.attempts remote diff left w) <> Some (Llm.Returned r).
Proof.
  induction left as [|left IH]; intros w Hall r; cbn [LlmThrowing.attempts];
    [discriminate|].
  pose proof (tryBlock_spec remote diff diff w) as T.
  destruct (axiosPost_world remote diff w) as (_ & _ & Hp & _).
  destruct (Llm.tryBlock remote diff diff w) as [[r'|error] w1].
  - destruct T as (Hok & _). rewrite Hall in Hok by lia. discriminate.
  - destruct T as (_ & ->).
    destruct (LlmThrowing.catchBlock _ error) as [ms| | |msg];
      try discriminate;
      apply IH; intros n Hn; apply Hall; cbn [posts sleep] in Hn; lia.
Qed.

(** X15.  In the revision without a fallback, a call that finds nothing in
    the cache and whose three requests all fail raises an error, and
    stores nothing. *)
Theorem without_fallback_failure_raises :
  forall (diff : string) (w : World),
    fst (CommitCache.get diff w) = None ->
    (forall n, (posts w <= n < posts w + LlmThrowing.maxRetries)%nat ->
               replyFails (fst (remote n diff)) = true) ->
    exists msg,
      fst (LlmThrowing.generateCommitMessage remote diff w) = Llm.Raised msg
      /\ cache (snd (LlmThrowing.generateCommitMessage remote diff w))
         = cache (snd (CommitCache.get diff w)).
Proof.
  intros diff w Hmiss Hall. unfold LlmThrowing.generateCommitMessage; cbv zeta.
  pose proof (posts_get diff w) as Hp.
  destruct (CommitCache.get diff w) as [cached w1]. cbn [fst snd] in *.
  subst cached.
  pose proof (throwing_attempts_spec diff LlmThrowing.maxRetries w1) as S.
  pose proof (throwing_attempts_all_fail diff LlmThrowing.maxRetries w1) as F.
  rewrite Hp in F. specialize (F Hall).
  destruct (LlmThrowing.attempts remote diff LlmThrowing.maxRetries w1)
    as [[[r|msg]|] w2]; cbn [fst snd] in *.
  - exfalso. now apply (F r).
  - exists msg. split; [reflexivity | apply S].
  - eexists. split; [reflexivity | apply S].
Qed.

(** X16.  In the revision without a fallback the diff itself is handed to
    the cache, so that white space around it does not matter: once a call
    has returned for a diff, a call for any diff that is equal to it after
    trimming, made while the entry is within its 30 days, is answered from
    the cache with the same intent and message, without a request. *)
Theorem without_fallback_trimmed_diffs_share :
  forall (remote' : Remote) (d1 d2 : string) (w w1 : World)
         (r : Suggestion.t) (t2 : Z),
    LlmThrowing.generateCommitMessage remote d1 w = (Llm.Returned r, w1) ->
    Js.trim d1 = Js.trim d2 ->
    liveAt t2 (CommitCache.hashDiff d1) w1 = true ->
    exists r2,
      LlmThrowing.generateCommitMessage remote' d2 (withClock t2 w1)
      = (Llm.Returned r2, withClock t2 w1)
      /\ asCommitSuggestion r2 = asCommitSuggestion r.
Proof.
  intros remote' d1 d2 w w1 r t2 Hfirst Htrim Hlive.
  assert (Hkey : CommitCache.hashDiff d2 = CommitCache.hashDiff d1).
  { unfold CommitCache.hashDiff. now rewrite Htrim. }
  assert (Hstored : exists e,
             JsMap.get (CommitCache.hashDiff d1) (cache w1) = Some e
             /\ Entry.intent e = Suggestion.intent r
             /\ Entry.message e = Suggestion.message r).
  { revert Hfirst. unfold LlmThrowing.generateCommitMessage; cbv zeta.
    cases_of_get d1 w G.
    destruct G as [[_ G]|[(e & _ & _ & G)|(e & He & _ & G)]]; rewrite G.
    - pose proof (throwing_attempts_spec d1 LlmThrowing.maxRetries w) as S.
      destruct (LlmThrowing.attempts remote d1 LlmThrowing.maxRetries w)
        as [[[r'|msg]|] w2]; try discriminate.
      intros [= <- <-]. destruct S as (t & ->).
      rewrite get_set_same. eauto.
    - match goal with
      | |- context [LlmThrowing.attempts remote d1 LlmThrowing.maxRetries ?x] =>
          pose proof (throwing_attempts_spec d1 LlmThrowing.maxRetries x) as S;
          destruct (LlmThrowing.attempts remote d1 LlmThrowing.maxRetries x)
            as [[[r'|msg]|] w2]; try discriminate
      end.
      intros [= <- <-]. destruct S as (t & ->).
      rewrite get_set_same. eauto.
    - intros [= <- <-]. exists e. auto. }
  destruct Hstored as (e & He & Hi & Hm).
  unfold liveAt in Hlive. rewrite He in Hlive. apply Z.leb_le in Hlive.
  exists (Suggestion.mk (Entry.intent e) (Entry.message e) (Some (Entry.folder e))).
  split.
  - unfold LlmThrowing.generateCommitMessage; cbv zeta.
    cases_of_get d2 (withClock t2 w1) G. rewrite Hkey in G.
    cbn [cache withClock] in G. rewrite He in G.
    destruct G as [[G _]|[(e' & [= <-] & G & _)|(e' & [= <-] & _ & G)]].
    + discriminate.
    + unfold age in G. cbn [clock withClock] in G. lia.
    + now rewrite G.
  - unfold asCommitSuggestion. cbn [Suggestion.intent Suggestion.message].
    now rewrite Hi, Hm.
Qed.

End Throwing.

Lemma without_fallback_failure_raises_witness :
  exists msg,
    fst (LlmThrowing.generateCommitMessage Sample.failing500 Sample.diff
           Sample.emptyWorld) = Llm.Raised msg.
Proof.
  destruct (without_fallback_failure_raises Sample.failing500 Sample.diff
              Sample.emptyWorld) as (msg & H & _).
  - reflexivity.
  - intros n _. reflexivity.
  - now exists msg.
Defined.

Lemma without_fallback_trimmed_diffs_share_witness :
  let service : Sys.Remote :=
    fun _ _ => (Sys.Response (Some (Some Sample.validPayload)), 10) in
  let first :=
    LlmThrowing.generateCommitMessage service Sample.diff Sample.emptyWorld in
  exists r2,
    LlmThrowing.generateCommitMessage Sample.failing500
      (Sample.diff ++ Sample.newline)
      (Sys.withClock (Sys.clock (snd first) + Sample.day) (snd first))
    = (Llm.Returned r2,
       Sys.withClock (Sys.clock (snd first) + Sample.day) (snd first))
    /\ asCommitSuggestion r2
       = asCommitSuggestion (Suggestion.mk "Feature" "Add sum helper" None).
Proof.
  intros service first.
  apply (without_fallback_trimmed_diffs_share service Sample.failing500
           Sample.diff (Sample.diff ++ Sample.newline) Sample.emptyWorld
           (snd first) (Suggestion.mk "Feature" "Add sum helper" None)
           (Sys.clock (snd first) + Sample.day)).
  - vm_compute. reflexivity.
  - vm_compute. reflexivity.
  - vm_compute. reflexivity.
Defined.

(** ** [utils/git.ts] *)

Section GitFacts.
Import Git More.

Let LFs : string := String Js.LF EmptyString.

Lemma split_not_nil s : Js.split Js.LF s <> [].
Proof.
  destruct s as [|c r]; cbn [Js.split]; [discriminate|].
  destruct (Ascii.eqb c Js.LF); [discriminate|].
  destruct (Js.split Js.LF r); discriminate.
Qed.

Lemma join_cons c h t :
  join LFs (String c h :: t) = String c (join LFs (h :: t)).
Proof. destruct t; reflexivity. Qed.

Lemma join_split s : join LFs (Js.split Js.LF s) = s.
Proof.
  induction s as [|c r IH]; [reflexivity|].
  cbn [Js.split]. destruct (Ascii.eqb_spec c Js.LF) as [->|Hne].
  - pose proof (split_not_nil r) as Hn.
    destruct (Js.split Js.LF r) as [|h t] eqn:E; [congruence|].
    change (join LFs (EmptyString :: h :: t))
      with (String Js.LF (join LFs (h :: t))).
    rewrite IH. reflexivity.
  - pose proof (split_not_nil r) as Hn.
    destruct (Js.split Js.LF r) as [|h t] eqn:E; [congruence|].
    rewrite join_cons, IH. reflexivity.
Qed.

Lemma split_lines_noLineFeed s : Forall (fun l => noLineFeed l = true) (Js.split Js.LF s).
Proof.
  induction s as [|c r IH]; [repeat constructor|].
  cbn [Js.split]. destruct (Ascii.eqb c Js.LF) eqn:E.
  - constructor; [reflexivity | exact IH].
  - destruct (Js.split Js.LF r) as [|h t] eqn:Er;
      [exfalso; exact (split_not_nil r Er)|].
    inversion IH as [|? ? Hh Ht]; subst.
    constructor; [cbn [noLineFeed]; now rewrite E, Hh | exact Ht].
Qed.

Lemma split_join lines :
  lines <> [] ->
  Forall (fun l => noLineFeed l = true) lines ->
  Js.split Js.LF (join LFs lines) = lines.
Proof.
  induction lines as [|l rest IH]; [congruence|].
  intros _ H. inversion H as [|? ? Hl Hrest]; subst.
  destruct rest as [|l2 rest].
  - cbn [join]. now apply split_single.
  - change (join LFs (l :: l2 :: rest))
      with (l ++ String Js.LF (join LFs (l2 :: rest)))%string.
    rewrite split_append by exact Hl.
    rewrite IH; [reflexivity | discriminate | exact Hrest].
Qed.

Lemma filterLines_In skip lines line :
  In line (filterLines skip lines) -> In line lines.
Proof.
  revert skip. induction lines as [|l rest IH]; intros skip; [intros []|].
  cbn [filterLines].
  destruct (if Js.startsWith "diff --git" l then ignoredHeader l else skip).
  - intros H. right. eapply IH, H.
  - intros [<-|H]; [now left | right; eapply IH, H].
Qed.

Lemma filterLines_headers skip lines line :
  In line (filterLines skip lines) ->
  isHeader line = true -> ignoredHeader line = false.
Proof.
  revert skip. induction lines as [|l rest IH]; intros skip; [intros []|].
  cbn [filterLines]. unfold isHeader.
  destruct (Js.startsWith "diff --git" l) eqn:Eh.
  - destruct (ignoredHeader l) eqn:Ei.
    + apply IH.
    + intros [<-|H]; [auto | now apply (IH false)].
  - destruct skip.
    + apply IH.
    + intros [<-|H]; [congruence | now apply (IH false)].
Qed.

Lemma filterLines_identity lines :
  (forall line, In line lines -> isHeader line = true -> ignoredHeader line = false) ->
  filterLines false lines = lines.
Proof.
  induction lines as [|l rest IH]; intros H; [reflexivity|].
  cbn [filterLines].
  assert (E : (if Js.startsWith "diff --git" l then ignoredHeader l else false) = false).
  { destruct (Js.startsWith "diff --git" l) eqn:Eh; [|reflexivity].
    apply H; [now left | exact Eh]. }
  rewrite E, IH; [reflexivity|].
  intros line Hin. apply H. now right.
Qed.

Lemma filterLines_noLineFeed skip lines :
  Forall (fun l => noLineFeed l = true) lines ->
  Forall (fun l => noLineFeed l = true) (filterLines skip lines).
Proof.
  intros H. apply Forall_forall. intros l Hl.
  rewrite Forall_forall in H. eapply H, filterLines_In, Hl.
Qed.

(** The lines of what [filterIgnoredPaths] returns. *)
Lemma filterIgnoredPaths_lines diff :
  let kept := filterLines false (Js.split Js.LF diff) in
  Js.split Js.LF (filterIgnoredPaths diff)
  = match kept with [] => [EmptyString] | _ => kept end.
Proof.
  cbv zeta. unfold filterIgnoredPaths. fold LFs.
  pose proof (filterLines_noLineFeed false _ (split_lines_noLineFeed diff)) as H.
  destruct (filterLines false (Js.split Js.LF diff)) as [|l rest] eqn:E;
    [reflexivity|].
  apply split_join; [discriminate | exact H].
Qed.

(** X17.  Filtering keeps a diff as it is, to the character, when none of
    its file headers is for an ignored path; in particular a text with no
    header at all. *)
Theorem filterIgnoredPaths_keeps_clean_diffs :
  forall diff : string,
    (forall line, In line (Js.split Js.LF diff) ->
                  isHeader line = true -> ignoredHeader line = false) ->
    filterIgnoredPaths diff = diff.
Proof.
  intros diff H. unfold filterIgnoredPaths.
  rewrite (filterLines_identity _ H). apply join_split.
Qed.

Lemma filterIgnoredPaths_keeps_clean_diffs_witness :
  filterIgnoredPaths Sample.diff = Sample.diff.
Proof.
  apply filterIgnoredPaths_keeps_clean_diffs.
  intros line H. vm_compute in H.
  repeat (destruct H as [<-|H]; [vm_compute; auto; discriminate|]).
  destruct H.
Defined.

(** X18.  What filtering returns has only lines of the diff, and none of
    them is the header of an ignored path. *)
Theorem filterIgnoredPaths_drops_ignored_headers :
  forall (diff line : string),
    In line (Js.split Js.LF (filterIgnoredPaths diff)) ->
    (In line (Js.split Js.LF diff) \/ line = EmptyString)
    /\ (isHeader line = true -> ignoredHeader line = false).
Proof.
  intros diff line. rewrite filterIgnoredPaths_lines.
  destruct (filterLines false (Js.split Js.LF diff)) as [|l rest] eqn:E.
  - intros [<-|[]]. split; [now right | discriminate].
  - rewrite <- E. intros H. split.
    + left. eapply filterLines_In, H.
    + eapply filterLines_headers, H.
Qed.

Lemma filterIgnoredPaths_drops_ignored_headers_witness :
  ignoredHeader "diff --git a/src/sum.ts b/src/sum.ts" = false.
Proof.
  apply (filterIgnoredPaths_drops_ignored_headers
           ("diff --git a/dist/sum.js b/dist/sum.js" ++ Sample.newline ++ Sample.diff)).
  - vm_compute. left. reflexivity.
  - reflexivity.
Defined.

(** X19.  Filtering is idempotent: filtering a filtered diff changes
    nothing. *)
Theorem filterIgnoredPaths_idempotent :
  forall diff : string,
    filterIgnoredPaths (filterIgnoredPaths diff) = filterIgnoredPaths diff.
Proof.
  intros diff. apply filterIgnoredPaths_keeps_clean_diffs.
  intros line H. now apply (filterIgnoredPaths_drops_ignored_headers diff).
Qed.

Lemma escapeQuotes_escaped message : forall prev,
  quotesEscaped prev (escapeQuotes message) = true.
Proof.
  induction message as [|c r IH]; intros prev; [reflexivity|].
  cbn [escapeQuotes]. destruct (Ascii.eqb c quote) eqn:E.
  - cbn [quotesEscaped]. rewrite IH. reflexivity.
  - cbn [quotesEscaped]. rewrite E, IH. reflexivity.
Qed.

(** X20.  In the command line of [git commit], every double quote of the
    message comes right after a backslash, the message grows by one
    character for each of its double quotes, and a message without double
    quotes is passed as it is.  Nothing else is escaped. *)
Theorem escapeQuotes_puts_a_backslash_before_each_quote :
  forall message : string,
    quotesEscaped None (escapeQuotes message) = true
    /\ String.length (escapeQuotes message)
       = (String.length message + countQuotes message)%nat
    /\ (countQuotes message = 0%nat -> escapeQuotes message = message).
Proof.
  intros message. split; [apply escapeQuotes_escaped|]. split.
  - induction message as [|c r IH]; [reflexivity|].
    cbn [escapeQuotes countQuotes String.length].
    destruct (Ascii.eqb c quote); cbn [String.length]; rewrite IH; lia.
  - induction message as [|c r IH]; [reflexivity|].
    cbn [escapeQuotes countQuotes].
    destruct (Ascii.eqb c quote); [discriminate|].
    intros H. now rewrite IH.
Qed.

Lemma escapeQuotes_puts_a_backslash_before_each_quote_witness :
  escapeQuotes "Feature: add sum helper" = "Feature: add sum helper".
Proof.
  apply (escapeQuotes_puts_a_backslash_before_each_quote "Feature: add sum helper").
  reflexivity.
Defined.

End GitFacts.

(** ** [getTimeAgo] *)

Section TimeAgo.
Import History.

(** X21.  [getTimeAgo] reports whole elapsed units, the largest that is
    not zero: the whole days when a day or more has passed, else the whole
    hours, else the whole minutes, and [just now] below one minute, also
    for a timestamp in the future. *)
Theorem getTimeAgo_counts_whole_units :
  forall now timestamp : Z,
    let elapsed := now - timestamp in
    getTimeAgo now timestamp
    = if 86400000 <=? elapsed then ago (elapsed / 86400000) "day"
      else if 3600000 <=? elapsed then ago (elapsed / 3600000) "hour"
      else if 60000 <=? elapsed then ago (elapsed / 60000) "minute"
      else "just now".
Proof.
  intros now timestamp. cbv zeta. unfold getTimeAgo; cbv zeta.
  set (d := now - timestamp).
  assert (Hm : d / 1000 / 60 = d / 60000)
    by (rewrite Z.div_div by lia; reflexivity).
  assert (Hh : d / 1000 / 60 / 60 = d / 3600000)
    by (rewrite Hm, Z.div_div by lia; reflexivity).
  assert (Hd : d / 1000 / 60 / 60 / 24 = d / 86400000)
    by (rewrite Hh, Z.div_div by lia; reflexivity).
  rewrite Hd, Hh, Hm.
  assert (Pos : forall k, 0 < k -> (d / k >? 0) = (k <=? d)).
  { intros k Hk. rewrite Z.gtb_ltb.
    destruct (Z.leb_spec k d) as [Hle|Hlt].
    - apply Z.ltb_lt. apply Z.div_str_pos. lia.
    - apply Z.ltb_ge.
      destruct (Z_lt_le_dec d 0) as [Hneg|Hnn].
      + assert (d / k < 0) by (apply Z.div_lt_upper_bound; lia). lia.
      + rewrite Z.div_small by lia. lia. }
  rewrite !Pos by lia.
  destruct (Z.leb_spec 86400000 d); [reflexivity|].
  destruct (Z.leb_spec 3600000 d); [reflexivity|].
  destruct (Z.leb_spec 60000 d); reflexivity.
Qed.

End TimeAgo.

(** ** The commands *)

Section CommandFacts.
Import Sys Commands More.

(** X22.  Unless [git] answers that there is a repository, a status that
    is not blank and a readable diff that is not blank after filtering, a
    command stops with an exit code before it generates anything: the
    state is untouched, no request is sent, no commit is run, whatever the
    generator. *)
Theorem commands_stop_before_generating :
  forall (generate generate' : Generator) (env : Git.Env) (w : World),
    ready env = false ->
    analyzeCommand generate env w = analyzeCommand generate' env w
    /\ commitCommand generate env w = commitCommand generate' env w
    /\ snd (analyzeCommand generate env w) = w
    /\ snd (commitCommand generate env w) = w
    /\ exitCode (fst (analyzeCommand generate env w)) <> None
    /\ exitCode (fst (commitCommand generate env w)) <> None
    /\ executed (fst (commitCommand generate env w)) = None.
Proof.
  intros generate generate' env w. unfold ready, analyzeCommand, commitCommand.
  destruct (Git.isGitRepository env); cbn [negb andb];
    [|intros _; repeat split; discriminate].
  destruct (Git.hasChanges env); cbn [negb andb];
    [|intros _; repeat split; discriminate].
  destruct (Git.getGitDiff env) as [diff|msg];
    [|intros _; repeat split; discriminate].
  intros ->. cbn [negb]. repeat split; discriminate.
Qed.

Lemma commands_stop_before_generating_witness :
  snd (commitCommand (withFallback Sample.failing500)
         (Git.mkEnv true (Some " M dist/sum.js")
                    (Some "diff --git a/dist/sum.js b/dist/sum.js") true)
         Sample.emptyWorld)
  = Sample.emptyWorld.
Proof.
  apply (commands_stop_before_generating
           (withFallback Sample.failing500) (withFallback Sample.failing500)).
  reflexivity.
Defined.

(** X23.  With the revision that has the fallback, a command that has a
    diff to work on is never stopped by the service: [analyze] prints the
    suggestion and returns; [commit] runs [git commit] with the message
    [intent: message] of the suggestion for the filtered diff, and exits
    with code 1 only if that command fails. *)
Theorem commit_with_fallback_always_commits :
  forall (remote : Remote) (env : Git.Env) (w : World),
    ready env = true ->
    exists diff r,
      Git.getGitDiff env = inl diff
      /\ fst (Llm.generateCommitMessage remote diff None w) = Llm.Returned r
      /\ fst (analyzeCommand (withFallback remote) env w)
         = mkRun [Log "Analyzing changes..."; Log (commitMessage r)] None None
      /\ executed (fst (commitCommand (withFallback remote) env w))
         = Some (Git.commitCommandLine (commitMessage r))
      /\ exitCode (fst (commitCommand (withFallback remote) env w))
         = (if Git.commitSucceeds env then None else Some 1).
Proof.
  intros remote env w. unfold ready, analyzeCommand, commitCommand, withFallback.
  destruct (Git.isGitRepository env); [|discriminate].
  destruct (Git.hasChanges env); [|discriminate].
  destruct (Git.getGitDiff env) as [diff|msg]; [|discriminate].
  cbn [negb andb]. intros ->. cbn [negb].
  destruct (generateCommitMessage_stores remote diff None w) as (r & _ & Hr & _).
  exists diff, r.
  destruct (Llm.generateCommitMessage remote diff None w) as [settled w1].
  cbn [fst] in Hr. subst settled.
  unfold Git.executeCommit.
  destruct (Git.commitSucceeds env); repeat split; reflexivity.
Qed.

Lemma commit_with_fallback_always_commits_witness :
  exists diff r,
    Git.getGitDiff (Git.mkEnv true (Some " M src/sum.ts") (Some Sample.diff) true)
    = inl diff
    /\ fst (Llm.generateCommitMessage Sample.failing500 diff None Sample.emptyWorld)
       = Llm.Returned r
    /\ executed
         (fst (commitCommand (withFallback Sample.failing500)
                 (Git.mkEnv true (Some " M src/sum.ts") (Some Sample.diff) true)
                 Sample.emptyWorld))
       = Some (Git.commitCommandLine (commitMessage r)).
Proof.
  destruct (commit_with_fallback_always_commits Sample.failing500
              (Git.mkEnv true (Some " M src/sum.ts") (Some Sample.diff) true)
              Sample.emptyWorld)
    as (diff & r & A & B & _ & C & _).
  - vm_compute. reflexivity.
  - exists diff, r. repeat split; assumption.
Defined.

(** X24.  With the revision that has no fallback, a command whose three
    requests all fail, the cache having nothing for the diff, prints the
    error and exits with code 1; [commit] runs no [git commit]. *)
Theorem commit_without_fallback_aborts :
  forall (remote : Remote) (env : Git.Env) (w : World) (diff : string),
    ready env = true ->
    Git.getGitDiff env = inl diff ->
    fst (CommitCache.get diff w) = None ->
    (forall n, (posts w <= n < posts w + LlmThrowing.maxRetries)%nat ->
               replyFails (fst (remote n diff)) = true) ->
    exitCode (fst (analyzeCommand (withoutFallback remote) env w)) = Some 1
    /\ exitCode (fst (commitCommand (withoutFallback remote) env w)) = Some 1
    /\ executed (fst (commitCommand (withoutFallback remote) env w)) = None.
Proof.
  intros remote env w diff Hready Hdiff Hmiss Hall.
  destruct (without_fallback_failure_raises remote diff w Hmiss Hall)
    as (msg & Hr & _).
  revert Hready. unfold ready, analyzeCommand, commitCommand, withoutFallback.
  rewrite Hdiff.
  destruct (Git.isGitRepository env); [|discriminate].
  destruct (Git.hasChanges env); [|discriminate].
  cbn [negb andb]. intros ->. cbn [negb].
  destruct (LlmThrowing.generateCommitMessage remote diff w) as [settled w1].
  cbn [fst] in Hr. subst settled. repeat split; reflexivity.
Qed.

Lemma commit_without_fallback_aborts_witness :
  executed
    (fst (commitCommand (withoutFallback Sample.failing500)
            (Git.mkEnv true (Some " M src/sum.ts") (Some Sample.diff) true)
            Sample.emptyWorld))
  = None.
Proof.
  apply (commit_without_fallback_aborts Sample.failing500
           (Git.mkEnv true (Some " M src/sum.ts") (Some Sample.diff) true)
           Sample.emptyWorld Sample.diff).
  - vm_compute. reflexivity.
  - vm_compute. reflexivity.
  - reflexivity.
  - intros n _. reflexivity.
Defined.

End CommandFacts.

(** ** The word-list fallback *)

Section WordList.
Import Sys Regex More.

Lemma run_litI word : forall prev rest,
  (forall c, Regex.mem c word = true -> toLower c = c) ->
  exists p, run (litI word) prev (word ++ rest) = [(p, rest)].
Proof.
  induction word as [|c word IH]; intros prev rest Hlow.
  - exists prev. reflexivity.
  - cbn [litI append run]. rewrite Ascii.eqb_refl. cbn [flat_map fst snd].
    destruct (IH (String c prev) rest) as (p & ->).
    + intros x Hx. apply Hlow. cbn [Regex.mem]. now rewrite Hx, orb_true_r.
    + exists p. reflexivity.
Qed.

Lemma matchesAt_alts r rs prev s :
  In r rs -> matchesAt r prev s = true -> matchesAt (alts rs) prev s = true.
Proof.
  unfold matchesAt. revert r.
  induction rs as [|r0 rs IH]; intros r Hin Hr; [destruct Hin|].
  destruct rs as [|r1 rs].
  - destruct Hin as [<-|[]]. exact Hr.
  - change (alts (r0 :: r1 :: rs)) with (Alt r0 (alts (r1 :: rs))).
    cbn [run]. destruct Hin as [<-|Hin].
    + destruct (run r0 prev s); [discriminate | reflexivity].
    + specialize (IH r Hin Hr).
      destruct (run r0 prev s); [exact IH | reflexivity].
Qed.

Lemma search_found r before : forall prev s,
  (forall p, matchesAt r p s = true) ->
  search r prev (before ++ s) = true.
Proof.
  induction before as [|c before IH]; intros prev s H.
  - cbn [append]. destruct s; cbn [search]; now rewrite H.
  - cbn [append search]. rewrite (IH (String c prev) s H). apply orb_true_r.
Qed.

Lemma test_finds_word word rs text :
  In (litI word) rs ->
  (forall c, Regex.mem c word = true -> toLower c = c) ->
  (exists before after, text = (before ++ word ++ after)%string) ->
  test (alts rs) text = true.
Proof.
  intros Hin Hlow (before & after & ->). unfold test.
  apply search_found. intros p.
  apply (matchesAt_alts (litI word)); [exact Hin|].
  unfold matchesAt. destruct (run_litI word p after Hlow) as (q & ->).
  reflexivity.
Qed.

(** X25.  In the revision with the word-list fallback, a diff that
    mentions [fix], [bug], [error], [issue], [crash] or [fault], in any
    letter case and at any place, also inside a longer word, is classified
    Bug Fix with the message [fix reported issue], whatever else it
    holds. *)
Theorem word_list_fallback_bug_words_win :
  forall (word diff : string) (w : World),
    In word ["fix"; "bug"; "error"; "issue"; "crash"; "fault"] ->
    mentions word diff ->
    fst (LlmSimple.generateFallbackCommit diff w)
    = Suggestion.mk "Bug Fix" "fix reported issue" None.
Proof.
  intros word diff w Hword Hm. unfold LlmSimple.generateFallbackCommit; cbv zeta.
  assert (E : test LlmSimple.reBug (LlmSimple.toLowerCase diff) = true).
  { unfold LlmSimple.reBug.
    apply (test_finds_word word); [| |exact Hm].
    - cbn [In] in Hword.
      repeat (destruct Hword as [<-|Hword]; [cbn [In]; tauto|]).
      destruct Hword.
    - cbn [In] in Hword.
      repeat (destruct Hword as [<-|Hword];
              [intros c Hc; cbn [Regex.mem] in Hc;
               repeat (apply orb_prop in Hc as [Hc|Hc];
                       [apply Ascii.eqb_eq in Hc; subst c; reflexivity|]);
               discriminate|]).
      destruct Hword. }
  rewrite E. reflexivity.
Qed.

Lemma word_list_fallback_bug_words_win_witness :
  fst (LlmSimple.generateFallbackCommit "+ const PREFIX = 1" Sample.emptyWorld)
  = Suggestion.mk "Bug Fix" "fix reported issue" None.
Proof.
  apply (word_list_fallback_bug_words_win "fix" "+ const PREFIX = 1").
  - left. reflexivity.
  - exists "+ const pre", " = 1". reflexivity.
Defined.

End WordList.
